(** * MPT inference library (mpt_impl.cpp): loader, forward pass, decode loop

    A shallow embedding of [mpt_model_load], [mpt_eval], [Mpt::Mpt] and
    [Mpt::ProcessTokenizedMessage].  The tensor engine (ggml), the tokenizer
    and the sampler are collaborators of the file and enter as type classes;
    what the file itself computes (stream reads, size checks, buffer sizing,
    cache addressing, logits extraction, the decode loop) is written out.

    Part I holds the definitions, Part II the lemmas and theorems. *)

From Stdlib Require Import ZArith List Strings.String Strings.Byte Lia.
From stdpp Require Import base option list gmap strings pretty.

Local Open Scope Z_scope.

(** * Part I: definitions *)

(** ** Machine integers *)

Module Machine.

(** Conversion to [size_t] (64 bit, unsigned arithmetic wraps). *)
Definition size_t (z : Z) : Z := z mod 2 ^ 64.

(** Conversion to [int] / [int32_t] (two's complement; signed arithmetic is
    taken to wrap as the hardware does). *)
Definition int32 (z : Z) : Z := (z + 2 ^ 31) mod 2 ^ 32 - 2 ^ 31.

End Machine.

(** ** Results of a C++ call *)

(** A call returns, runs into undefined behaviour (use of an indeterminate
    value, access outside an object), or leaves by an exception. *)
Inductive outcome (A : Type) : Type :=
| Ret (a : A)
| Undef
| Throw.
Arguments Ret {A} a.
Arguments Undef {A}.
Arguments Throw {A}.

#[global] Instance outcome_bind : MBind outcome := fun A B k m =>
  match m with
  | Ret a => k a
  | Undef => Undef
  | Throw => Throw
  end.

(** ** Binary input stream ([std::ifstream] opened with [std::ios::binary]) *)

Module IStream.

(** [rest] is what has not been read yet.  [eofbit] is set by the first read
    that asks for more than is left; that read also sets failbit, and nothing
    else sets it, so one flag stands for both. *)
Record t := mk { rest : list byte; eofbit : bool }.

Definition open (contents : list byte) : t := mk contents false.

(** [fin.read(p, n)]: the bytes stored through [p], and the stream after. *)
Definition read (n : nat) (s : t) : list byte * t :=
  if eofbit s then ([], s)
  else if decide (n <= length (rest s))%nat
       then (take n (rest s), mk (drop n (rest s)) false)
       else (rest s, mk [] true).

Definition eof (s : t) : bool := eofbit s.

(** Little-endian object representation. *)
Definition le_decode (bs : list byte) : Z :=
  foldr (fun b acc => Z.of_N (Byte.to_N b) + 256 * acc) 0 bs.

Definition byte_of_Z (z : Z) : byte :=
  default x00 (Byte.of_N (Z.to_N (z mod 256))).

Fixpoint le_encode (n : nat) (z : Z) : list byte :=
  match n with
  | O => []
  | S n' => byte_of_Z z :: le_encode n' (z / 256)
  end.

(** [fin.read(p, n)] over storage that holds [old]: the bytes that arrive
    overwrite its front, the others stay. *)
Definition read_over (n : nat) (old : list byte) (s : t) : list byte * t :=
  let '(bs, s') := read n s in (bs ++ drop (length bs) old, s').

(** [fin.read(&x, 4)] where the 32-bit object [x] holds [old]. *)
Definition read_obj (old : Z) (s : t) : Z * t :=
  let '(bs, s') := read_over 4 (le_encode 4 old) s in (le_decode bs, s').

(** The same into an uninitialised object: [None] when part of it is left
    indeterminate. *)
Definition read_uninit (s : t) : option Z * t :=
  let '(bs, s') := read 4 s in
  (if decide (length bs = 4%nat) then Some (le_decode bs) else None, s').

End IStream.

(** ** Collaborators *)

(** Floating-point carriers.  The file itself only moves floats around,
    reads them from their object representation and compares [clip_qkv]
    with [0.0f]; [half] is the 16-bit element type of the key/value cache
    and [f32_to_f16] the conversion [ggml_cpy] applies when it stores into
    it. *)
Class Floats := {
  float : Type;
  half : Type;
  f32_of_bits : Z -> float;
  f32_bits : float -> Z;
  f32_zero : float;
  f32_neg : float -> float;
  f32_ltb : float -> float -> bool;
  f32_to_f16 : float -> half;
}.

(** [mpt_hparams] (declared in mpt.h): the fields [mpt_model_load] reads,
    in the order it reads them, and [n_ctx], which the constructor sets. *)
Record mpt_hparams `{Floats} := mk_hparams {
  d_model : Z;
  max_seq_len : Z;
  n_heads : Z;
  n_layers : Z;
  n_vocab : Z;
  alibi_bias_max : float;
  clip_qkv : float;
  ftype : Z;
  n_ctx : Z;
}.
Arguments mk_hparams {_} _ _ _ _ _ _ _ _ _.

(** A weight tensor: element type code, the two dimensions the model uses,
    and its backing storage. *)
Record ggml_tensor := mk_tensor {
  t_type : Z;
  t_ne0 : Z;
  t_ne1 : Z;
  t_data : list byte;
}.

(** What ggml.h and common.h give the loader.  Constants and tables of the
    headers are fields; [ggml_init_ok hp wtype] says whether [ggml_init]
    returns a context for the budget computed from [hp] and [wtype];
    [ggml_new_cache n] is the storage of
    [ggml_new_tensor_1d(ctx, GGML_TYPE_F16, n)]; [convert_to_wstring] decodes
    UTF-8 and is [None] for the bytes it throws [std::range_error] on. *)
Class GgmlLoad `{Floats} := {
  GGML_FILE_MAGIC : Z;
  GGML_QNT_VERSION_FACTOR : Z;
  GGML_TYPE_COUNT : Z;
  GGML_TYPE_F32 : Z;
  ggml_ftype_to_ggml_type : Z -> Z;
  ggml_type_size : Z -> Z;
  ggml_blck_size : Z -> Z;
  ggml_nelements : ggml_tensor -> Z;
  ggml_nbytes : ggml_tensor -> Z;
  ggml_new_tensor_1d : Z -> Z -> ggml_tensor;
  ggml_new_tensor_2d : Z -> Z -> Z -> ggml_tensor;
  ggml_new_cache : Z -> list half;
  ggml_init_ok : mpt_hparams -> Z -> bool;
  convert_to_wstring : list byte -> option (list Z);
}.

(** ** The model and the vocabulary *)

(** [mpt_model]: [tensors] is the registry [model.tensors]; [wte_weight],
    [norm_f_weight] and the layers' fields point to tensors of the registry
    and are addressed by their registry names. *)
Record mpt_model `{Floats} := mk_model {
  hparams : mpt_hparams;
  tensors : gmap string ggml_tensor;
  memory_k : list half;
  memory_v : list half;
}.
Arguments mk_model {_} _ _ _ _.

Record gpt_vocab := mk_vocab {
  token_to_id : gmap string Z;
  id_to_token : gmap Z string;
}.

(** ** mpt_model_load *)

Section Loader.
Context `{FL : Floats} `{GL : !GgmlLoad}.

(** The message the loader logs before it returns [false]. *)
Inductive load_error :=
| FailedToOpen
| BadMagic
| BadFtype
| GgmlInitFailed
| UnknownTensor (name : string)
| WrongSize (name : string)
| WrongShape (name : string)
| WrongSizeBytes (name : string).

Definition read_i32 (old : Z) (fin : IStream.t) : Z * IStream.t :=
  let '(z, fin) := IStream.read_obj old fin in (Machine.int32 z, fin).

Definition read_f32 (old : float) (fin : IStream.t) : float * IStream.t :=
  let '(z, fin) := IStream.read_obj (f32_bits old) fin in (f32_of_bits z, fin).

(** Lines 50-63.  [Ret false] is the bad-magic return. *)
Definition verify_magic (fin : IStream.t) : outcome (bool * IStream.t) :=
  let '(magic, fin) := IStream.read_uninit fin in
  match magic with
  | None => Undef
  | Some magic => Ret (bool_decide (magic = GGML_FILE_MAGIC), fin)
  end.

(** Lines 66-98. *)
Definition load_hparams (hp : mpt_hparams) (fin : IStream.t)
  : mpt_hparams * IStream.t :=
  let '(v_d_model, fin) := read_i32 (d_model hp) fin in
  let '(v_max_seq_len, fin) := read_i32 (max_seq_len hp) fin in
  let '(v_n_heads, fin) := read_i32 (n_heads hp) fin in
  let '(v_n_layers, fin) := read_i32 (n_layers hp) fin in
  let '(v_n_vocab, fin) := read_i32 (n_vocab hp) fin in
  let '(v_alibi_bias_max, fin) := read_f32 (alibi_bias_max hp) fin in
  let '(v_clip_qkv, fin) := read_f32 (clip_qkv hp) fin in
  let '(v_ftype, fin) := read_i32 (ftype hp) fin in
  let v_n_ctx := Z.min v_max_seq_len (n_ctx hp) in
  (mk_hparams v_d_model v_max_seq_len v_n_heads v_n_layers v_n_vocab
              v_alibi_bias_max v_clip_qkv
              (Z.rem v_ftype GGML_QNT_VERSION_FACTOR) v_n_ctx,
   fin).

(** The hyperparameters a block of eight 4-byte fields decodes to, given
    the [n_ctx] the constructor has put into the model. *)
Definition hparams_of_fields (f1 f2 f3 f4 f5 f6 f7 f8 : list byte)
    (n_ctx0 : Z) : mpt_hparams :=
  mk_hparams (Machine.int32 (IStream.le_decode f1))
             (Machine.int32 (IStream.le_decode f2))
             (Machine.int32 (IStream.le_decode f3))
             (Machine.int32 (IStream.le_decode f4))
             (Machine.int32 (IStream.le_decode f5))
             (f32_of_bits (IStream.le_decode f6))
             (f32_of_bits (IStream.le_decode f7))
             (Z.rem (Machine.int32 (IStream.le_decode f8))
                    GGML_QNT_VERSION_FACTOR)
             (Z.min (Machine.int32 (IStream.le_decode f2)) n_ctx0).

(** [buf.resize(len)] on a [std::vector<char>]. *)
Definition resize_bytes (len : nat) (buf : list byte) : list byte :=
  take len buf ++ replicate (len - length buf) x00.

(** One round of the vocabulary loop, lines 107-124.  The conversion of
    line 116 throws on a word that is not UTF-8, and nothing in
    [mpt_model_load] catches it. *)
Definition load_word (i : Z) (st : gpt_vocab * list byte * IStream.t)
  : outcome (gpt_vocab * list byte * IStream.t) :=
  let '(vocab, buf, fin) := st in
  let '(len, fin) := IStream.read_uninit fin in
  match len with
  | None => Undef
  | Some len =>
      let len := Z.to_nat len in
      let '(buf, fin) := IStream.read_over len (resize_bytes len buf) fin in
      match convert_to_wstring (take len buf) with
      | None => Throw
      | Some word_multibytes =>
          let word :=
            string_of_list_byte
              (map (fun wc => IStream.byte_of_Z wc) word_multibytes) in
          Ret (mk_vocab (<[word := i]> (token_to_id vocab))
                        (<[i := word]> (id_to_token vocab)),
               buf, fin)
      end
  end.

Fixpoint load_vocab_from (k : nat) (i : Z)
    (st : gpt_vocab * list byte * IStream.t)
  : outcome (gpt_vocab * list byte * IStream.t) :=
  match k with
  | O => Ret st
  | S k' => st' ← load_word i st; load_vocab_from k' (i + 1) st'
  end.

Definition load_vocab (hp : mpt_hparams) (vocab : gpt_vocab) (fin : IStream.t)
  : outcome (gpt_vocab * IStream.t) :=
  '(vocab, _, fin) ← load_vocab_from (Z.to_nat (n_vocab hp)) 0
                        (vocab, replicate 128 x00, fin);
  Ret (vocab, fin).

(** Registry names, lines 220-247. *)
Definition block_name (i : Z) (field : string) : string :=
  "transformer.blocks." +:+ pretty i +:+ field.

Definition register_layer (wtype n_embd : Z) (reg : gmap string ggml_tensor)
    (i : Z) : gmap string ggml_tensor :=
  let norm_1_weight := ggml_new_tensor_1d GGML_TYPE_F32 n_embd in
  let c_attn_wqkv_weight := ggml_new_tensor_2d wtype n_embd (3 * n_embd) in
  let c_attn_out_proj_weight := ggml_new_tensor_2d wtype n_embd n_embd in
  let norm_2_weight := ggml_new_tensor_1d GGML_TYPE_F32 n_embd in
  let ffn_up_proj := ggml_new_tensor_2d wtype n_embd (4 * n_embd) in
  let ffn_down_proj := ggml_new_tensor_2d wtype (4 * n_embd) n_embd in
  <[block_name i ".ffn.down_proj.weight" := ffn_down_proj]>
  (<[block_name i ".ffn.up_proj.weight" := ffn_up_proj]>
  (<[block_name i ".norm_2.weight" := norm_2_weight]>
  (<[block_name i ".attn.out_proj.weight" := c_attn_out_proj_weight]>
  (<[block_name i ".attn.Wqkv.weight" := c_attn_wqkv_weight]>
  (<[block_name i ".norm_1.weight" := norm_1_weight]> reg))))).

(** Lines 207-249; a negative layer count makes [layers.resize] throw. *)
Definition prepare_weights (hp : mpt_hparams) (wtype : Z)
  : outcome (gmap string ggml_tensor) :=
  if decide (n_layers hp < 0) then Throw
  else
    let n_embd := d_model hp in
    let reg :=
      <["transformer.norm_f.weight" := ggml_new_tensor_1d GGML_TYPE_F32 n_embd]>
      (<["transformer.wte.weight" :=
           ggml_new_tensor_2d wtype n_embd (n_vocab hp)]> ∅) in
    Ret (foldl (register_layer wtype n_embd) reg (seqZ 0 (n_layers hp))).

(** The dimension loop of a tensor record, lines 301-306: [ne] is an array
    of two. *)
Fixpoint read_dims (k : nat) (i : Z) (ne : Z * Z) (nelements : Z)
    (fin : IStream.t) : outcome (Z * Z * Z * IStream.t) :=
  match k with
  | O => Ret (ne, nelements, fin)
  | S k' =>
      if decide (i = 0) then
        let '(v, fin) := read_i32 (fst ne) fin in
        read_dims k' (i + 1) (v, snd ne) (Machine.int32 (nelements * v)) fin
      else if decide (i = 1) then
        let '(v, fin) := read_i32 (snd ne) fin in
        read_dims k' (i + 1) (fst ne, v) (Machine.int32 (nelements * v)) fin
      else Undef
  end.

(** What one round of the weight loop (lines 288-383) ends in. *)
Inductive record_step :=
| RecBreak
| RecFail (e : load_error)
| RecNext (reg : gmap string ggml_tensor) (nbytes : Z) (fin : IStream.t).

(** The header of a tensor record as the loop has it after line 309. *)
Record record_header := mk_header {
  h_name : string;
  h_ne : Z * Z;
  h_nelements : Z;
  h_ttype : Z;
}.

(** Lines 289-309.  [None] is the [break] of line 298. *)
Definition read_record_header (fin : IStream.t)
  : outcome (option (record_header * IStream.t)) :=
  let '(n_dims, fin) := IStream.read_uninit fin in
  let '(len, fin) := IStream.read_uninit fin in
  let '(ttype, fin) := IStream.read_uninit fin in
  if IStream.eof fin then Ret None
  else
    match n_dims, len, ttype with
    | Some n_dims, Some len, Some ttype =>
        let n_dims := Machine.int32 n_dims in
        let len := Machine.int32 len in
        let ttype := Machine.int32 ttype in
        '(ne, nelements, fin) ←
           read_dims (Z.to_nat n_dims) 0 (1, 1) 1 fin;
        if decide (len < 0) then Throw
        else
          let '(name, fin) :=
            IStream.read_over (Z.to_nat len)
                              (replicate (Z.to_nat len) x00) fin in
          Ret (Some (mk_header (string_of_list_byte name) ne nelements ttype,
                     fin))
    | _, _, _ => Undef
    end.

(** The left side of the comparison of lines 365-366. *)
Definition record_bytes (h : record_header) (tensor : ggml_tensor) : Z :=
  Machine.size_t (Machine.size_t (h_nelements h) * ggml_type_size (h_ttype h))
  / Machine.size_t (ggml_blck_size (t_type tensor)).

(** The same quantity as §4.1 step 10 of the specification words it, with
    the quotient rounded up; compared with [record_bytes] in Part II. *)
Definition spec_record_bytes (h : record_header) (tensor : ggml_tensor) : Z :=
  let blck := Machine.size_t (ggml_blck_size (t_type tensor)) in
  (Machine.size_t (Machine.size_t (h_nelements h) * ggml_type_size (h_ttype h))
   + blck - 1) / blck.

(** Lines 311-377. *)
Definition check_and_copy (reg : gmap string ggml_tensor) (h : record_header)
    (fin : IStream.t) : outcome record_step :=
  match reg !! h_name h with
  | None => Ret (RecFail (UnknownTensor (h_name h)))
  | Some tensor =>
      if decide (ggml_nelements tensor ≠ h_nelements h)
      then Ret (RecFail (WrongSize (h_name h)))
      else if decide (t_ne0 tensor ≠ fst (h_ne h) ∨ t_ne1 tensor ≠ snd (h_ne h))
      then Ret (RecFail (WrongShape (h_name h)))
      else if decide (Machine.size_t (ggml_blck_size (t_type tensor)) = 0)
      then Undef
      else if decide (record_bytes h tensor ≠ ggml_nbytes tensor)
      then Ret (RecFail (WrongSizeBytes (h_name h)))
      else if decide (Z.of_nat (length (t_data tensor)) < ggml_nbytes tensor)
      then Undef
      else
        let '(data, fin) :=
          IStream.read_over (Z.to_nat (ggml_nbytes tensor))
                            (t_data tensor) fin in
        Ret (RecNext
               (<[h_name h := mk_tensor (t_type tensor) (t_ne0 tensor)
                                        (t_ne1 tensor) data]> reg)
               (ggml_nbytes tensor) fin)
  end.

Definition load_tensor_record (reg : gmap string ggml_tensor)
    (fin : IStream.t) : outcome record_step :=
  h ← read_record_header fin;
  match h with
  | None => Ret RecBreak
  | Some (h, fin) => check_and_copy reg h fin
  end.

(** The weight loop.  [None] stands for "more rounds than [fuel]"; every
    round that goes on has consumed a record header, so the length of the
    stream bounds the rounds ([load_weights_fuel] in Part II). *)
Fixpoint load_weights (fuel : nat) (reg : gmap string ggml_tensor)
    (n_tensors total_size : Z) (fin : IStream.t)
  : option (outcome (option load_error * gmap string ggml_tensor * Z * Z)) :=
  match fuel with
  | O => None
  | S fuel' =>
      match load_tensor_record reg fin with
      | Ret RecBreak => Some (Ret (None, reg, n_tensors, total_size))
      | Ret (RecFail e) => Some (Ret (Some e, reg, n_tensors, total_size))
      | Ret (RecNext reg' nbytes fin') =>
          load_weights fuel' reg' (n_tensors + 1)
                       (Machine.size_t (total_size + nbytes)) fin'
      | Undef => Some Undef
      | Throw => Some Throw
      end
  end.

(** Lines 127-397: the loader after the vocabulary block. *)
Definition load_after_vocab (hp : mpt_hparams) (model : mpt_model)
    (vocab : gpt_vocab) (fin : IStream.t)
  : outcome (option load_error * mpt_model * gpt_vocab) :=
  let wtype := ggml_ftype_to_ggml_type (ftype hp) in
  if decide (wtype = GGML_TYPE_COUNT)
  then Ret (Some BadFtype, model, vocab)
  else if negb (ggml_init_ok hp wtype)
  then Ret (Some GgmlInitFailed, model, vocab)
  else
    reg ← prepare_weights hp wtype;
    let n_elements := d_model hp * (n_layers hp * n_ctx hp) in
    let mem_k := ggml_new_cache n_elements in
    let mem_v := ggml_new_cache n_elements in
    match load_weights (S (length (IStream.rest fin))) reg 0 0 fin with
    | None => Undef
    | Some r =>
        '(err, reg, _, _) ← r;
        Ret (err, mk_model hp reg mem_k mem_v, vocab)
    end.

(** Lines 100-397: the loader from the vocabulary block on, with the
    hyperparameters [hp] read. *)
Definition load_after_hparams (hp : mpt_hparams) (model : mpt_model)
    (vocab : gpt_vocab) (fin : IStream.t)
  : outcome (option load_error * mpt_model * gpt_vocab) :=
  let model := mk_model hp (tensors model) (memory_k model)
                        (memory_v model) in
  '(vocab, fin) ← load_vocab hp vocab fin;
  load_after_vocab hp model vocab fin.

(** [mpt_model_load]: [None] in the first component is [return true], [Some
    e] is [return false] after logging [e].  [file] is [None] when [fname]
    cannot be opened. *)
Definition mpt_model_load (file : option (list byte)) (model : mpt_model)
    (vocab : gpt_vocab) : outcome (option load_error * mpt_model * gpt_vocab) :=
  match file with
  | None => Ret (Some FailedToOpen, model, vocab)
  | Some contents =>
      let fin := IStream.open contents in
      '(ok, fin) ← verify_magic fin;
      if negb ok then Ret (Some BadMagic, model, vocab)
      else
        let '(hp, fin) := load_hparams (hparams model) fin in
        load_after_hparams hp model vocab fin
  end.

End Loader.

(** ** Double arithmetic of the buffer sizing *)

Module Double.

(** Round a non-negative integer to 53 significant bits, ties to even: the
    IEEE 754 binary64 rounding of a value whose exponent is in range. *)
Definition round53 (a : Z) : Z :=
  let e := Z.log2 a in
  if e <? 53 then a
  else
    let k := e - 52 in
    let q := a / 2 ^ k in
    let r := a mod 2 ^ k in
    let h := 2 ^ (k - 1) in
    let q' := if r <? h then q
              else if h <? r then q + 1
              else if Z.even q then q else q + 1 in
    q' * 2 ^ k.

(** The literal [1.1] is the double [mant_1_1 / 2^52]
    (0x3FF199999999999A). *)
Definition mant_1_1 : Z := 4953959590107546.

(** [1.1 * x] for a [size_t] [x], in units of [2^-52]: [x] is converted to
    double, the product is rounded once. *)
Definition mul_1_1_scaled (x : Z) : Z := round53 (mant_1_1 * round53 x).

(** [(size_t)(1.1 * x)]: the conversion truncates; a value [size_t] cannot
    hold makes it undefined. *)
Definition mul_1_1 (x : Z) : outcome Z :=
  let v := mul_1_1_scaled x / 2 ^ 52 in
  if decide (v < 2 ^ 64) then Ret v else Undef.

End Double.

(** ** mpt_eval *)

(** The graph operations of ggml that [mpt_eval] strings together.
    Activations are flat lists in ggml's layout: element [(i, j)] of an
    [ne0 x ne1] tensor is at index [j * ne0 + i].  Weights are named by
    their registry keys.  [attend] is lines 520-581 (head split, K·Q, scale,
    ALiBi, causal mask, softmax, weighted sum over V, head merge) over the
    layer's views of the two caches; its second argument is the head
    dimension [n_embd / n_head], which [mpt_eval] computes. *)
Class GgmlCompute `{Floats} := {
  kv_element_size : Z;
  ggml_get_rows : mpt_model -> string -> list Z -> list float;
  ggml_norm_mul : mpt_model -> string -> list float -> list float;
  ggml_mul_mat : mpt_model -> string -> list float -> list float;
  ggml_add : list float -> list float -> list float;
  ggml_gelu : list float -> list float;
  attend : mpt_hparams -> Z -> Z -> Z -> list float -> list half
           -> list half -> list float;
  ggml_used_mem : mpt_hparams -> Z -> Z -> Z -> Z;
}.

(** The process environment: whether [realloc] to the given size returns
    a block, what [time(NULL)] returns, and the contents of the file a path
    names ([None] when it cannot be opened). *)
Class Host := {
  realloc_ok : Z -> bool;
  time_now : Z;
  file_contents : string -> option (list byte);
}.

Section Eval.
Context `{FL : Floats} `{GC : !GgmlCompute} `{HO : Host}.



(** Modelled from the spec: clipping one value into [lo, hi], the
    element-wise step of [ggml_clamp]. *)
Definition clamp1 (lo hi x : float) : float :=
  if f32_ltb x lo then lo else if f32_ltb hi x then hi else x.

(** Modelled from the spec: [ggml_clamp] is an operation of the tensor
    engine, which is not part of the file; §4.3 step 3 has it "clip all QKV
    values to [-threshold, threshold]". *)
Definition ggml_clamp (cur : list float) (lo hi : float) : list float :=
  map (clamp1 lo hi) cur.

Definition sizeof_float : Z := 4.

(** Modelled from the spec: the view primitives of the tensor engine
    (§6), which is not part of the file; §4.3 step 4 has the views taken
    "by fixed offset, no copy".  [ggml_view_2d(ctx0, cur, ne0, ne1, nb1,
    offset)] over float data: row [j] is the [ne0] elements from byte
    [offset + j * nb1] on. *)
Definition ggml_view_2d (cur : list float) (ne0 ne1 nb1 offset : Z)
  : list (list float) :=
  map (fun j => take (Z.to_nat ne0)
                  (drop (Z.to_nat ((offset + j * nb1) / sizeof_float)) cur))
      (seqZ 0 ne1).

(** Modelled from the spec: [ggml_view_1d(ctx0, a, ne0, offset)] (§6), a
    view of [ne0] elements from byte [offset] of the viewed tensor on. *)
Record view_1d := mk_view { v_ne0 : Z; v_offset : Z }.

(** Modelled from the spec: reading a view of a cache (§4.3 step 7). *)
Definition view_elems (mem : list half) (v : view_1d) : list half :=
  take (Z.to_nat (v_ne0 v))
       (drop (Z.to_nat (v_offset v / kv_element_size)) mem).

(** Modelled from the spec: [ggml_cpy(src, v)] into a view of a cache
    (§4.3 step 5, "write K and V for the current batch into the KV cache"):
    the rows of [src] in order, converted to the cache's element type.  The
    engine aborts when the element counts differ; a view that leaves the
    cache is a write outside it. *)
Definition cpy_to_view (src : list (list float)) (mem : list half)
    (v : view_1d) : outcome (list half) :=
  let vals := map f32_to_f16 (concat src) in
  let start := v_offset v / kv_element_size in
  if decide (Z.of_nat (length vals) = v_ne0 v
             ∧ 0 <= start
             ∧ start + v_ne0 v <= Z.of_nat (length mem))
  then Ret (take (Z.to_nat start) mem ++ vals
            ++ drop (Z.to_nat (start + v_ne0 v)) mem)
  else Undef.

(** The function-local statics [buf_size] and [buf] (null or not); the two
    scratch buffers keep their initial size and are not tracked. *)
Record eval_statics := mk_statics { buf_size : Z; buf_null : bool }.

Definition eval_statics_init : eval_statics :=
  mk_statics (256 * 1024 * 1024) false.

(** The key and value views that lines 507-514 store into. *)
Definition kv_store_view (hp : mpt_hparams) (il n_past N : Z) : view_1d :=
  let n_embd := d_model hp in
  mk_view (Machine.int32 (N * n_embd))
          (Machine.size_t
             (Machine.size_t (kv_element_size * Machine.size_t n_embd)
              * Machine.size_t (Machine.int32 (il * n_ctx hp + n_past)))).

(** The views lines 535-537 and 565-567 read the layer's cache through. *)
Definition kv_load_view (hp : mpt_hparams) (il n_past N : Z) : view_1d :=
  let n_embd := d_model hp in
  mk_view (Machine.int32 ((n_past + N) * n_embd))
          (Machine.size_t
             (Machine.size_t
                (Machine.size_t (Machine.int32 (il * n_ctx hp))
                 * kv_element_size)
              * Machine.size_t n_embd)).

(** Lines 491-503: the fused projection, clamped when [clip_qkv > 0.0f]. *)
Definition compute_qkv (model : mpt_model) (il : Z) (cur : list float)
  : list float :=
  let cur := ggml_mul_mat model (block_name il ".attn.Wqkv.weight") cur in
  if f32_ltb f32_zero (clip_qkv (hparams model))
  then ggml_clamp cur (f32_neg (clip_qkv (hparams model)))
                  (clip_qkv (hparams model))
  else cur.

(** [cur->nb[1]] of the fused projection: a row of [3 * n_embd] floats. *)
Definition qkv_nb1 (n_embd : Z) : Z := 3 * n_embd * sizeof_float.

Definition qkv_view (qkv : list float) (n_embd N which : Z)
  : list (list float) :=
  ggml_view_2d qkv n_embd N (qkv_nb1 n_embd) (which * sizeof_float * n_embd).

(** The addressing function of the specification (§9, "Manual byte-level
    cache-offset arithmetic"), in elements. *)
Definition spec_offset (hp : mpt_hparams) (layer position : Z) : Z :=
  (layer * n_ctx hp + position) * d_model hp.

(** The two caches as [mpt_model_load] allocates them (lines 258-262):
    [n_embd * (n_layer * n_ctx)] elements each, with a byte size that
    [size_t] holds, and with the [int] products of lines 508-514 (a batch
    of rows, a row index) in range. *)
Definition kv_cache_ok (model : mpt_model) : Prop :=
  let hp := hparams model in
  0 < kv_element_size /\ 0 < d_model hp /\ 0 <= n_layers hp
  /\ Z.of_nat (length (memory_k model))
     = d_model hp * (n_layers hp * n_ctx hp)
  /\ Z.of_nat (length (memory_v model))
     = d_model hp * (n_layers hp * n_ctx hp)
  /\ kv_element_size * (d_model hp * (n_layers hp * n_ctx hp)) < 2 ^ 64
  /\ n_ctx hp * d_model hp < 2 ^ 31
  /\ n_layers hp * n_ctx hp < 2 ^ 31.

(** [n_embd / n_head] of lines 526, 538, 568 and 571, a division of
    [int]s: undefined for a zero divisor, and for the one quotient that
    [int] cannot hold. *)
Definition head_dim (hp : mpt_hparams) : outcome Z :=
  if decide (n_heads hp = 0) then Undef
  else if decide (d_model hp = - 2 ^ 31 ∧ n_heads hp = -1) then Undef
  else Ret (Z.quot (d_model hp) (n_heads hp)).


(** One round of the layer loop, lines 467-620, on the hidden state and the
    two caches.  The graph of the whole pass is built before any of it is
    computed (line 649): the divisions of lines 526-571 are done while the
    graph is built, the stores of lines 516-517 belong to the computation,
    so a head count of zero ends the pass before anything is stored. *)
Definition eval_layer (n_past N : Z)
    (st : mpt_model * list float) (il : Z) : outcome (mpt_model * list float) :=
  let '(model, inpL) := st in
  let hp := hparams model in
  let n_embd := d_model hp in
  let cur := ggml_norm_mul model (block_name il ".norm_1.weight") inpL in
  let qkv := compute_qkv model il cur in
  let Qcur := qkv_view qkv n_embd N 0 in
  let Kcur := qkv_view qkv n_embd N 1 in
  let Vcur := qkv_view qkv n_embd N 2 in
  n_embd_head ← head_dim hp;
  mem_k ← cpy_to_view Kcur (memory_k model) (kv_store_view hp il n_past N);
  mem_v ← cpy_to_view Vcur (memory_v model) (kv_store_view hp il n_past N);
  let model := mk_model hp (tensors model) mem_k mem_v in
  let K := view_elems mem_k (kv_load_view hp il n_past N) in
  let V := view_elems mem_v (kv_load_view hp il n_past N) in
  let cur := attend hp n_embd_head n_past N (concat Qcur) K V in
  let cur := ggml_mul_mat model (block_name il ".attn.out_proj.weight") cur in
  let inpL := ggml_add inpL cur in
  let cur := ggml_norm_mul model (block_name il ".norm_2.weight") inpL in
  let cur := ggml_mul_mat model (block_name il ".ffn.up_proj.weight") cur in
  let cur := ggml_gelu cur in
  let cur := ggml_mul_mat model (block_name il ".ffn.down_proj.weight") cur in
  Ret (model, ggml_add inpL cur).

Fixpoint eval_layers (n_past N : Z) (st : mpt_model * list float)
    (ils : list Z) : outcome (mpt_model * list float) :=
  match ils with
  | [] => Ret st
  | il :: ils' => st' ← eval_layer n_past N st il; eval_layers n_past N st' ils'
  end.


(** Lines 462-649: the graph and its evaluation.  Gives the model with its
    caches written and the data of the final [inpL]. *)
Definition forward (model : mpt_model) (n_past : Z) (embd_inp : list Z)
  : outcome (mpt_model * list float) :=
  let N := Machine.int32 (Z.of_nat (length embd_inp)) in
  let inpL := ggml_get_rows model "transformer.wte.weight" embd_inp in
  '(model, inpL) ← eval_layers n_past N (model, inpL)
                     (seqZ 0 (n_layers (hparams model)));
  let inpL := ggml_norm_mul model "transformer.norm_f.weight" inpL in
  Ret (model, ggml_mul_mat model "transformer.wte.weight" inpL).

(** [v.resize(n)] on a [std::vector<float>]; a negative [int] turns into a
    size no vector has. *)
Definition resize_floats (n : Z) (v : list float) : outcome (list float) :=
  if decide (n < 0) then Throw
  else Ret (take (Z.to_nat n) v
            ++ replicate (Z.to_nat n - length v) f32_zero).

(** [memcpy(dst.data(), src + off, bytes)] between float arrays. *)
Definition memcpy_floats (dst src : list float) (off bytes : Z)
  : outcome (list float) :=
  let n := bytes / sizeof_float in
  if decide (0 <= off
             ∧ off + n <= Z.of_nat (length src)
             ∧ n <= Z.of_nat (length dst))
  then Ret (take (Z.to_nat n) (drop (Z.to_nat off) src)
            ++ drop (Z.to_nat n) dst)
  else Undef.

(** Lines 659-669. *)
Definition copy_logits (n_vocab N : Z) (logits_all : bool)
    (data embd_w : list float) : outcome (list float) :=
  if logits_all then
    embd_w ← resize_floats (Machine.int32 (n_vocab * N)) embd_w;
    memcpy_floats embd_w data 0
      (Machine.size_t
         (Machine.size_t (sizeof_float * Machine.size_t n_vocab)
          * Machine.size_t N))
  else
    embd_w ← resize_floats n_vocab embd_w;
    memcpy_floats embd_w data (Machine.int32 (n_vocab * (N - 1)))
      (Machine.size_t (sizeof_float * Machine.size_t n_vocab)).

(** What a call of [mpt_eval] leaves behind: its return value, the statics,
    the model (the caches are written through the model's pointers), the
    two reference parameters, and the size [ctx0] was created with ([None]
    when the call returned before creating it). *)
Record eval_result := mk_eval_result {
  r_ok : bool;
  r_statics : eval_statics;
  r_model : mpt_model;
  r_embd_w : list float;
  r_mem_per_token : Z;
  r_ctx0 : option Z;
}.

(** Lines 432-451: the statics after the block, and whether the call goes
    on. *)
Definition grow_buffer (S : eval_statics) (mem_per_token N : Z)
  : outcome (eval_statics * bool) :=
  let need := Machine.size_t (mem_per_token * Machine.size_t N) in
  if decide (0 < mem_per_token ∧ buf_size S < need) then
    buf_size_new ← Double.mul_1_1 need;
    let ok := realloc_ok buf_size_new in
    Ret (mk_statics buf_size_new (negb ok), ok)
  else Ret (S, true).

Definition mpt_eval (S : eval_statics) (model : mpt_model) (n_threads : Z)
    (n_past : Z) (embd_inp : list Z) (embd_w : list float)
    (logits_all : bool) (mem_per_token : Z) : outcome eval_result :=
  let N := Machine.int32 (Z.of_nat (length embd_inp)) in
  let hp := hparams model in
  '(S, ok) ← grow_buffer S mem_per_token N;
  if negb ok then
    Ret (mk_eval_result false S model embd_w mem_per_token None)
  else
    '(model, data) ← forward model n_past embd_inp;
    embd_w ← copy_logits (n_vocab hp) N logits_all data embd_w;
    if decide (mem_per_token = 0) then
      if decide (Machine.size_t N = 0) then Undef
      else
        Ret (mk_eval_result true S model embd_w
               (ggml_used_mem hp (buf_size S) n_past N / Machine.size_t N)
               (Some (buf_size S)))
    else
      Ret (mk_eval_result true S model embd_w mem_per_token
             (Some (buf_size S))).

End Eval.


(** ** The Mpt object *)

Module Params.

(** [mpt_params] (declared in mpt.h), the fields the file uses. *)
Record t `{Floats} := mk {
  seed : Z;
  n_threads : Z;
  n_predict : Z;
  n_batch : Z;
  n_ctx : Z;
  top_k : Z;
  top_p : float;
  temp : float;
  repeat_last_n : Z;
  repeat_penalty : float;
  model : string;
}.
Arguments mk {_} _ _ _ _ _ _ _ _ _ _ _.

End Params.

(** The sampler and its generator (common.h, <random>). *)
Class Sampling `{Floats} := {
  mt19937 : Type;
  mt19937_seed : Z -> mt19937;
  gpt_sample_top_k_top_p_repeat :
    gpt_vocab -> list float -> list Z -> Z -> float -> float -> Z -> float
    -> mt19937 -> Z * mt19937;
}.

(** The default member initialisers of mpt.h: what [params], [model] and
    [vocab] hold when the constructor's body starts. *)
Class MptHeader `{Floats} := {
  params_default : Params.t;
  hparams_default : mpt_hparams;
}.

Section Decode.
Context `{FL : Floats} `{GL : !GgmlLoad} `{GC : !GgmlCompute} `{HO : Host}
        `{SA : !Sampling} `{MH : !MptHeader}.

(** The members of [Mpt] that the file uses. *)
Record Mpt := mk_Mpt {
  params : Params.t;
  model : mpt_model;
  vocab : gpt_vocab;
  rng : mt19937;
}.

(** [Mpt::Mpt], lines 872-941. *)
Definition Mpt_ctor (_params : Params.t) : outcome Mpt :=
  let params := params_default in
  let rng := mt19937_seed (Params.seed params) in
  let params := _params in
  let v_seed := if decide (Params.seed params < 0)
                then Machine.int32 time_now else Params.seed params in
  let v_n_predict := if decide (Params.n_predict params < 0)
                     then 0 else Params.n_predict params in
  let hp0 := hparams_default in
  let model :=
    mk_model (mk_hparams (d_model hp0) (max_seq_len hp0) (n_heads hp0)
                         (n_layers hp0) (n_vocab hp0) (alibi_bias_max hp0)
                         (clip_qkv hp0) (ftype hp0) (Params.n_ctx params))
             ∅ [] [] in
  let vocab := mk_vocab ∅ ∅ in
  '(err, model, vocab) ←
     mpt_model_load (file_contents (Params.model params)) model vocab;
  let mk_params v_top_k v_repeat_last_n :=
    Params.mk v_seed (Params.n_threads params) v_n_predict
              (Params.n_batch params) (Params.n_ctx params) v_top_k
              (Params.top_p params) (Params.temp params) v_repeat_last_n
              (Params.repeat_penalty params) (Params.model params) in
  match err with
  | Some _ =>
      Ret (mk_Mpt (mk_params (Params.top_k params)
                             (Params.repeat_last_n params))
                  model vocab rng)
  | None =>
      let v_top_k := if decide (Params.top_k params = 0)
                     then n_vocab (hparams model) else Params.top_k params in
      let v_repeat_last_n := if decide (Params.repeat_last_n params = -1)
                             then Params.n_ctx params
                             else Params.repeat_last_n params in
      Ret (mk_Mpt (mk_params v_top_k v_repeat_last_n) model vocab rng)
  end.

(** ** Mpt::ProcessTokenizedMessage *)

(** The locals of the function and what it reaches through [this]. *)
Record decode_state := mk_decode {
  last_n_tokens : list Z;
  embd : list Z;
  logits : list float;
  mem_per_token : Z;
  n_past : Z;
  n_consumed : Z;
  n_sampled : Z;
  result : string;
  s_rng : mt19937;
  s_vocab : gpt_vocab;
  s_model : mpt_model;
  s_statics : eval_statics;
}.

(** [last_n_tokens.erase(last_n_tokens.begin()); last_n_tokens.push_back(id)];
    erasing [begin()] of an empty vector is undefined. *)
Definition window_push (w : list Z) (id : Z) : outcome (list Z) :=
  match w with
  | [] => Undef
  | _ :: w' => Ret (w' ++ [id])
  end.

(** The inner loop of lines 1045-1055; [k] bounds its rounds by the prompt
    tokens that are left. *)
Fixpoint consume_prompt (k : nat) (n_batch : Z) (embd_inp : list Z)
    (st : decode_state) : outcome decode_state :=
  match k with
  | O => Ret st
  | S k' =>
      if decide (n_consumed st < Machine.int32 (Z.of_nat (length embd_inp)))
      then
        match embd_inp !! Z.to_nat (n_consumed st) with
        | None => Undef
        | Some tok =>
            if decide (n_consumed st < 0) then Undef
            else
              w ← window_push (last_n_tokens st) tok;
              let st' :=
                mk_decode w (embd st ++ [tok]) (logits st) (mem_per_token st)
                          (n_past st) (n_consumed st + 1) (n_sampled st)
                          (result st) (s_rng st) (s_vocab st) (s_model st)
                          (s_statics st) in
              if decide (n_batch <= Machine.int32 (Z.of_nat (length (embd st'))))
              then Ret st'
              else consume_prompt k' n_batch embd_inp st'
        end
      else Ret st
  end.

(** [vocab.id_to_token[id]]: [operator[]] of [std::map] adds an empty
    string under a key that is missing. *)
Definition id_to_token_at (vocab : gpt_vocab) (id : Z) : string * gpt_vocab :=
  match id_to_token vocab !! id with
  | Some token => (token, vocab)
  | None => (EmptyString,
             mk_vocab (token_to_id vocab) (<[id := EmptyString]> (id_to_token vocab)))
  end.

(** Lines 1059-1063. *)
Definition display_text (ids : list Z) (acc : string * gpt_vocab)
  : string * gpt_vocab :=
  foldl (fun '(result, vocab) id =>
           let '(token, vocab) := id_to_token_at vocab id in
           (result +:+ token, vocab))
        acc ids.

(** How one round of the outer loop ends. *)
Inductive iter_result :=
| IterNext (st : decode_state)
| IterBreak (st : decode_state)
| IterEvalError (st : decode_state).

Definition iter_state (r : iter_result) : decode_state :=
  match r with
  | IterNext st | IterBreak st | IterEvalError st => st
  end.

(** Lines 995-1012. *)
Definition predict_step (P : Params.t) (st : decode_state)
  : outcome (bool * decode_state) :=
  if decide (embd st = []) then Ret (true, st)
  else
    r ← mpt_eval (s_statics st) (s_model st) (Params.n_threads P) (n_past st)
                 (embd st) (logits st) false (mem_per_token st);
    if negb (r_ok r) then
      Ret (false,
           mk_decode (last_n_tokens st) (embd st) (r_embd_w r)
                     (r_mem_per_token r) (n_past st) (n_consumed st)
                     (n_sampled st) (result st) (s_rng st) (s_vocab st)
                     (r_model r) (r_statics r))
    else
      Ret (true,
           mk_decode (last_n_tokens st) [] (r_embd_w r) (r_mem_per_token r)
                     (Machine.int32 (n_past st + Z.of_nat (length (embd st))))
                     (n_consumed st) (n_sampled st) (result st) (s_rng st)
                     (s_vocab st) (r_model r) (r_statics r)).

(** Lines 1014-1042. *)
Definition sample_step (P : Params.t) (st : decode_state)
  : outcome decode_state :=
  let n_vocab := n_vocab (hparams (s_model st)) in
  if decide (0 <= n_vocab <= Z.of_nat (length (logits st))) then
    let '(id, rng) :=
      gpt_sample_top_k_top_p_repeat
        (s_vocab st)
        (drop (length (logits st) - Z.to_nat n_vocab) (logits st))
        (last_n_tokens st) (Params.top_k P) (Params.top_p P)
        (Params.temp P) (Params.repeat_last_n P) (Params.repeat_penalty P)
        (s_rng st) in
    w ← window_push (last_n_tokens st) id;
    Ret (mk_decode w (embd st ++ [id]) (logits st) (mem_per_token st)
                   (n_past st) (n_consumed st) (n_sampled st + 1)
                   (result st) rng (s_vocab st) (s_model st) (s_statics st))
  else Undef.

(** The body of the outer loop, lines 994-1068. *)
Definition loop_body (P : Params.t) (embd_inp : list Z) (st : decode_state)
  : outcome iter_result :=
  '(ok, st) ← predict_step P st;
  if negb ok then Ret (IterEvalError st)
  else
    st ← (if decide (Machine.int32 (Z.of_nat (length embd_inp)) <= n_consumed st)
          then sample_step P st
          else consume_prompt (length embd_inp - Z.to_nat (n_consumed st))
                              (Params.n_batch P) embd_inp st);
    let '(text, vocab) := display_text (embd st) (result st, s_vocab st) in
    let st :=
      mk_decode (last_n_tokens st) (embd st) (logits st) (mem_per_token st)
                (n_past st) (n_consumed st) (n_sampled st) text (s_rng st)
                vocab (s_model st) (s_statics st) in
    match last (embd st) with
    | None => Undef
    | Some id => if decide (id = 0) then Ret (IterBreak st)
                 else Ret (IterNext st)
    end.

(** How the outer loop is left: the [while] test fails, the [break] of line
    1067, or the [return] of line 1005. *)
Inductive exit_result :=
| ExitLimit (st : decode_state)
| ExitEos (st : decode_state)
| ExitEvalError (st : decode_state).

Definition exit_state (r : exit_result) : decode_state :=
  match r with
  | ExitLimit st | ExitEos st | ExitEvalError st => st
  end.

(** The outer loop, line 993.  [None] stands for "more rounds than [fuel]";
    [decode_loop_total] in Part II shows the fuel [ProcessTokenizedMessage]
    passes is enough. *)
Fixpoint decode_loop (fuel : nat) (P : Params.t) (embd_inp : list Z)
    (st : decode_state) : option (outcome exit_result) :=
  match fuel with
  | O => None
  | S fuel' =>
      if decide (n_sampled st < Params.n_predict P) then
        match loop_body P embd_inp st with
        | Ret (IterNext st') => decode_loop fuel' P embd_inp st'
        | Ret (IterBreak st') => Some (Ret (ExitEos st'))
        | Ret (IterEvalError st') => Some (Ret (ExitEvalError st'))
        | Undef => Some Undef
        | Throw => Some Throw
        end
      else Some (Ret (ExitLimit st))
  end.

(** Lines 978-992: the locals before the loop, after the warm-up call of
    [mpt_eval] on the tokens 0, 1, 2, 3, whose return value is dropped. *)
Definition decode_init (M : Mpt) (S : eval_statics) : outcome decode_state :=
  if decide (Params.n_ctx (params M) < 0) then Throw
  else
    let last_n_tokens := replicate (Z.to_nat (Params.n_ctx (params M))) 0 in
    r ← mpt_eval S (model M) (Params.n_threads (params M)) 0 [0; 1; 2; 3]
                 [] false 0;
    Ret (mk_decode last_n_tokens [] (r_embd_w r) (r_mem_per_token r) 0 0 0
                   EmptyString (rng M) (vocab M) (r_model r) (r_statics r)).

Definition decode_fuel (P : Params.t) (embd_inp : list Z) : nat :=
  S (Z.to_nat (Params.n_predict P) + length embd_inp).

(** [Mpt::ProcessTokenizedMessage]: the string returned and how the loop was
    left. *)
Definition ProcessTokenizedMessage (M : Mpt) (S : eval_statics)
    (embd_inp : list Z) : outcome (string * exit_result) :=
  st ← decode_init M S;
  match decode_loop (decode_fuel (params M) embd_inp) (params M) embd_inp st with
  | None => Undef
  | Some r =>
      e ← r;
      match e with
      | ExitEvalError _ => Ret ("mpt_eval error"%string, e)
      | _ => Ret (result (exit_state e), e)
      end
  end.

(** What the inner loop over the prompt does to the state: it moves some
    tokens [toks], the next ones of the prompt, into the pending batch and
    through the window, and touches nothing else. *)
Definition consumed (embd_inp : list Z) (toks : list Z)
    (st st' : decode_state) : Prop :=
  embd st' = embd st ++ toks
  /\ toks = take (length toks) (drop (Z.to_nat (n_consumed st)) embd_inp)
  /\ last_n_tokens st'
     = drop (length toks) (last_n_tokens st ++ toks)
  /\ length (last_n_tokens st') = length (last_n_tokens st)
  /\ n_consumed st' = n_consumed st + Z.of_nat (length toks)
  /\ n_sampled st' = n_sampled st
  /\ n_past st' = n_past st
  /\ logits st' = logits st
  /\ mem_per_token st' = mem_per_token st
  /\ result st' = result st
  /\ s_rng st' = s_rng st
  /\ s_vocab st' = s_vocab st
  /\ s_model st' = s_model st
  /\ s_statics st' = s_statics st.

(** The batch a round of the outer loop forms, going from [st] to [st']:
    one sampled id when the prompt is used up, the next tokens of the
    prompt otherwise; either way the ids pass through the window first in,
    first out. *)
Definition round_batch (embd_inp : list Z) (st st' : decode_state) : Prop :=
  ((Machine.int32 (Z.of_nat (length embd_inp)) <= n_consumed st
    /\ (exists id, embd st' = [id])
    /\ n_sampled st' = n_sampled st + 1
    /\ n_consumed st' = n_consumed st)
   \/ (n_consumed st < Machine.int32 (Z.of_nat (length embd_inp))
       /\ embd st' <> []
       /\ embd st'
          = take (length (embd st'))
                 (drop (Z.to_nat (n_consumed st)) embd_inp)
       /\ n_sampled st' = n_sampled st
       /\ n_consumed st' = n_consumed st + Z.of_nat (length (embd st'))))
  /\ last_n_tokens st'
     = drop (length (embd st')) (last_n_tokens st ++ embd st')
  /\ length (last_n_tokens st') = length (last_n_tokens st).

(** A forward pass over the pending batch of [st] returned [false], and
    [st'] is [st] with what that call left in its reference parameters and
    the statics. *)
Definition eval_failed (P : Params.t) (st st' : decode_state) : Prop :=
  embd st <> []
  /\ exists r,
       mpt_eval (s_statics st) (s_model st) (Params.n_threads P) (n_past st)
                (embd st) (logits st) false (mem_per_token st) = Ret r
       /\ r_ok r = false
       /\ st' = mk_decode (last_n_tokens st) (embd st) (r_embd_w r)
                          (r_mem_per_token r) (n_past st) (n_consumed st)
                          (n_sampled st) (result st) (s_rng st) (s_vocab st)
                          (r_model r) (r_statics r).

End Decode.

(** ** A small concrete configuration

    Integers stand for floats, the type tables are those of ggml for F32,
    F16 and Q4_0, and the graph operations only keep the shapes right.  The
    closed examples of Part II run the definitions above on it. *)

Module Fixture.

#[export] Instance floats : Floats := {|
  float := Z;
  half := Z;
  f32_of_bits := fun z => z;
  f32_bits := fun z => z;
  f32_zero := 0;
  f32_neg := Z.opp;
  f32_ltb := Z.ltb;
  f32_to_f16 := fun z => z;
|}.

Definition type_size (t : Z) : Z :=
  if decide (t = 0) then 4 else if decide (t = 1) then 2 else 18.

Definition blck_size (t : Z) : Z :=
  if decide (t = 0) then 1 else if decide (t = 1) then 1 else 32.

Definition nbytes_of (t ne0 ne1 : Z) : Z :=
  (ne0 * ne1 * type_size t) / blck_size t.

Definition new_tensor (t ne0 ne1 : Z) : ggml_tensor :=
  mk_tensor t ne0 ne1 (replicate (Z.to_nat (nbytes_of t ne0 ne1)) x00).

(** A converter for ASCII words, which are their own code points; it
    refuses every other word (the real one also decodes the multi-byte
    sequences of UTF-8). *)
Definition ascii_to_wstring (w : list byte) : option (list Z) :=
  if forallb (fun b => (Byte.to_N b <? 128)%N) w
  then Some (map (fun b => Z.of_N (Byte.to_N b)) w)
  else None.

#[export] Instance ggml_load : GgmlLoad := {|
  GGML_FILE_MAGIC := 0x67676d6c;
  GGML_QNT_VERSION_FACTOR := 1000;
  GGML_TYPE_COUNT := 19;
  GGML_TYPE_F32 := 0;
  ggml_ftype_to_ggml_type := fun f => if decide (0 <= f <= 2) then f else 19;
  ggml_type_size := type_size;
  ggml_blck_size := blck_size;
  ggml_nelements := fun t => t_ne0 t * t_ne1 t;
  ggml_nbytes := fun t => nbytes_of (t_type t) (t_ne0 t) (t_ne1 t);
  ggml_new_tensor_1d := fun t ne0 => new_tensor t ne0 1;
  ggml_new_tensor_2d := new_tensor;
  ggml_new_cache := fun n => replicate (Z.to_nat n) 0;
  ggml_init_ok := fun _ _ => true;
  convert_to_wstring := ascii_to_wstring;
|}.

(** Shapes: the fused projection triples a row, the output embedding
    doubles it ([n_vocab = 2 * d_model] below), the others keep it. *)
Definition mul_mat (name : string) (cur : list Z) : list Z :=
  if decide (name = "transformer.wte.weight"%string)
  then flat_map (fun x => [x; x + 1]) cur
  else if decide (name = block_name 0 ".attn.Wqkv.weight"
                  ∨ name = block_name 1 ".attn.Wqkv.weight")
  then flat_map (fun x => [x; 10 * x; - x]) cur
  else cur.

#[export] Instance ggml_compute : GgmlCompute := {|
  kv_element_size := 2;
  ggml_get_rows := fun _ _ embd => flat_map (fun tok => [tok; tok + 100]) embd;
  ggml_norm_mul := fun _ _ cur => cur;
  ggml_mul_mat := fun _ name cur => mul_mat name cur;
  ggml_add := fun a b => zip_with Z.add a b;
  ggml_gelu := fun cur => cur;
  attend := fun _ _ _ _ Q _ _ => Q;
  ggml_used_mem := fun _ _ _ N => 1000 * N + 7;
|}.

(** An allocator that has nothing beyond 512 MB. *)
#[export] Instance host : Host := {|
  realloc_ok := fun size => bool_decide (size <= 512 * 1024 * 1024);
  time_now := 1700000000;
  file_contents := fun _ => None;
|}.

(** A generator that counts and a sampler that returns the count. *)
#[export] Instance sampling : Sampling := {|
  mt19937 := Z;
  mt19937_seed := fun seed => seed mod 2 ^ 32;
  gpt_sample_top_k_top_p_repeat :=
    fun _ _ _ _ _ _ _ _ rng => (rng mod 5, rng + 1);
|}.

Definition toy_hp : mpt_hparams := mk_hparams 2 16 1 2 4 8 0 0 8.

#[export] Instance header : MptHeader := {|
  params_default := Params.mk (-1) 1 200 8 512 0 1 1 64 1 ""%string;
  hparams_default := mk_hparams 0 0 0 0 0 0 0 0 0;
|}.

Definition toy_model : mpt_model :=
  mk_model toy_hp ∅ (replicate 32 0) (replicate 32 0).

Definition le32 (z : Z) : list byte := IStream.le_encode 4 z.

(** A weight file: magic; [d_model = 2], [max_seq_len = 16], [n_heads = 1],
    [n_layers = 0], [n_vocab = 4], [alibi_bias_max], [clip_qkv],
    [ftype = 2] (Q4_0); four one-letter words; one record for
    ["transformer.wte.weight"] of type Q4_0 with dimensions 2 x 4 and four
    bytes of payload. *)
Definition file_header : list byte :=
  le32 0x67676d6c
  ++ le32 2 ++ le32 16 ++ le32 1 ++ le32 0 ++ le32 4
  ++ le32 8 ++ le32 0 ++ le32 2.

Definition file_vocab : list byte :=
  le32 1 ++ [x61] ++ le32 1 ++ [x62] ++ le32 1 ++ [x63] ++ le32 1 ++ [x64].

Definition file_record : list byte :=
  le32 2 ++ le32 22 ++ le32 2 ++ le32 2 ++ le32 4
  ++ list_byte_of_string "transformer.wte.weight"
  ++ [xaa; xbb; xcc; xdd].

Definition toy_file : list byte :=
  file_header ++ file_vocab ++ file_record.

Definition model0 : mpt_model :=
  mk_model (mk_hparams 0 0 0 0 0 0 0 0 8) ∅ [] [].

(** The registry the loader has built when it reaches the record, and the
    record's header. *)
Definition registry : gmap string ggml_tensor :=
  <["transformer.norm_f.weight"%string := new_tensor 0 2 1]>
  (<["transformer.wte.weight"%string := new_tensor 2 2 4]> ∅).

Definition wte_header : record_header :=
  mk_header "transformer.wte.weight" (2, 4) 8 2.

Definition toy_params (seed n_predict n_batch n_ctx repeat_last_n : Z)
  : Params.t :=
  Params.mk seed 1 n_predict n_batch n_ctx 40 1 1 repeat_last_n 1 ""%string.

Definition toy_mpt (P : Params.t) : Mpt :=
  mk_Mpt P toy_model (mk_vocab ∅ ∅) 0.


(** An object with a context of 4 and a repeat window of 2, and the locals
    of [ProcessTokenizedMessage] on it before the loop. *)
Definition mpt_4_2 : Mpt := toy_mpt (toy_params 42 5 8 4 2).

Definition state_0 : decode_state :=
  Eval vm_compute in
    match decode_init mpt_4_2 eval_statics_init with
    | Ret st => st
    | _ => mk_decode [] [] [] 0 0 0 0 EmptyString 0 (mk_vocab ∅ ∅) toy_model
                     eval_statics_init
    end.

(** A state of the loop with three tokens pending and an estimate of
    200 MB per token. *)
Definition state_pending : decode_state :=
  mk_decode [0; 0; 0; 0] [5; 6; 7] [] 200000000 0 0 0 EmptyString 0
            (mk_vocab ∅ ∅) toy_model eval_statics_init.

(** What [mpt_eval] returns on the first two tokens 5, 6. *)
Definition eval_5_6 : eval_result :=
  Eval vm_compute in
    match mpt_eval eval_statics_init toy_model 1 0 [5; 6] [] false 0 with
    | Ret r => r
    | _ => mk_eval_result false eval_statics_init toy_model [] 0 None
    end.

(** The object the constructor builds from a seed of 42 (the weight file
    cannot be opened, so the constructor returns after the load). *)
Definition mpt_seed_42 : Mpt :=
  Eval vm_compute in
    match Mpt_ctor (toy_params 42 5 8 4 2) with
    | Ret M => M
    | _ => toy_mpt (toy_params 42 5 8 4 2)
    end.

End Fixture.

(** ** The layout of the vocabulary block, and tensor shapes *)

Section Layout.
Context `{FL : Floats} `{GL : !GgmlLoad}.

(** The token that lines 116-121 make of the bytes of a word; [None] when
    the conversion throws. *)
Definition word_of (w : list byte) : option string :=
  word_multibytes ← convert_to_wstring w;
  Some (string_of_list_byte
          (map (fun wc => IStream.byte_of_Z wc) word_multibytes)).

(** The bytes the loop of lines 107-124 takes the words [ws] from: for each
    word a 4-byte length, then the word. *)
Definition vocab_block (ws : list (list byte)) : list byte :=
  concat (map (fun w => IStream.le_encode 4 (Z.of_nat (length w)) ++ w) ws).

(** Two tensors of one type, one shape and one storage size. *)
Definition same_shape (t t' : ggml_tensor) : Prop :=
  t_type t' = t_type t /\ t_ne0 t' = t_ne0 t /\ t_ne1 t' = t_ne1 t
  /\ length (t_data t') = length (t_data t).

(** Two registries with the same names, and tensors of the same shape under
    each. *)
Definition registry_same_shape (reg reg' : gmap string ggml_tensor) : Prop :=
  forall name, option_Forall2 same_shape (reg !! name) (reg' !! name).

End Layout.

(** ** Runs of the decoding loop *)

Section DecodeRun.
Context `{FL : Floats} `{GL : !GgmlLoad} `{GC : !GgmlCompute} `{HO : Host}
        `{SA : !Sampling} `{MH : !MptHeader}.

(** The text [vocab.id_to_token[id]] gives: the token stored, or the empty
    string that [operator[]] adds under a missing key. *)
Definition token_text (vocab : gpt_vocab) (id : Z) : string :=
  default EmptyString (id_to_token vocab !! id).

(** [result += token] over the ids of a batch, lines 1059-1063. *)
Definition append_tokens (vocab : gpt_vocab) (acc : string) (ids : list Z)
  : string :=
  foldl (fun acc id => acc +:+ token_text vocab id) acc ids.

(** The states in which a run of the outer loop from [st0] reaches the test
    of line 993. *)
Inductive loop_head (P : Params.t) (embd_inp : list Z) (st0 : decode_state)
  : decode_state -> Prop :=
| head_first : loop_head P embd_inp st0 st0
| head_next (st st' : decode_state) :
    loop_head P embd_inp st0 st ->
    n_sampled st < Params.n_predict P ->
    loop_body P embd_inp st = Ret (IterNext st') ->
    loop_head P embd_inp st0 st'.

(** The states a run passes: those at the test, and the one each round
    ends in, the rounds that leave the loop by [break] or [return]
    included. *)
Definition loop_visits (P : Params.t) (embd_inp : list Z)
    (st0 st : decode_state) : Prop :=
  loop_head P embd_inp st0 st
  \/ exists st1 r,
       loop_head P embd_inp st0 st1
       /\ n_sampled st1 < Params.n_predict P
       /\ loop_body P embd_inp st1 = Ret r
       /\ st = iter_state r.

(** What the locals of [ProcessTokenizedMessage] satisfy throughout the
    loop, with [ids] the ids sampled so far: the counters, the pending
    batch, the text and the window are those of one token history, the
    consumed part of the prompt followed by [ids]. *)
Definition decode_inv (M : Mpt) (embd_inp ids : list Z) (st : decode_state)
  : Prop :=
  let hist := take (Z.to_nat (n_consumed st)) embd_inp ++ ids in
  Z.of_nat (length ids) = n_sampled st
  /\ 0 <= n_consumed st <= Z.of_nat (length embd_inp)
  /\ n_sampled st <= Z.max 0 (Params.n_predict (params M))
  /\ (0 < n_sampled st -> n_consumed st = Z.of_nat (length embd_inp))
  /\ 0 <= n_past st
  /\ n_past st + Z.of_nat (length (embd st)) = n_consumed st + n_sampled st
  /\ embd st = drop (Z.to_nat (n_past st)) hist
  /\ Z.of_nat (length (embd st)) <= Z.max 1 (Params.n_batch (params M))
  /\ (0 < n_sampled st -> length (embd st) = 1%nat)
  /\ result st = append_tokens (vocab M) EmptyString hist
  /\ (forall id, token_text (s_vocab st) id = token_text (vocab M) id)
  /\ last_n_tokens st
     = drop (length hist)
            (replicate (Z.to_nat (Params.n_ctx (params M))) 0 ++ hist).

End DecodeRun.

(** ** Mpt::LogPerplexity: the evaluation of a chunk

    Lines 722-775.  The scoring of the logits (lines 826-835) is float
    arithmetic over [softmax] and [std::log] and is not modelled. *)

Section Perplexity.
Context `{FL : Floats} `{GL : !GgmlLoad} `{GC : !GgmlCompute} `{HO : Host}
        `{SA : !Sampling} `{MH : !MptHeader}.

(** [a / b] on [int]: the quotient is truncated; a zero divisor is
    undefined. *)
Definition int_div (a b : Z) : outcome Z :=
  if decide (b = 0) then Undef else Ret (Machine.int32 (Z.quot a b)).

(** Line 722: [embd_inp.size() / params.n_ctx], a division in [size_t],
    stored into an [int]. *)
Definition n_chunk_of (embd_inp : list Z) (n_ctx : Z) : outcome Z :=
  let d := Machine.size_t n_ctx in
  if decide (d = 0) then Undef
  else Ret (Machine.int32 (Machine.size_t (Z.of_nat (length embd_inp)) / d)).

(** A batch as the loop of lines 746-775 forms it: [batch_size], the
    position [j * batch_size] it passes to [mpt_eval] as [n_past], and the
    tokens. *)
Record ppl_batch := mk_batch {
  b_size : Z;
  b_n_past : Z;
  b_embd : list Z;
}.

(** Lines 753-755: [embd.push_back(embd_inp[batch_start + p])] for [p] from
    0 up to [batch_size]; an index outside the vector is undefined. *)
Fixpoint gather (k : nat) (p : Z) (embd_inp : list Z) (batch_start : Z)
    (embd : list Z) : outcome (list Z) :=
  match k with
  | O => Ret embd
  | S k' =>
      let ix := Machine.int32 (batch_start + p) in
      if decide (ix < 0) then Undef
      else
        match embd_inp !! Z.to_nat ix with
        | None => Undef
        | Some tok => gather k' (p + 1) embd_inp batch_start (embd ++ [tok])
        end
  end.

(** Lines 748-755 and the [n_past] argument of line 761, for the batch [j]
    of the chunk that begins at [start]. *)
Definition perplexity_batch (P : Params.t) (embd_inp : list Z) (start j : Z)
  : outcome ppl_batch :=
  let n_batch := Params.n_batch P in
  let end_ := Machine.int32 (start + Params.n_ctx P) in
  let batch_start := Machine.int32 (start + Machine.int32 (j * n_batch)) in
  let batch_size := Z.min (Machine.int32 (end_ - batch_start)) n_batch in
  embd ← gather (Z.to_nat batch_size) 0 embd_inp batch_start [];
  Ret (mk_batch batch_size (Machine.int32 (j * batch_size)) embd).

(** What the calls of [mpt_eval] carry from one to the next: the statics,
    the model with its caches, and the estimate. *)
Record ppl_state := mk_ppl {
  p_statics : eval_statics;
  p_model : mpt_model;
  p_mem_per_token : Z;
}.

(** [logits.insert(logits.end(), data, data + n)] of lines 773-774; a range
    that leaves the vector [data] points into is undefined. *)
Definition insert_range (logits batch_logits : list float) (n : Z)
  : outcome (list float) :=
  if decide (0 <= n <= Z.of_nat (length batch_logits))
  then Ret (logits ++ take (Z.to_nat n) batch_logits)
  else Undef.

(** The batch loop, lines 746-775, from batch [j] on with [k] batches to
    go.  [None] in the first component is the [return] of line 768. *)
Fixpoint eval_batches (k : nat) (j : Z) (P : Params.t) (n_vocab : Z)
    (embd_inp : list Z) (start : Z) (st : ppl_state) (logits : list float)
  : outcome (option (list float) * ppl_state) :=
  match k with
  | O => Ret (Some logits, st)
  | S k' =>
      b ← perplexity_batch P embd_inp start j;
      r ← mpt_eval (p_statics st) (p_model st) (Params.n_threads P)
                   (b_n_past b) (b_embd b) [] true (p_mem_per_token st);
      let st := mk_ppl (r_statics r) (r_model r) (r_mem_per_token r) in
      if negb (r_ok r) then Ret (None, st)
      else
        logits ← insert_range logits (r_embd_w r)
                   (Machine.int32 (b_size b * n_vocab));
        eval_batches k' (j + 1) P n_vocab embd_inp start st logits
  end.

(** Lines 735-775 for the chunk [i]: the logits of the chunk, or [None]
    when an evaluation failed. *)
Definition eval_chunk (P : Params.t) (n_vocab : Z) (embd_inp : list Z)
    (i : Z) (st : ppl_state) : outcome (option (list float) * ppl_state) :=
  let start := Machine.int32 (i * Params.n_ctx P) in
  num_batches ←
    int_div (Machine.int32
               (Machine.int32 (Params.n_ctx P + Params.n_batch P) - 1))
            (Params.n_batch P);
  eval_batches (Z.to_nat num_batches) 0 P n_vocab embd_inp start st [].

End Perplexity.

(** ** Runs of the small configuration *)

Module FixtureRuns.
Import Fixture.

Definition get {A : Type} (d : A) (o : outcome A) : A :=
  match o with Ret a => a | _ => d end.

(** The all-logits call on the tokens 5, 6, and a call on three tokens with
    an estimate of 200 MB per token, for which the allocator has no
    block. *)
Definition eval_5_6_all : eval_result :=
  Eval vm_compute in
    get eval_5_6 (mpt_eval eval_statics_init toy_model 1 0 [5; 6] [] true 0).

Definition eval_5_6_7_fail : eval_result :=
  Eval vm_compute in
    get eval_5_6
        (mpt_eval eval_statics_init toy_model 1 0 [5; 6; 7] [] false
                  200000000).

(** The forward pass on 5, 6 at position 0, and on 7 at position 2 of the
    model the first one leaves. *)
Definition forward_5_6 : mpt_model * list float :=
  Eval vm_compute in get (toy_model, []) (forward toy_model 0 [5; 6]).

Definition forward_7 : mpt_model * list float :=
  Eval vm_compute in get (toy_model, []) (forward forward_5_6.1 2 [7]).

(** The hyperparameters the weight file holds. *)
Definition file_hp : mpt_hparams := mk_hparams 2 16 1 0 4 8 0 2 8.

(** The load of the weight file into a model configured with a context of
    32. *)
Definition model_32 : mpt_model :=
  mk_model (mk_hparams 0 0 0 0 0 0 0 0 32) ∅ [] [].

Definition loaded_32 : option load_error * mpt_model * gpt_vocab :=
  Eval vm_compute in
    get (None, model_32, mk_vocab ∅ ∅)
        (mpt_model_load (Some toy_file) model_32 (mk_vocab ∅ ∅)).

(** The weight loop on the record of the file, and the record with its
    payload cut to two bytes. *)
Definition weights_toy
  : option load_error * gmap string ggml_tensor * Z * Z :=
  Eval vm_compute in
    match load_weights 5 registry 0 0 (IStream.open file_record) with
    | Some (Ret x) => x
    | _ => (None, registry, 0, 0)
    end.

Definition file_record_cut : list byte :=
  le32 2 ++ le32 22 ++ le32 2 ++ le32 2 ++ le32 4
  ++ list_byte_of_string "transformer.wte.weight"
  ++ [xaa; xbb].

(** An object with a vocabulary, a limit of three tokens and a generator
    that starts at 1, and its run on the prompt 7, 3. *)
Definition toy_vocab : gpt_vocab :=
  mk_vocab ∅ (<[7 := "x"%string]> (<[3 := "d"%string]>
              (<[2 := "c"%string]> (<[1 := "b"%string]> ∅)))).

Definition mpt_talk : Mpt :=
  mk_Mpt (toy_params 42 3 8 4 2) toy_model toy_vocab 1.

Definition state_talk : decode_state :=
  Eval vm_compute in get state_0 (decode_init mpt_talk eval_statics_init).

Definition exit_talk : exit_result :=
  Eval vm_compute in
    match decode_loop (decode_fuel (params mpt_talk) [7; 3]) (params mpt_talk)
                      [7; 3] state_talk with
    | Some (Ret e) => e
    | _ => ExitLimit state_talk
    end.

(** The same object with a limit of zero. *)
Definition mpt_mute : Mpt :=
  mk_Mpt (toy_params 42 0 8 4 2) toy_model toy_vocab 1.

(** The object the constructor builds when n_predict is -3. *)
Definition mpt_neg : Mpt :=
  Eval vm_compute in
    get mpt_seed_42 (Mpt_ctor (toy_params 42 (-3) 8 4 2)).

(** Parameters with a context of 4 and batches of 3, and the first chunk of
    the tokens 1, 2, 3, 1, 2 under them. *)
Definition params_4_3 : Params.t := toy_params 42 5 3 4 2.

Definition chunk_0 : option (list Z) * ppl_state :=
  Eval vm_compute in
    get (None, mk_ppl eval_statics_init toy_model 0)
        (eval_chunk params_4_3 4 [1; 2; 3; 1; 2] 0
                    (mk_ppl eval_statics_init toy_model 0)).

(** The first round of that object on the empty prompt. *)
Definition round_empty : iter_result :=
  Eval vm_compute in
    get (IterBreak state_talk) (loop_body (params mpt_talk) [] state_talk).

End FixtureRuns.

(** * Part II: lemmas and theorems *)

(** ** Machine integers and streams *)

Lemma size_t_small (z : Z) : 0 <= z < 2 ^ 64 -> Machine.size_t z = z.
Proof. intros H. unfold Machine.size_t. now apply Z.mod_small. Qed.

Lemma int32_small (z : Z) : - 2 ^ 31 <= z < 2 ^ 31 -> Machine.int32 z = z.
Proof. intros H. unfold Machine.int32. rewrite Z.mod_small; lia. Qed.

Lemma size_t_range (z : Z) : 0 <= Machine.size_t z < 2 ^ 64.
Proof. unfold Machine.size_t. apply Z.mod_pos_bound. lia. Qed.

Lemma int32_le_nonneg (z : Z) : 0 <= z -> Machine.int32 z <= z.
Proof.
  intros H. unfold Machine.int32.
  pose proof (Z.mod_le (z + 2 ^ 31) (2 ^ 32)). lia.
Qed.

Lemma length_le_encode (n : nat) (z : Z) : length (IStream.le_encode n z) = n.
Proof. revert z. induction n as [|n IH]; intros z; simpl; [done|]. now rewrite IH. Qed.

Lemma read_app (n : nat) (bs tl : list byte) :
  length bs = n ->
  IStream.read n (IStream.mk (bs ++ tl) false) = (bs, IStream.mk tl false).
Proof.
  intros Hn. unfold IStream.read. simpl.
  destruct (decide (n <= length (bs ++ tl))%nat) as [_|Hgt].
  - subst n. now rewrite take_app_length, drop_app_length.
  - rewrite length_app in Hgt. lia.
Qed.

Lemma read_over_app (n : nat) (old bs tl : list byte) :
  length bs = n ->
  IStream.read_over n old (IStream.mk (bs ++ tl) false)
  = (bs ++ drop n old, IStream.mk tl false).
Proof.
  intros Hn. unfold IStream.read_over. rewrite (read_app n bs tl Hn).
  now rewrite Hn.
Qed.

Lemma read_obj_app (old : Z) (bs tl : list byte) :
  length bs = 4%nat ->
  IStream.read_obj old (IStream.mk (bs ++ tl) false)
  = (IStream.le_decode bs, IStream.mk tl false).
Proof.
  intros Hn. unfold IStream.read_obj. rewrite (read_over_app 4 _ bs tl Hn).
  rewrite drop_ge by (rewrite length_le_encode; lia).
  now rewrite app_nil_r.
Qed.

Lemma read_uninit_app (bs tl : list byte) :
  length bs = 4%nat ->
  IStream.read_uninit (IStream.mk (bs ++ tl) false)
  = (Some (IStream.le_decode bs), IStream.mk tl false).
Proof.
  intros Hn. unfold IStream.read_uninit. rewrite (read_app 4 bs tl Hn).
  now rewrite decide_True.
Qed.

(** A read never makes the stream longer, and never clears [eofbit]. *)
Lemma read_shrinks (n : nat) (s : IStream.t) :
  (length (IStream.rest (IStream.read n s).2) <= length (IStream.rest s))%nat.
Proof.
  unfold IStream.read. destruct (IStream.eofbit s); simpl; [lia|].
  destruct (decide _); simpl; [rewrite length_drop|]; lia.
Qed.

Lemma read_keeps_eof (n : nat) (s : IStream.t) :
  IStream.eofbit s = true -> IStream.eofbit (IStream.read n s).2 = true.
Proof. intros H. unfold IStream.read. now rewrite H. Qed.

(** A read that leaves [eofbit] clear has delivered all [n] bytes. *)
Lemma read_full (n : nat) (s : IStream.t) :
  IStream.eofbit (IStream.read n s).2 = false ->
  length (IStream.read n s).1 = n
  /\ (length (IStream.rest (IStream.read n s).2) + n
      = length (IStream.rest s))%nat.
Proof.
  unfold IStream.read. destruct (IStream.eofbit s) eqn:He; simpl.
  - now rewrite He.
  - destruct (decide _) as [Hle|Hgt]; simpl; [|done].
    intros _. rewrite length_take, length_drop. lia.
Qed.

(** ** The loader *)

Section LoaderFacts.
Context `{FL : Floats} `{GL : !GgmlLoad}.

Lemma read_i32_app (old : Z) (bs tl : list byte) :
  length bs = 4%nat ->
  read_i32 old (IStream.mk (bs ++ tl) false)
  = (Machine.int32 (IStream.le_decode bs), IStream.mk tl false).
Proof. intros Hn. unfold read_i32. now rewrite read_obj_app. Qed.

Lemma read_f32_app (old : float) (bs tl : list byte) :
  length bs = 4%nat ->
  read_f32 old (IStream.mk (bs ++ tl) false)
  = (f32_of_bits (IStream.le_decode bs), IStream.mk tl false).
Proof. intros Hn. unfold read_f32. now rewrite read_obj_app. Qed.

Lemma load_hparams_fields (hp0 : mpt_hparams)
    (f1 f2 f3 f4 f5 f6 f7 f8 tl : list byte) :
  Forall (fun f => length f = 4%nat) [f1; f2; f3; f4; f5; f6; f7; f8] ->
  load_hparams hp0
    (IStream.mk (f1 ++ f2 ++ f3 ++ f4 ++ f5 ++ f6 ++ f7 ++ f8 ++ tl) false)
  = (hparams_of_fields f1 f2 f3 f4 f5 f6 f7 f8 (n_ctx hp0),
     IStream.mk tl false).
Proof.
  intros Hf.
  repeat match goal with
         | H : Forall _ (_ :: _) |- _ => apply Forall_cons in H as [? H]
         end.
  unfold load_hparams.
  rewrite !read_i32_app, !read_f32_app, !read_i32_app by assumption.
  reflexivity.
Qed.

(** C5 (as amended).  After the 4-byte magic the loader reads a block of
    exactly eight 4-byte fields, in the order d_model, max_seq_len, n_heads,
    n_layers, n_vocab, alibi_bias_max, clip_qkv, ftype; n_ctx is not read
    but set to the minimum of max_seq_len and the configured context; the
    vocabulary block is read from the byte that follows the eighth field. *)
Theorem hparams_block_eight_fields (model : mpt_model) (vocab : gpt_vocab)
    (magic f1 f2 f3 f4 f5 f6 f7 f8 tl : list byte) :
  Forall (fun f => length f = 4%nat)
         [magic; f1; f2; f3; f4; f5; f6; f7; f8] ->
  IStream.le_decode magic = GGML_FILE_MAGIC ->
  let hp := hparams_of_fields f1 f2 f3 f4 f5 f6 f7 f8 (n_ctx (hparams model)) in
  load_hparams (hparams model)
    (IStream.mk (f1 ++ f2 ++ f3 ++ f4 ++ f5 ++ f6 ++ f7 ++ f8 ++ tl) false)
  = (hp, IStream.mk tl false)
  /\ mpt_model_load
       (Some (magic ++ f1 ++ f2 ++ f3 ++ f4 ++ f5 ++ f6 ++ f7 ++ f8 ++ tl))
       model vocab
     = ('(vocab', fin) ← load_vocab hp vocab (IStream.mk tl false);
        load_after_vocab hp
          (mk_model hp (tensors model) (memory_k model) (memory_v model))
          vocab' fin).
Proof.
  intros Hf Hmagic hp.
  apply Forall_cons in Hf as [Hm Hf].
  pose proof (load_hparams_fields (hparams model) _ _ _ _ _ _ _ _ tl Hf) as Hl.
  split; [exact Hl|].
  unfold mpt_model_load, verify_magic, IStream.open.
  rewrite (read_uninit_app magic _ Hm). cbn [mbind outcome_bind].
  rewrite Hmagic, bool_decide_eq_true_2 by reflexivity. cbn [negb].
  rewrite Hl. reflexivity.
Qed.

Lemma read_uninit_snd (s : IStream.t) :
  (IStream.read_uninit s).2 = (IStream.read 4 s).2.
Proof. unfold IStream.read_uninit. now destruct (IStream.read 4 s). Qed.

Lemma read_over_snd (n : nat) (old : list byte) (s : IStream.t) :
  (IStream.read_over n old s).2 = (IStream.read n s).2.
Proof. unfold IStream.read_over. now destruct (IStream.read n s). Qed.

Lemma read_i32_shrinks (old : Z) (s : IStream.t) :
  (length (IStream.rest (read_i32 old s).2) <= length (IStream.rest s))%nat.
Proof.
  unfold read_i32, IStream.read_obj.
  pose proof (read_over_snd 4 (IStream.le_encode 4 old) s) as E.
  destruct (IStream.read_over _ _ s) as [bs s']. simpl in *. subst s'.
  apply read_shrinks.
Qed.

Lemma read_dims_shrinks (k : nat) (i : Z) (ne : Z * Z) (nelements : Z)
    (fin : IStream.t) ne' nelements' fin' :
  read_dims k i ne nelements fin = Ret (ne', nelements', fin') ->
  (length (IStream.rest fin') <= length (IStream.rest fin))%nat.
Proof.
  revert i ne nelements fin.
  induction k as [|k IH]; intros i ne nelements fin; simpl.
  - intros [= _ _ ->]. lia.
  - destruct (decide (i = 0)).
    + pose proof (read_i32_shrinks ne.1 fin) as Hs.
      destruct (read_i32 ne.1 fin) as [v fin1]. intros H%IH. simpl in Hs. lia.
    + destruct (decide (i = 1)); [|done].
      pose proof (read_i32_shrinks ne.2 fin) as Hs.
      destruct (read_i32 ne.2 fin) as [v fin1]. intros H%IH. simpl in Hs. lia.
Qed.

(** A record header that is read takes at least its three leading words
    from the stream. *)
Lemma read_record_header_shrinks (fin : IStream.t) h fin' :
  read_record_header fin = Ret (Some (h, fin')) ->
  (length (IStream.rest fin') < length (IStream.rest fin))%nat.
Proof.
  unfold read_record_header.
  pose proof (read_uninit_snd fin) as E1.
  destruct (IStream.read_uninit fin) as [n_dims fin1]. simpl in E1.
  pose proof (read_uninit_snd fin1) as E2.
  destruct (IStream.read_uninit fin1) as [len fin2]. simpl in E2.
  pose proof (read_uninit_snd fin2) as E3.
  destruct (IStream.read_uninit fin2) as [ttype fin3]. simpl in E3.
  unfold IStream.eof. destruct (IStream.eofbit fin3) eqn:He3; [done|].
  assert (IStream.eofbit fin2 = false) as He2.
  { destruct (IStream.eofbit fin2) eqn:He; [|done].
    rewrite E3, (read_keeps_eof 4 fin2 He) in He3. done. }
  assert (IStream.eofbit fin1 = false) as He1.
  { destruct (IStream.eofbit fin1) eqn:He; [|done].
    rewrite E2, (read_keeps_eof 4 fin1 He) in He2. done. }
  pose proof (read_full 4 fin) as [_ Hc]; [now rewrite <- E1|].
  rewrite <- E1 in Hc.
  pose proof (read_shrinks 4 fin1) as Hs2. rewrite <- E2 in Hs2.
  pose proof (read_shrinks 4 fin2) as Hs3. rewrite <- E3 in Hs3.
  destruct n_dims as [n_dims|]; [|done].
  destruct len as [len|]; [|done].
  destruct ttype as [ttype|]; [|done].
  destruct (read_dims _ 0 (1, 1) 1 fin3) as [[[ne nelements] fin4]| |] eqn:Hd;
    cbn [mbind outcome_bind]; [|done..].
  apply read_dims_shrinks in Hd.
  destruct (decide (Machine.int32 len < 0)); [done|].
  pose proof (read_over_snd (Z.to_nat (Machine.int32 len))
                (replicate (Z.to_nat (Machine.int32 len)) x00) fin4) as E5.
  destruct (IStream.read_over _ _ fin4) as [name fin5]. simpl in E5.
  intros [= _ <-]. subst fin5.
  pose proof (read_shrinks (Z.to_nat (Machine.int32 len)) fin4). lia.
Qed.

Lemma check_and_copy_shrinks (reg : gmap string ggml_tensor)
    (h : record_header) (fin : IStream.t) reg' nbytes fin' :
  check_and_copy reg h fin = Ret (RecNext reg' nbytes fin') ->
  (length (IStream.rest fin') <= length (IStream.rest fin))%nat.
Proof.
  unfold check_and_copy.
  destruct (reg !! h_name h) as [tensor|]; [|done].
  repeat (destruct (decide _); [done|]).
  pose proof (read_over_snd (Z.to_nat (ggml_nbytes tensor))
                (t_data tensor) fin) as E.
  destruct (IStream.read_over _ _ fin) as [data fin1]. simpl in E.
  intros [= _ _ <-]. subst fin1. apply read_shrinks.
Qed.

(** The weight loop ends within the fuel [load_after_vocab] gives it. *)
Lemma load_weights_fuel (fuel : nat) (reg : gmap string ggml_tensor)
    (n_tensors total_size : Z) (fin : IStream.t) :
  (length (IStream.rest fin) < fuel)%nat ->
  is_Some (load_weights fuel reg n_tensors total_size fin).
Proof.
  revert reg n_tensors total_size fin.
  induction fuel as [|fuel IH]; intros reg n_tensors total_size fin Hlt;
    [lia|].
  simpl. unfold load_tensor_record.
  destruct (read_record_header fin) as [[[h fin1]|]| |] eqn:Hh;
    cbn [mbind outcome_bind]; try (by eexists).
  apply read_record_header_shrinks in Hh.
  destruct (check_and_copy reg h fin1) as [[|e|reg' nbytes fin']| |] eqn:Hc;
    try (by eexists).
  apply check_and_copy_shrinks in Hc. apply IH. lia.
Qed.

(** A round that fails ends the loop with that failure. *)
Lemma load_weights_fail (fuel : nat) (reg : gmap string ggml_tensor)
    (n_tensors total_size : Z) (fin : IStream.t) (e : load_error) :
  load_tensor_record reg fin = Ret (RecFail e) ->
  load_weights (S fuel) reg n_tensors total_size fin
  = Some (Ret (Some e, reg, n_tensors, total_size)).
Proof. intros H. simpl. now rewrite H. Qed.

(** Where the block size divides the byte count, rounding the quotient up
    or down is the same. *)
Lemma spec_record_bytes_exact (h : record_header) (tensor : ggml_tensor) :
  Machine.size_t (ggml_blck_size (t_type tensor)) <> 0 ->
  (Machine.size_t (ggml_blck_size (t_type tensor))
   | Machine.size_t (Machine.size_t (h_nelements h)
                     * ggml_type_size (h_ttype h))) ->
  spec_record_bytes h tensor = record_bytes h tensor.
Proof.
  intros Hb [q Hq]. unfold spec_record_bytes, record_bytes. rewrite Hq.
  pose proof (size_t_range (ggml_blck_size (t_type tensor))) as Hr.
  set (b := Machine.size_t (ggml_blck_size (t_type tensor))) in *.
  rewrite Z.div_mul by exact Hb.
  replace (q * b + b - 1) with (q * b + (b - 1)) by lia.
  rewrite Z.div_add_l by exact Hb.
  rewrite (Z.div_small (b - 1) b) by lia. lia.
Qed.

(** C2 (as amended).  For a tensor record whose name is registered and whose
    element count and dimensions match the registered tensor, the loader
    compares the truncated (rounded down, not up) quotient of
    element_count * element_size by the block size with the tensor's byte
    size; the load fails with the encoding-inconsistency error exactly when
    the two differ, and otherwise the payload bytes are read into the
    tensor's storage. *)
Theorem size_check_truncates (reg : gmap string ggml_tensor)
    (fin0 fin : IStream.t) (h : record_header) (tensor : ggml_tensor) :
  read_record_header fin0 = Ret (Some (h, fin)) ->
  reg !! h_name h = Some tensor ->
  ggml_nelements tensor = h_nelements h ->
  (t_ne0 tensor, t_ne1 tensor) = h_ne h ->
  Machine.size_t (ggml_blck_size (t_type tensor)) <> 0 ->
  ggml_nbytes tensor <= Z.of_nat (length (t_data tensor)) ->
  (record_bytes h tensor <> ggml_nbytes tensor ->
   load_tensor_record reg fin0 = Ret (RecFail (WrongSizeBytes (h_name h)))
   /\ forall fuel n_tensors total_size,
       load_weights (S fuel) reg n_tensors total_size fin0
       = Some (Ret (Some (WrongSizeBytes (h_name h)), reg, n_tensors,
                    total_size)))
  /\ (record_bytes h tensor = ggml_nbytes tensor ->
      let nbytes := Z.to_nat (ggml_nbytes tensor) in
      let copied := IStream.read_over nbytes (t_data tensor) fin in
      load_tensor_record reg fin0
      = Ret (RecNext (<[h_name h := mk_tensor (t_type tensor) (t_ne0 tensor)
                                              (t_ne1 tensor) copied.1]> reg)
                     (ggml_nbytes tensor) copied.2)
      /\ (IStream.eofbit fin = false ->
          (nbytes <= length (IStream.rest fin))%nat ->
          copied.1 = take nbytes (IStream.rest fin)
                     ++ drop nbytes (t_data tensor))).
Proof.
  intros Hh Hreg Hn Hne Hb Hdata.
  assert (forall r, check_and_copy reg h fin = r ->
                    load_tensor_record reg fin0 = r) as Hstep.
  { intros r <-. unfold load_tensor_record. now rewrite Hh. }
  assert (t_ne0 tensor = (h_ne h).1 /\ t_ne1 tensor = (h_ne h).2) as [H0 H1].
  { rewrite <- Hne. done. }
  split.
  - intros Hneq.
    assert (load_tensor_record reg fin0
            = Ret (RecFail (WrongSizeBytes (h_name h)))) as Hfail.
    { apply Hstep. unfold check_and_copy. rewrite Hreg.
      rewrite decide_False by (intros Hx; now apply Hx).
      rewrite decide_False by (intros [Hx|Hx]; now apply Hx).
      rewrite decide_False by exact Hb.
      now rewrite decide_True by exact Hneq. }
    split; [exact Hfail|].
    intros fuel n_tensors total_size. now apply load_weights_fail.
  - intros Heq nbytes copied. split.
    + apply Hstep. unfold check_and_copy. rewrite Hreg.
      rewrite decide_False by (intros Hx; now apply Hx).
      rewrite decide_False by (intros [Hx|Hx]; now apply Hx).
      rewrite decide_False by exact Hb.
      rewrite decide_False by (intros Hx; now apply Hx).
      rewrite decide_False by lia.
      subst copied nbytes.
      now destruct (IStream.read_over _ _ fin).
    + intros He Hlen. subst copied. unfold IStream.read_over, IStream.read.
      rewrite He, decide_True by exact Hlen. simpl.
      rewrite length_take. f_equal. f_equal. lia.
Qed.

End LoaderFacts.

(** ** Buffer sizing *)

Lemma round53_bounds (a : Z) :
  0 <= a -> 0 <= Double.round53 a <= a + a / 2 ^ 52.
Proof.
  intros Ha. unfold Double.round53.
  assert (0 <= a / 2 ^ 52) by (apply Z.div_pos; lia).
  destruct (Z.log2 a <? 53) eqn:He; [lia|].
  apply Z.ltb_ge in He.
  assert (0 < a) as Hpos.
  { destruct (decide (a = 0)) as [->|]; [|lia]. simpl in He. lia. }
  pose proof (Z.log2_spec a Hpos) as [Hlo _].
  set (k := Z.log2 a - 52) in *.
  assert (0 < 2 ^ k) as Hk by (apply Z.pow_pos_nonneg; lia).
  assert (2 ^ k <= a / 2 ^ 52) as Hulp.
  { apply Z.div_le_lower_bound; [lia|].
    rewrite <- Z.pow_add_r by lia.
    now replace (52 + k) with (Z.log2 a) by lia. }
  pose proof (Z.mul_div_le a (2 ^ k) Hk) as Hq.
  assert (0 <= a / 2 ^ k) as Hq0 by (apply Z.div_pos; lia).
  set (q := a / 2 ^ k) in *.
  destruct (a mod 2 ^ k <? 2 ^ (k - 1)); [nia|].
  destruct (2 ^ (k - 1) <? a mod 2 ^ k); [nia|].
  destruct (Z.even q); nia.
Qed.

(** For every size below 2^63 the product with 1.1 is a [size_t]. *)
Lemma mul_1_1_defined (x : Z) :
  0 <= x < 2 ^ 63 ->
  exists sz, Double.mul_1_1 x = Ret sz /\ 0 <= sz < 2 ^ 64.
Proof.
  intros Hx. unfold Double.mul_1_1, Double.mul_1_1_scaled.
  pose proof (round53_bounds x ltac:(lia)) as [Hy0 Hy].
  assert (x / 2 ^ 52 <= 2 ^ 11) as Hx52.
  { apply Z.lt_succ_r, Z.div_lt_upper_bound; lia. }
  set (y := Double.round53 x) in *.
  pose proof (round53_bounds (Double.mant_1_1 * y)
                ltac:(unfold Double.mant_1_1; lia)) as [Ha0 Ha].
  set (B := Double.mant_1_1 * (2 ^ 63 + 2 ^ 11)).
  assert (Double.mant_1_1 * y <= B) as HaB
    by (unfold B, Double.mant_1_1; lia).
  pose proof (Z.div_le_mono _ _ (2 ^ 52) ltac:(lia) HaB) as HdB.
  set (ra := Double.round53 (Double.mant_1_1 * y)) in *.
  assert (ra <= B + B / 2 ^ 52) as Hra by lia.
  assert (ra / 2 ^ 52 < 2 ^ 64) as Hlt.
  { apply Z.div_lt_upper_bound; [lia|].
    eapply Z.le_lt_trans; [exact Hra|]. now vm_compute. }
  exists (ra / 2 ^ 52). rewrite decide_True by exact Hlt.
  split; [done|]. split; [apply Z.div_pos; lia | exact Hlt].
Qed.

(** Rounding moves a value by at most half a unit in the last place. *)
Lemma round53_half_ulp (a : Z) :
  0 <= a ->
  (2 ^ 53 - 1) * a <= 2 ^ 53 * Double.round53 a <= (2 ^ 53 + 1) * a.
Proof.
  intros Ha. unfold Double.round53.
  destruct (Z.log2 a <? 53) eqn:He; [lia|].
  apply Z.ltb_ge in He.
  assert (0 < a) as Hpos.
  { destruct (decide (a = 0)) as [->|]; [|lia]. simpl in He. lia. }
  pose proof (Z.log2_spec a Hpos) as [Hlo _].
  set (k := Z.log2 a - 52) in *.
  assert (0 < 2 ^ (k - 1)) as Hh by (apply Z.pow_pos_nonneg; lia).
  assert (2 ^ k = 2 * 2 ^ (k - 1)) as Hk.
  { rewrite <- Z.pow_succ_r by lia. f_equal. lia. }
  assert (2 ^ 53 * 2 ^ (k - 1) <= a) as Hulp.
  { rewrite <- Z.pow_add_r by lia.
    now replace (53 + (k - 1)) with (Z.log2 a) by lia. }
  pose proof (Z.div_mod a (2 ^ k) ltac:(lia)) as Hdm.
  pose proof (Z.mod_pos_bound a (2 ^ k) ltac:(lia)) as Hr.
  set (q := a / 2 ^ k) in *. set (r := a mod 2 ^ k) in *.
  set (h := 2 ^ (k - 1)) in *.
  destruct (r <? h) eqn:E1.
  { apply Z.ltb_lt in E1. nia. }
  apply Z.ltb_ge in E1.
  destruct (h <? r) eqn:E2.
  { apply Z.ltb_lt in E2. nia. }
  apply Z.ltb_ge in E2.
  destruct (Z.even q); nia.
Qed.

(** The new size covers the bytes that made the buffer grow. *)
Lemma mul_1_1_covers (x sz : Z) :
  0 <= x -> Double.mul_1_1 x = Ret sz -> x <= sz.
Proof.
  intros Hx. unfold Double.mul_1_1, Double.mul_1_1_scaled.
  destruct (decide _); [|done]. intros [= <-].
  pose proof (round53_half_ulp x Hx) as [Hy _].
  pose proof (round53_bounds x Hx) as [Hy0 _].
  set (y := Double.round53 x) in *.
  pose proof (round53_half_ulp (Double.mant_1_1 * y)
                ltac:(unfold Double.mant_1_1; lia)) as [Hr _].
  set (r := Double.round53 (Double.mant_1_1 * y)) in *.
  apply Z.div_le_lower_bound; [lia|].
  unfold Double.mant_1_1 in Hr. nia.
Qed.

(** Integers below 2^53 are doubles. *)
Lemma round53_small (x : Z) : 0 <= x < 2 ^ 53 -> Double.round53 x = x.
Proof.
  intros Hx. unfold Double.round53.
  destruct (decide (x = 0)) as [->|]; [reflexivity|].
  assert (Z.log2 x < 53) as Hl by (apply Z.log2_lt_pow2; lia).
  apply Z.ltb_lt in Hl. now rewrite Hl.
Qed.

(** Up to the rounding of the product and of the literal, the new size is
    eleven tenths of the bytes needed. *)
Lemma mul_1_1_close (x sz : Z) :
  0 <= x < 2 ^ 49 -> Double.mul_1_1 x = Ret sz ->
  11 * x / 10 - 1 <= sz <= 11 * x / 10 + 1.
Proof.
  intros Hx. unfold Double.mul_1_1, Double.mul_1_1_scaled.
  destruct (decide _); [|done]. intros [= <-].
  rewrite (round53_small x) by lia.
  pose proof (round53_half_ulp (Double.mant_1_1 * x)
                ltac:(unfold Double.mant_1_1; lia)) as [Hlo Hhi].
  set (r := Double.round53 (Double.mant_1_1 * x)) in *.
  unfold Double.mant_1_1 in *. clearbody r.
  pose proof (Z.mul_div_le (11 * x) 10 ltac:(lia)) as Hq1.
  pose proof (Z.mul_succ_div_gt (11 * x) 10 ltac:(lia)) as Hq2.
  set (q := 11 * x / 10) in *. clearbody q.
  split.
  - apply Z.div_le_lower_bound; [lia|]. lia.
  - apply Z.lt_succ_r, Z.div_lt_upper_bound; [lia|]. lia.
Qed.

(** ** The forward pass *)

Section EvalFacts.
Context `{FL : Floats} `{GC : !GgmlCompute} `{HO : Host}.





(** The view the keys and values are stored through: [N * n_embd] elements
    from byte [kv_element_size * spec_offset hp il n_past] on. *)
Lemma kv_store_view_eq (model : mpt_model) (il n_past N : Z) :
  kv_cache_ok model ->
  0 <= il < n_layers (hparams model) -> 0 <= n_past -> 0 < N ->
  n_past + N <= n_ctx (hparams model) ->
  kv_store_view (hparams model) il n_past N
  = mk_view (N * d_model (hparams model))
            (kv_element_size * spec_offset (hparams model) il n_past).
Proof.
  intros (Hes & Hd & Hl & _ & _ & H64 & H31 & H31') Hil Hp HN Hctx.
  unfold kv_store_view, spec_offset.
  set (hp := hparams model) in *.
  set (d := d_model hp) in *. set (L := n_layers hp) in *.
  set (C := n_ctx hp) in *. set (e := kv_element_size) in *.
  assert (1 <= C) by lia.
  assert (0 <= il * C + n_past <= L * C) by nia.
  assert (0 <= N * d <= C * d) by nia.
  assert (C <= L * C) by nia.
  assert (1 <= L * C) by lia.
  assert (d <= C * d) by nia.
  assert (d <= d * (L * C)) by nia.
  assert (e * d <= e * (d * (L * C))) by nia.
  assert (e * d * (il * C + n_past) <= e * (d * (L * C))) by nia.
  rewrite (int32_small (N * d)) by lia.
  rewrite (int32_small (il * C + n_past)) by lia.
  rewrite (size_t_small d) by lia.
  rewrite (size_t_small (il * C + n_past)) by lia.
  rewrite (size_t_small (e * d)) by nia.
  rewrite size_t_small by nia.
  f_equal. lia.
Qed.


Lemma cpy_to_view_length (src : list (list float)) (mem mem' : list half)
    (v : view_1d) :
  cpy_to_view src mem v = Ret mem' -> length mem' = length mem.
Proof.
  unfold cpy_to_view. destruct (decide _) as [(Hn & H0 & H1)|]; [|done].
  intros [= <-]. rewrite !length_app, length_take, length_drop. lia.
Qed.

(** A round of the layer loop leaves the hyperparameters, the registry and
    the sizes of the caches as they are, so that what [kv_cache_ok] says
    holds for the next round too. *)
Lemma eval_layer_keeps_ok (n_past N il : Z) (model model' : mpt_model)
    (inpL inpL' : list float) :
  eval_layer n_past N (model, inpL) il = Ret (model', inpL') ->
  hparams model' = hparams model /\ tensors model' = tensors model
  /\ (kv_cache_ok model -> kv_cache_ok model').
Proof.
  unfold eval_layer. cbv zeta.
  destruct (head_dim _) as [n_embd_head| |]; cbn [mbind outcome_bind];
    [|done..].
  destruct (cpy_to_view _ (memory_k model) _) as [mem_k| |] eqn:Hk;
    cbn [mbind outcome_bind]; [|done..].
  destruct (cpy_to_view _ (memory_v model) _) as [mem_v| |] eqn:Hv;
    cbn [mbind outcome_bind]; [|done..].
  apply cpy_to_view_length in Hk, Hv.
  intros [= <- _]. split; [done|]. split; [done|].
  unfold kv_cache_ok. cbn [hparams memory_k memory_v]. rewrite Hk, Hv. done.
Qed.




Lemma length_resize_floats (n : Z) (v v' : list float) :
  resize_floats n v = Ret v' -> Z.of_nat (length v') = n /\ 0 <= n.
Proof.
  unfold resize_floats. destruct (decide (n < 0)); [done|].
  intros [= <-]. rewrite length_app, length_take, length_replicate. lia.
Qed.

(** The logits that a call hands back: all of the final projection, or its
    last row. *)
Lemma copy_logits_ok (n_vocab N : Z) (logits_all : bool)
    (data embd_w out : list float) :
  0 <= n_vocab -> 0 < N < 2 ^ 31 -> n_vocab * N < 2 ^ 31 ->
  copy_logits n_vocab N logits_all data embd_w = Ret out ->
  out = (if logits_all then take (Z.to_nat (n_vocab * N)) data
         else take (Z.to_nat n_vocab) (drop (Z.to_nat (n_vocab * (N - 1))) data))
  /\ Z.of_nat (length out) = (if logits_all then n_vocab * N else n_vocab).
Proof.
  intros Hv HN Hlt. unfold copy_logits, sizeof_float.
  assert (0 <= n_vocab * (N - 1) <= n_vocab * N) by nia.
  assert (n_vocab <= n_vocab * N) by nia.
  rewrite (size_t_small n_vocab) by lia.
  rewrite (size_t_small (4 * n_vocab)) by lia.
  destruct logits_all.
  - rewrite (int32_small (n_vocab * N)) by lia.
    rewrite (size_t_small N) by lia.
    rewrite (size_t_small (4 * n_vocab * N)) by nia.
    destruct (resize_floats _ embd_w) as [v| |] eqn:Hr;
      cbn [mbind outcome_bind]; [|done..].
    apply length_resize_floats in Hr as [Hr _].
    unfold memcpy_floats, sizeof_float.
    replace (4 * n_vocab * N) with (n_vocab * N * 4) by lia.
    rewrite Z.div_mul by lia.
    destruct (decide _) as [(_ & Hsrc & _)|]; [|done].
    intros [= <-]. rewrite drop_0, drop_ge, app_nil_r by lia.
    split; [done|]. rewrite length_take. lia.
  - rewrite (int32_small (n_vocab * (N - 1))) by lia.
    destruct (resize_floats _ embd_w) as [v| |] eqn:Hr;
      cbn [mbind outcome_bind]; [|done..].
    apply length_resize_floats in Hr as [Hr _].
    unfold memcpy_floats, sizeof_float.
    replace (4 * n_vocab) with (n_vocab * 4) by lia.
    rewrite Z.div_mul by lia.
    destruct (decide _) as [(_ & Hsrc & _)|]; [|done].
    intros [= <-]. rewrite (drop_ge v), app_nil_r by lia.
    split; [done|]. rewrite length_take, length_drop. lia.
Qed.

(** C10.  A successful call of the forward pass over a non-empty batch of N
    tokens leaves in the output vector exactly n_vocab entries, the final
    projection's row for the last position N-1, when the all-logits flag is
    false, and exactly n_vocab * N entries, the rows of all N positions in
    order, when it is true. *)
Theorem logits_output (S : eval_statics) (model : mpt_model)
    (n_threads n_past : Z) (embd_inp : list Z) (embd_w : list float)
    (logits_all : bool) (mem_per_token : Z) (r : eval_result) :
  let N := Z.of_nat (length embd_inp) in
  let n_vocab := n_vocab (hparams model) in
  mpt_eval S model n_threads n_past embd_inp embd_w logits_all mem_per_token
  = Ret r ->
  r_ok r = true ->
  0 < N -> 0 <= n_vocab -> n_vocab * N < 2 ^ 31 -> N < 2 ^ 31 ->
  exists model' data,
    forward model n_past embd_inp = Ret (model', data)
    /\ r_model r = model'
    /\ r_embd_w r
       = (if logits_all then take (Z.to_nat (n_vocab * N)) data
          else take (Z.to_nat n_vocab)
                    (drop (Z.to_nat (n_vocab * (N - 1))) data))
    /\ Z.of_nat (length (r_embd_w r))
       = (if logits_all then n_vocab * N else n_vocab).
Proof.
  intros N n_vocab Heval Hok HN Hv Hlt HN31.
  unfold mpt_eval in Heval. cbv zeta in Heval. fold N in Heval.
  rewrite (int32_small N) in Heval by lia.
  destruct (grow_buffer S mem_per_token N) as [[S' ok]| |];
    cbn [mbind outcome_bind] in Heval; [|done..].
  destruct ok; cbn [negb] in Heval.
  2:{ injection Heval as <-. done. }
  destruct (forward model n_past embd_inp) as [[model' data]| |];
    cbn [mbind outcome_bind] in Heval; [|done..].
  destruct (copy_logits _ N logits_all data embd_w) as [out| |] eqn:Hc;
    cbn [mbind outcome_bind] in Heval; [|done..].
  apply copy_logits_ok in Hc as [Hout Hlen]; [|lia..].
  exists model', data. split; [done|].
  destruct (decide (mem_per_token = 0)).
  - destruct (decide (Machine.size_t N = 0)); [done|].
    injection Heval as <-. done.
  - injection Heval as <-. done.
Qed.

Lemma grow_buffer_grows (S : eval_statics) (mem_per_token N : Z) :
  0 < mem_per_token -> 0 < N < 2 ^ 31 -> mem_per_token * N < 2 ^ 63 ->
  buf_size S < mem_per_token * N ->
  exists sz,
    Double.mul_1_1 (mem_per_token * N) = Ret sz
    /\ grow_buffer S mem_per_token N
       = Ret (mk_statics sz (negb (realloc_ok sz)), realloc_ok sz).
Proof.
  intros Hm HN Hlt Hbuf.
  destruct (mul_1_1_defined (mem_per_token * N) ltac:(nia)) as (sz & Hsz & _).
  exists sz. split; [exact Hsz|].
  unfold grow_buffer.
  rewrite (size_t_small N), (size_t_small (mem_per_token * N)) by nia.
  rewrite decide_True by lia. now rewrite Hsz.
Qed.

Lemma grow_buffer_keeps (S : eval_statics) (mem_per_token N : Z) :
  0 <= mem_per_token -> 0 < N < 2 ^ 31 -> mem_per_token * N < 2 ^ 63 ->
  mem_per_token = 0 \/ mem_per_token * N <= buf_size S ->
  grow_buffer S mem_per_token N = Ret (S, true).
Proof.
  intros Hm HN Hlt Hcase. unfold grow_buffer.
  rewrite (size_t_small N), (size_t_small (mem_per_token * N)) by nia.
  now rewrite decide_False by lia.
Qed.

(** A call in which [realloc] gives no block returns [false] at once: the
    model with its caches, the output vector and the estimate are the
    caller's, [ctx0] was never created; of the statics, [buf_size] holds the
    size asked for and [buf] is null. *)
Lemma mpt_eval_realloc_fails (S : eval_statics) (model : mpt_model)
    (n_threads n_past : Z) (embd_inp : list Z) (embd_w : list float)
    (logits_all : bool) (mem_per_token sz : Z) :
  let N := Z.of_nat (length embd_inp) in
  0 < mem_per_token -> 0 < N < 2 ^ 31 -> mem_per_token * N < 2 ^ 63 ->
  buf_size S < mem_per_token * N ->
  Double.mul_1_1 (mem_per_token * N) = Ret sz ->
  realloc_ok sz = false ->
  mpt_eval S model n_threads n_past embd_inp embd_w logits_all mem_per_token
  = Ret (mk_eval_result false (mk_statics sz true) model embd_w
                        mem_per_token None).
Proof.
  intros N Hm HN Hlt Hbuf Hsz Hfail.
  destruct (grow_buffer_grows S mem_per_token N Hm HN Hlt Hbuf)
    as (sz' & Hsz' & Hg).
  rewrite Hsz in Hsz'. injection Hsz' as <-.
  unfold mpt_eval. cbv zeta. fold N. rewrite (int32_small N) by lia.
  rewrite Hg, Hfail. reflexivity.
Qed.

(** C7.  For a call of the forward pass with a batch of N tokens: if the
    bytes-per-token estimate on entry is positive and estimate * N exceeds
    the size of the main buffer, the buffer is reallocated to
    (size_t)(1.1 * (estimate * N)) bytes (at least estimate * N, and
    within one byte of eleven tenths of it) before the evaluation, which
    then runs in a context of that size; if the estimate on entry is zero, the
    call evaluates in the buffer as it is and sets the estimate to
    used_bytes / N afterwards; in every other case the estimate, and when no
    growth was needed the buffer, stay as they were. *)
Theorem buffer_sizing (S : eval_statics) (model : mpt_model)
    (n_threads n_past : Z) (embd_inp : list Z) (embd_w : list float)
    (logits_all : bool) (mem_per_token : Z) :
  let N := Z.of_nat (length embd_inp) in
  let call := mpt_eval S model n_threads n_past embd_inp embd_w logits_all
                       mem_per_token in
  0 < N < 2 ^ 31 -> 0 <= mem_per_token -> mem_per_token * N < 2 ^ 63 ->
  (0 < mem_per_token -> buf_size S < mem_per_token * N ->
   exists sz,
     Double.mul_1_1 (mem_per_token * N) = Ret sz
     /\ mem_per_token * N <= sz
     /\ (mem_per_token * N < 2 ^ 49 ->
         11 * (mem_per_token * N) / 10 - 1 <= sz
         <= 11 * (mem_per_token * N) / 10 + 1)
     /\ grow_buffer S mem_per_token N
        = Ret (mk_statics sz (negb (realloc_ok sz)), realloc_ok sz)
     /\ forall r, call = Ret r ->
          buf_size (r_statics r) = sz
          /\ r_ok r = realloc_ok sz
          /\ r_ctx0 r = (if r_ok r then Some sz else None))
  /\ (mem_per_token = 0 ->
      forall r, call = Ret r ->
        r_ok r = true /\ r_statics r = S /\ r_ctx0 r = Some (buf_size S)
        /\ r_mem_per_token r
           = ggml_used_mem (hparams model) (buf_size S) n_past N / N)
  /\ (0 < mem_per_token ->
      forall r, call = Ret r -> r_mem_per_token r = mem_per_token)
  /\ (0 < mem_per_token -> mem_per_token * N <= buf_size S ->
      forall r, call = Ret r ->
        r_ok r = true /\ r_statics r = S /\ r_ctx0 r = Some (buf_size S)).
Proof.
  intros N call HN Hm Hlt.
  assert (forall S' ok r,
            grow_buffer S mem_per_token N = Ret (S', ok) -> call = Ret r ->
            r_statics r = S' /\ r_ok r = ok
            /\ r_ctx0 r = (if ok then Some (buf_size S') else None)
            /\ r_mem_per_token r
               = (if ok && bool_decide (mem_per_token = 0)
                  then ggml_used_mem (hparams model) (buf_size S') n_past N / N
                  else mem_per_token)) as Hcall.
  { intros S' ok r Hg. subst call. unfold mpt_eval. cbv zeta. fold N.
    rewrite (int32_small N) by lia. rewrite Hg. cbn [mbind outcome_bind].
    destruct ok; cbn [negb andb].
    2:{ intros [= <-]. done. }
    destruct (forward model n_past embd_inp) as [[model' data]| |];
      cbn [mbind outcome_bind]; [|done..].
    destruct (copy_logits _ N logits_all data embd_w) as [out| |];
      cbn [mbind outcome_bind]; [|done..].
    destruct (decide (mem_per_token = 0)) as [E|E].
    - rewrite (size_t_small N) by lia.
      destruct (decide (N = 0)); [lia|].
      intros [= <-]. now rewrite bool_decide_eq_true_2.
    - intros [= <-]. now rewrite bool_decide_eq_false_2. }
  split; [|split; [|split]].
  - intros Hpos Hbuf.
    destruct (grow_buffer_grows S mem_per_token N Hpos HN Hlt Hbuf)
      as (sz & Hsz & Hg).
    exists sz. split; [exact Hsz|].
    split; [apply mul_1_1_covers; [nia | exact Hsz]|].
    split; [intros H49; apply mul_1_1_close; [nia | exact Hsz]|].
    split; [exact Hg|].
    intros r Hr. destruct (Hcall _ _ r Hg Hr) as (-> & -> & -> & _). done.
  - intros -> r Hr.
    pose proof (grow_buffer_keeps S 0 N ltac:(lia) HN ltac:(lia)
                  ltac:(now left)) as Hg.
    destruct (Hcall _ _ r Hg Hr) as (-> & -> & -> & ->). done.
  - intros Hpos r Hr.
    destruct (grow_buffer S mem_per_token N) as [[S' ok]| |] eqn:Hg.
    + destruct (Hcall _ _ r eq_refl Hr) as (_ & _ & _ & ->).
      rewrite bool_decide_eq_false_2 by lia. now rewrite andb_false_r.
    + subst call. unfold mpt_eval in Hr. cbv zeta in Hr. fold N in Hr.
      rewrite (int32_small N) in Hr by lia. now rewrite Hg in Hr.
    + subst call. unfold mpt_eval in Hr. cbv zeta in Hr. fold N in Hr.
      rewrite (int32_small N) in Hr by lia. now rewrite Hg in Hr.
  - intros Hpos Hbuf r Hr.
    pose proof (grow_buffer_keeps S mem_per_token N Hm HN Hlt
                  ltac:(now right)) as Hg.
    destruct (Hcall _ _ r Hg Hr) as (-> & -> & -> & _). done.
Qed.

End EvalFacts.

(** ** The constructor and the decode loop *)

Section DecodeFacts.
Context `{FL : Floats} `{GL : !GgmlLoad} `{GC : !GgmlCompute} `{HO : Host}
        `{SA : !Sampling} `{MH : !MptHeader}.

(** C1 (the code departs from it).  The generator is built from the seed
    of the default-initialised member [params], before the parameters the
    caller supplies are stored: whatever seed is passed to the constructor,
    the object's generator is [mt19937(params_default.seed)]. *)
Theorem ctor_rng_ignores_seed (_params : Params.t) (M : Mpt) :
  Mpt_ctor _params = Ret M ->
  rng M = mt19937_seed (Params.seed params_default).
Proof.
  unfold Mpt_ctor. cbv zeta.
  destruct (mpt_model_load _ _ _) as [[[err model] vocab]| |];
    cbn [mbind outcome_bind]; [|done..].
  destruct err; intros [= <-]; reflexivity.
Qed.

(** *** The rolling window *)

Lemma window_push_fifo (w : list Z) (id : Z) (w' : list Z) :
  window_push w id = Ret w' ->
  w' = drop 1 (w ++ [id]) /\ length w' = length w /\ w <> [].
Proof.
  destruct w as [|x w]; simpl; [done|]. intros [= <-].
  rewrite drop_0, length_app. simpl. split; [done|]. split; [lia|done].
Qed.

(** Pushing a batch of tokens one by one keeps the last [length w] of the
    window followed by the batch. *)
Lemma window_push_batch (w toks : list Z) (x : Z) :
  w <> [] ->
  drop (length toks) (drop 1 (w ++ [x]) ++ toks)
  = drop (length (x :: toks)) (w ++ x :: toks).
Proof.
  intros Hw. simpl.
  replace (w ++ x :: toks) with ((w ++ [x]) ++ toks)
    by now rewrite <- app_assoc.
  rewrite <- (drop_app_le (w ++ [x]) toks 1).
  - now rewrite drop_drop.
  - rewrite length_app. simpl. lia.
Qed.

Lemma consume_prompt_spec (k : nat) (n_batch : Z) (embd_inp : list Z)
    (st st' : decode_state) :
  0 <= n_consumed st ->
  consume_prompt k n_batch embd_inp st = Ret st' ->
  exists toks, consumed embd_inp toks st st'
    /\ (k <> 0%nat ->
        n_consumed st < Machine.int32 (Z.of_nat (length embd_inp)) ->
        toks <> []).
Proof.
  revert st. induction k as [|k IH]; intros st Hn0; simpl.
  - intros [= <-]. exists []. split; [|done].
    unfold consumed. rewrite !app_nil_r. simpl.
    repeat split; try done. lia.
  - destruct (decide (n_consumed st < _)) as [Hlt|Hge].
    2:{ intros [= <-]. exists []. split; [|done].
        unfold consumed. rewrite !app_nil_r. simpl.
        repeat split; try done. lia. }
    destruct (embd_inp !! Z.to_nat (n_consumed st)) as [tok|] eqn:Htok;
      [|done].
    destruct (decide (n_consumed st < 0)); [done|].
    destruct (window_push (last_n_tokens st) tok) as [w| |] eqn:Hw;
      cbn [mbind outcome_bind]; [|done..].
    apply window_push_fifo in Hw as (Hw & Hwl & Hne).
    assert (drop (Z.to_nat (n_consumed st)) embd_inp
            = tok :: drop (Z.to_nat (n_consumed st + 1)) embd_inp) as Hdrop.
    { rewrite (drop_S _ tok _ Htok). do 2 f_equal. lia. }
    match goal with
    | |- context [decide (n_batch <= ?x)] => destruct (decide (n_batch <= x))
    end.
    + intros [= <-]. exists [tok]. split; [|done].
      unfold consumed. cbn [embd last_n_tokens n_consumed n_sampled n_past
        logits mem_per_token result s_rng s_vocab s_model s_statics length].
      rewrite Hdrop. simpl. rewrite Hw.
      repeat split; try done.
      rewrite length_drop, length_app. simpl.
      destruct (last_n_tokens st); [done|]. simpl. lia.
    + intros Hrec. apply IH in Hrec as (toks & Hc & _); [|simpl; lia].
      destruct Hc as (He & Ht & Hl & Hll & Hc & Hrest).
      cbn [embd last_n_tokens n_consumed n_sampled n_past logits
           mem_per_token result s_rng s_vocab s_model s_statics] in *.
      exists (tok :: toks). split; [|done].
      unfold consumed. rewrite Hdrop.
      split; [rewrite He, <- app_assoc; done|].
      split; [simpl; f_equal; exact Ht|].
      split; [rewrite Hl, Hw; now apply window_push_batch|].
      split; [lia|].
      split; [rewrite Hc; simpl; lia|].
      exact Hrest.
Qed.

(** The bound [loop_body] gives the inner loop is enough: with it, or with
    more, the loop has run to its own end. *)
Lemma consume_prompt_fuel (k : nat) (n_batch : Z) (embd_inp : list Z)
    (st : decode_state) :
  0 <= n_consumed st ->
  (length embd_inp - Z.to_nat (n_consumed st) <= k)%nat ->
  consume_prompt (Datatypes.S k) n_batch embd_inp st
  = consume_prompt k n_batch embd_inp st.
Proof.
  revert st. induction k as [|k IH]; intros st Hn0 Hk.
  - simpl. pose proof (int32_le_nonneg (Z.of_nat (length embd_inp))
                         ltac:(lia)).
    rewrite decide_False by lia. reflexivity.
  - change (consume_prompt (Datatypes.S (Datatypes.S k)) n_batch embd_inp st)
      with (if decide (n_consumed st
                       < Machine.int32 (Z.of_nat (length embd_inp)))
            then
              match embd_inp !! Z.to_nat (n_consumed st) with
              | None => Undef
              | Some tok =>
                  if decide (n_consumed st < 0) then Undef
                  else
                    w ← window_push (last_n_tokens st) tok;
                    let st' :=
                      mk_decode w (embd st ++ [tok]) (logits st)
                                (mem_per_token st) (n_past st)
                                (n_consumed st + 1) (n_sampled st)
                                (result st) (s_rng st) (s_vocab st)
                                (s_model st) (s_statics st) in
                    if decide (n_batch
                               <= Machine.int32
                                    (Z.of_nat (length (embd st'))))
                    then Ret st'
                    else consume_prompt (Datatypes.S k) n_batch embd_inp st'
              end
            else Ret st).
    cbn [consume_prompt].
    destruct (decide _); [|reflexivity].
    destruct (embd_inp !! _); [|reflexivity].
    destruct (decide (n_consumed st < 0)); [reflexivity|].
    destruct (window_push _ _) as [w| |]; cbn [mbind outcome_bind];
      [|reflexivity..].
    cbv zeta. cbn [embd].
    destruct (decide _); [reflexivity|].
    apply IH; simpl; lia.
Qed.

Lemma predict_step_ok (P : Params.t) (st st' : decode_state) :
  predict_step P st = Ret (true, st') ->
  embd st' = [] /\ last_n_tokens st' = last_n_tokens st
  /\ n_consumed st' = n_consumed st /\ n_sampled st' = n_sampled st.
Proof.
  unfold predict_step. destruct (decide (embd st = [])) as [E|E].
  - intros [= <-]. done.
  - destruct (mpt_eval _ _ _ _ _ _ _ _) as [r| |];
      cbn [mbind outcome_bind]; [|done..].
    destruct (r_ok r); cbn [negb]; intros [= <-]; done.
Qed.

Lemma predict_step_fail (P : Params.t) (st st' : decode_state) :
  predict_step P st = Ret (false, st') -> eval_failed P st st'.
Proof.
  unfold predict_step, eval_failed. destruct (decide (embd st = [])) as [E|E];
    [done|].
  destruct (mpt_eval _ _ _ _ _ _ _ _) as [r| |] eqn:Hr;
    cbn [mbind outcome_bind]; [|done..].
  destruct (r_ok r) eqn:Hok; cbn [negb]; intros [= <-].
  split; [done|]. exists r. done.
Qed.

Lemma sample_step_spec (P : Params.t) (st st' : decode_state) :
  sample_step P st = Ret st' ->
  exists id,
    embd st' = embd st ++ [id]
    /\ last_n_tokens st' = drop 1 (last_n_tokens st ++ [id])
    /\ length (last_n_tokens st') = length (last_n_tokens st)
    /\ n_sampled st' = n_sampled st + 1
    /\ n_consumed st' = n_consumed st.
Proof.
  unfold sample_step. destruct (decide _); [|done].
  destruct (gpt_sample_top_k_top_p_repeat _ _ _ _ _ _ _ _ _) as [id rng'].
  destruct (window_push (last_n_tokens st) id) as [w| |] eqn:Hw;
    cbn [mbind outcome_bind]; [|done..].
  apply window_push_fifo in Hw as (Hw & Hwl & _).
  intros [= <-]. exists id. done.
Qed.

(** What a round of the outer loop does. *)
Lemma loop_body_round (P : Params.t) (embd_inp : list Z)
    (st : decode_state) (r : iter_result) :
  0 <= n_consumed st ->
  loop_body P embd_inp st = Ret r ->
  match r with
  | IterEvalError st' => eval_failed P st st'
  | IterNext st' =>
      round_batch embd_inp st st' /\ last (embd st') <> Some 0
  | IterBreak st' =>
      round_batch embd_inp st st' /\ last (embd st') = Some 0
  end.
Proof.
  intros Hn0. unfold loop_body.
  destruct (predict_step P st) as [[ok st1]| |] eqn:Hp;
    cbn [mbind outcome_bind]; [|done..].
  destruct ok; cbn [negb].
  2:{ intros [= <-]. now apply predict_step_fail. }
  apply predict_step_ok in Hp as (He1 & Hw1 & Hc1 & Hs1).
  assert (forall st2,
            (if decide (Machine.int32 (Z.of_nat (length embd_inp))
                        <= n_consumed st1)
             then sample_step P st1
             else consume_prompt
                    (length embd_inp - Z.to_nat (n_consumed st1))
                    (Params.n_batch P) embd_inp st1) = Ret st2 ->
            round_batch embd_inp st st2) as Hround.
  { intros st2. destruct (decide _) as [Hge|Hlt].
    - intros (id & He & Hw & Hwl & Hs & Hc)%sample_step_spec.
      rewrite He1 in He. simpl in He.
      unfold round_batch. rewrite Hwl, He, Hw, Hw1, Hs, Hc, Hs1, Hc1.
      split; [|done]. left. repeat split; try done; [lia | by exists id].
    - intros Hcp. apply consume_prompt_spec in Hcp as (toks & Hc & Hne);
        [|lia].
      destruct Hc as (He & Ht & Hw & Hwl & Hc & Hs & _).
      rewrite He1 in He. simpl in He.
      assert (toks <> []) as Htoks.
      { apply Hne; [|lia].
        pose proof (int32_le_nonneg (Z.of_nat (length embd_inp))
                      ltac:(lia)). lia. }
      unfold round_batch. rewrite Hwl, He, Hw, Hw1, Hs, Hc, Hs1, Hc1.
      split; [|done]. right. repeat split; try done; [lia | congruence]. }
  destruct (if decide _ then _ else _) as [st2| |];
    cbn [mbind outcome_bind]; [|done..].
  specialize (Hround st2 eq_refl).
  destruct (display_text (embd st2) (result st2, s_vocab st2))
    as [text vocab'].
  cbn [embd]. destruct (last (embd st2)) as [id|] eqn:Hlast; [|done].
  assert (forall st3,
            embd st3 = embd st2 -> last_n_tokens st3 = last_n_tokens st2 ->
            n_sampled st3 = n_sampled st2 -> n_consumed st3 = n_consumed st2 ->
            round_batch embd_inp st st3) as Hsame.
  { intros st3 E1 E2 E3 E4. unfold round_batch in *.
    rewrite E1, E2, E3, E4. exact Hround. }
  destruct (decide (id = 0)) as [->|Hid]; intros [= <-];
    (split; [now apply Hsame|]); cbn [embd]; rewrite Hlast; congruence.
Qed.

(** The outer loop ends within the fuel [ProcessTokenizedMessage] gives
    it: a round that goes on has sampled a token or consumed at least one
    token of the prompt. *)
Lemma decode_loop_total (fuel : nat) (P : Params.t) (embd_inp : list Z)
    (st : decode_state) :
  Z.of_nat (length embd_inp) < 2 ^ 31 ->
  0 <= n_consumed st ->
  (Z.to_nat (Params.n_predict P - n_sampled st)
   + (length embd_inp - Z.to_nat (n_consumed st)) < fuel)%nat ->
  is_Some (decode_loop fuel P embd_inp st).
Proof.
  intros Hlen. revert st.
  induction fuel as [|fuel IH]; intros st Hn0 Hfuel; [lia|].
  simpl. destruct (decide (n_sampled st < Params.n_predict P)) as [Hlt|];
    [|by eexists].
  destruct (loop_body P embd_inp st) as [[st'|st'|st']| |] eqn:Hb;
    try (by eexists).
  apply loop_body_round in Hb as [[Hbatch _] _]; [|exact Hn0].
  rewrite (int32_small (Z.of_nat (length embd_inp))) in Hbatch by lia.
  apply IH.
  - destruct Hbatch as [(_ & _ & _ & ->)|(_ & _ & _ & _ & ->)]; lia.
  - destruct Hbatch as [(_ & _ & -> & ->)|(Hc & Hne & _ & -> & ->)].
    + lia.
    + destruct (embd st'); [done|]. simpl length. lia.
Qed.

Lemma decode_init_spec (M : Mpt) (S : eval_statics) (st0 : decode_state) :
  decode_init M S = Ret st0 ->
  0 <= Params.n_ctx (params M)
  /\ last_n_tokens st0 = replicate (Z.to_nat (Params.n_ctx (params M))) 0
  /\ embd st0 = [] /\ n_past st0 = 0 /\ n_consumed st0 = 0
  /\ n_sampled st0 = 0.
Proof.
  unfold decode_init. destruct (decide _); [done|].
  destruct (mpt_eval _ _ _ _ _ _ _ _) as [r| |];
    cbn [mbind outcome_bind]; [|done..].
  intros [= <-]. repeat split; try done. lia.
Qed.

(** How the outer loop can be left, from any state it passes through. *)
Lemma decode_loop_leaves (fuel : nat) (P : Params.t) (embd_inp : list Z)
    (st : decode_state) (e : exit_result) :
  0 <= n_consumed st ->
  decode_loop fuel P embd_inp st = Some (Ret e) ->
  match e with
  | ExitLimit st' =>
      Params.n_predict P <= n_sampled st'
      /\ (n_sampled st <= Params.n_predict P ->
          n_sampled st' = Params.n_predict P)
      /\ (Params.n_predict P <= n_sampled st -> st' = st)
  | ExitEos st' =>
      exists st_prev,
        n_sampled st_prev < Params.n_predict P
        /\ round_batch embd_inp st_prev st' /\ last (embd st') = Some 0
  | ExitEvalError st' =>
      exists st_prev,
        n_sampled st_prev < Params.n_predict P /\ eval_failed P st_prev st'
  end.
Proof.
  revert st. induction fuel as [|fuel IH]; intros st Hn0; simpl; [done|].
  destruct (decide (n_sampled st < Params.n_predict P)) as [Hlt|Hge].
  2:{ intros [= <-]. split; [lia|]. split; [lia|done]. }
  destruct (loop_body P embd_inp st) as [[st'|st'|st']| |] eqn:Hb;
    try done.
  - apply loop_body_round in Hb as [Hbatch _]; [|exact Hn0].
    intros He. apply IH in He.
    + destruct e as [st2|st2|st2]; [|exact He..].
      destruct He as (H1 & H2 & _). split; [exact H1|].
      split; [|lia]. intros _. apply H2.
      destruct Hbatch as [[(_ & _ & -> & _)|(_ & _ & _ & -> & _)] _]; lia.
    + pose proof (int32_le_nonneg (Z.of_nat (length embd_inp))).
      destruct Hbatch as [[(_ & _ & _ & ->)|(_ & _ & _ & _ & ->)] _]; lia.
  - apply loop_body_round in Hb as [Hbatch Hlast]; [|exact Hn0].
    intros [= <-]. exists st. done.
  - apply loop_body_round in Hb; [|exact Hn0].
    intros [= <-]. exists st. done.
Qed.

(** C3 (as amended).  The decode loop is left when the count of sampled
    tokens has reached the prediction limit, or at the first round whose
    batch ends in the id 0 - whether that id was sampled or is the last
    prompt token the round moved into the batch - or when a forward pass
    reports failure; a round after which the loop goes on has formed a
    batch that does not end in 0.  Prompt consumption can so end generation
    before any token is sampled. *)
Theorem decode_loop_exit (M : Mpt) (S : eval_statics) (embd_inp : list Z)
    (st0 : decode_state) :
  Z.of_nat (length embd_inp) < 2 ^ 31 ->
  decode_init M S = Ret st0 ->
  let P := params M in
  (exists r,
     decode_loop (decode_fuel P embd_inp) P embd_inp st0 = Some r
     /\ forall e, r = Ret e ->
        match e with
        | ExitLimit st => n_sampled st = Z.max 0 (Params.n_predict P)
        | ExitEos st =>
            exists st_prev,
              n_sampled st_prev < Params.n_predict P
              /\ round_batch embd_inp st_prev st
              /\ last (embd st) = Some 0
        | ExitEvalError st =>
            exists st_prev,
              n_sampled st_prev < Params.n_predict P
              /\ eval_failed P st_prev st
        end)
  /\ (forall st st',
        0 <= n_consumed st ->
        loop_body P embd_inp st = Ret (IterNext st') ->
        round_batch embd_inp st st' /\ last (embd st') <> Some 0)
  /\ (forall st st',
        0 <= n_consumed st ->
        loop_body P embd_inp st = Ret (IterBreak st') ->
        round_batch embd_inp st st' /\ last (embd st') = Some 0).
Proof.
  intros Hlen Hinit P.
  apply decode_init_spec in Hinit as (_ & _ & _ & _ & Hc0 & Hs0).
  split; [|split].
  - destruct (decode_loop_total (decode_fuel P embd_inp) P embd_inp st0)
      as [r Hr]; [exact Hlen | lia | |].
    { unfold decode_fuel. rewrite Hc0, Hs0. lia. }
    exists r. split; [exact Hr|]. intros e ->.
    apply decode_loop_leaves in Hr; [|lia].
    destruct e as [st|st|st]; [|exact Hr..].
    destruct Hr as (H1 & H2 & H3). rewrite Hs0 in H2, H3.
    destruct (decide (0 <= Params.n_predict P)).
    + rewrite H2 by lia. lia.
    + rewrite H3 by lia. lia.
  - intros st st' Hn0 Hb. now apply loop_body_round in Hb.
  - intros st st' Hn0 Hb. now apply loop_body_round in Hb.
Qed.

(** The window keeps its length through a round, however the round ends. *)
Lemma loop_body_window (P : Params.t) (embd_inp : list Z)
    (st : decode_state) (r : iter_result) :
  0 <= n_consumed st ->
  loop_body P embd_inp st = Ret r ->
  length (last_n_tokens (iter_state r)) = length (last_n_tokens st)
  /\ 0 <= n_consumed (iter_state r).
Proof.
  intros Hn0 Hb. apply loop_body_round in Hb; [|exact Hn0].
  pose proof (int32_le_nonneg (Z.of_nat (length embd_inp))).
  destruct r as [st'|st'|st']; simpl.
  - destruct Hb as [[Hb [_ ->]] _]. split; [done|].
    destruct Hb as [(_ & _ & _ & ->)|(_ & _ & _ & _ & ->)]; lia.
  - destruct Hb as [[Hb [_ ->]] _]. split; [done|].
    destruct Hb as [(_ & _ & _ & ->)|(_ & _ & _ & _ & ->)]; lia.
  - destruct Hb as (_ & res & _ & _ & ->). done.
Qed.

Lemma decode_loop_window (fuel : nat) (P : Params.t) (embd_inp : list Z)
    (st : decode_state) (e : exit_result) :
  0 <= n_consumed st ->
  decode_loop fuel P embd_inp st = Some (Ret e) ->
  length (last_n_tokens (exit_state e)) = length (last_n_tokens st).
Proof.
  revert st. induction fuel as [|fuel IH]; intros st Hn0; simpl; [done|].
  destruct (decide _); [|by intros [= <-]].
  destruct (loop_body P embd_inp st) as [r| |] eqn:Hb; [|done..].
  apply loop_body_window in Hb as [Hlen Hn]; [|exact Hn0].
  destruct r as [st'|st'|st']; simpl in Hlen, Hn.
  - intros He. apply IH in He; [|exact Hn]. congruence.
  - by intros [= <-].
  - by intros [= <-].
Qed.

(** C4 (as amended).  The rolling window of recent tokens has the length of
    the configured context, n_ctx (not repeat_last_n, which is only handed
    to the sampler), is zero-filled when decoding starts, every push of a
    consumed or sampled id drops the oldest entry and appends the id, and
    the length is the same after every round and when the loop is left. *)
Theorem window_length_n_ctx (M : Mpt) (S : eval_statics) (embd_inp : list Z)
    (st0 : decode_state) :
  decode_init M S = Ret st0 ->
  let n_ctx := Params.n_ctx (params M) in
  last_n_tokens st0 = replicate (Z.to_nat n_ctx) 0
  /\ Z.of_nat (length (last_n_tokens st0)) = n_ctx
  /\ (forall w id w',
        window_push w id = Ret w' ->
        w' = drop 1 (w ++ [id]) /\ length w' = length w)
  /\ (forall st r,
        0 <= n_consumed st ->
        loop_body (params M) embd_inp st = Ret r ->
        length (last_n_tokens (iter_state r)) = length (last_n_tokens st))
  /\ (forall st st',
        0 <= n_consumed st ->
        loop_body (params M) embd_inp st = Ret (IterNext st') ->
        last_n_tokens st'
        = drop (length (embd st')) (last_n_tokens st ++ embd st'))
  /\ (forall fuel e,
        decode_loop fuel (params M) embd_inp st0 = Some (Ret e) ->
        Z.of_nat (length (last_n_tokens (exit_state e))) = n_ctx).
Proof.
  intros Hinit n_ctx.
  apply decode_init_spec in Hinit as (Hctx & Hw0 & _ & _ & Hc0 & _).
  assert (Z.of_nat (length (last_n_tokens st0)) = n_ctx) as Hlen0.
  { rewrite Hw0, length_replicate. subst n_ctx. lia. }
  split; [exact Hw0|]. split; [exact Hlen0|].
  split; [|split; [|split]].
  - intros w id w' Hp. apply window_push_fifo in Hp as (? & ? & _). done.
  - intros st r Hn0 Hb. now apply loop_body_window in Hb as [? _].
  - intros st st' Hn0 Hb. apply loop_body_round in Hb; [|exact Hn0].
    destruct Hb as [[_ [Hw _]] _]. exact Hw.
  - intros fuel e He. apply decode_loop_window in He; [|lia]. lia.
Qed.

(** C8.  When the reallocation of the scratch buffer fails inside a call of
    the forward pass, the call returns failure without creating the
    evaluation context; the model with its key/value caches, the output
    vector and the bytes-per-token estimate are as before the call, and in
    the decode loop the failure ends the request with the position and the
    counters as they were.  Of the function's statics, [buf_size] then
    holds the size asked for and [buf] is null, so that the same call made
    again does not reallocate and goes on to the evaluation. *)
Theorem realloc_failure_keeps_state (P : Params.t) (embd_inp : list Z)
    (st : decode_state) (sz : Z) :
  let N := Z.of_nat (length (embd st)) in
  let st' :=
    mk_decode (last_n_tokens st) (embd st) (logits st) (mem_per_token st)
              (n_past st) (n_consumed st) (n_sampled st) (result st)
              (s_rng st) (s_vocab st) (s_model st) (mk_statics sz true) in
  0 < mem_per_token st -> 0 < N < 2 ^ 31 ->
  mem_per_token st * N < 2 ^ 63 ->
  buf_size (s_statics st) < mem_per_token st * N ->
  Double.mul_1_1 (mem_per_token st * N) = Ret sz ->
  realloc_ok sz = false ->
  (forall n_threads logits_all,
     mpt_eval (s_statics st) (s_model st) n_threads (n_past st) (embd st)
              (logits st) logits_all (mem_per_token st)
     = Ret (mk_eval_result false (mk_statics sz true) (s_model st)
                           (logits st) (mem_per_token st) None))
  /\ loop_body P embd_inp st = Ret (IterEvalError st')
  /\ (n_sampled st < Params.n_predict P ->
      forall fuel,
        decode_loop (Datatypes.S fuel) P embd_inp st
        = Some (Ret (ExitEvalError st')))
  /\ grow_buffer (s_statics st') (mem_per_token st') N
     = Ret (s_statics st', true).
Proof.
  intros N st' Hm HN Hlt Hbuf Hsz Hfail.
  assert (forall n_threads logits_all,
     mpt_eval (s_statics st) (s_model st) n_threads (n_past st) (embd st)
              (logits st) logits_all (mem_per_token st)
     = Ret (mk_eval_result false (mk_statics sz true) (s_model st)
                           (logits st) (mem_per_token st) None)) as Hcall.
  { intros n_threads logits_all.
    now apply mpt_eval_realloc_fails. }
  assert (loop_body P embd_inp st = Ret (IterEvalError st')) as Hbody.
  { unfold loop_body, predict_step.
    destruct (decide (embd st = [])) as [E|_].
    - subst N. rewrite E in HN. simpl in HN. lia.
    - rewrite Hcall. reflexivity. }
  split; [exact Hcall|]. split; [exact Hbody|]. split.
  - intros Hs fuel. simpl. rewrite decide_True by exact Hs.
    now rewrite Hbody.
  - apply grow_buffer_keeps; [simpl; lia | exact HN | exact Hlt |].
    right. simpl. apply mul_1_1_covers; [nia | exact Hsz].
Qed.

End DecodeFacts.

(** ** The theorems on the concrete configuration *)

Section Examples.
Import Fixture.

(** C5 at the file of the fixture: the eight fields are decoded and the
    vocabulary block is what is left. *)
Lemma hparams_block_eight_fields_witness :
  load_hparams (hparams model0) (IStream.mk (drop 4 toy_file) false)
  = (mk_hparams 2 16 1 0 4 8 0 2 8,
     IStream.mk (file_vocab ++ file_record) false).
Proof.
  exact (proj1 (hparams_block_eight_fields model0 (mk_vocab ∅ ∅)
                  (le32 0x67676d6c) (le32 2) (le32 16) (le32 1) (le32 0)
                  (le32 4) (le32 8) (le32 0) (le32 2)
                  (file_vocab ++ file_record)
                  ltac:(repeat constructor) eq_refl)).
Defined.

(** C5, refuted as stated: on the file of the fixture the loader has read
    8 * 4 bytes after the magic when it turns to the vocabulary, not 9 * 4;
    the four words it then loads are those that start at byte 36. *)
Lemma nine_fields_counterexample :
  (load_hparams (hparams model0) (IStream.mk (drop 4 toy_file) false)).2
  = IStream.mk (drop (4 + 8 * 4) toy_file) false
  /\ (load_hparams (hparams model0) (IStream.mk (drop 4 toy_file) false)).2
     <> IStream.mk (drop (4 + 9 * 4) toy_file) false
  /\ match mpt_model_load (Some toy_file) model0 (mk_vocab ∅ ∅) with
     | Ret (None, _, vocab) =>
         map_to_list (id_to_token vocab)
         = [(3, "d"); (2, "c"); (1, "b"); (0, "a")]%string
     | _ => False
     end.
Proof.
  split; [now vm_compute|]. split; [now vm_compute|]. now vm_compute.
Qed.

(** C2 at the record of the fixture: the check passes and the four payload
    bytes are in the tensor. *)
Lemma size_check_truncates_witness :
  load_tensor_record registry (IStream.open file_record)
  = Ret (RecNext
           (<["transformer.wte.weight"%string :=
                mk_tensor 2 2 4 [xaa; xbb; xcc; xdd]]> registry)
           4 (IStream.mk [] false)).
Proof.
  exact (proj1 (proj2 (size_check_truncates registry
                         (IStream.open file_record)
                         (IStream.mk [xaa; xbb; xcc; xdd] false)
                         wte_header (new_tensor 2 2 4)
                         eq_refl eq_refl eq_refl eq_refl
                         ltac:(now vm_compute) ltac:(now vm_compute))
                      eq_refl)).
Defined.

(** C2, refuted as stated: for the record of the fixture, which passes the
    registry, element-count and shape checks, the quotient rounded up is 5
    and differs from the tensor's 4 bytes, and yet the loader does not
    fail: it copies the payload and the load returns true. *)
Lemma ceil_size_check_counterexample :
  read_record_header (IStream.open file_record)
  = Ret (Some (wte_header, IStream.mk [xaa; xbb; xcc; xdd] false))
  /\ prepare_weights (mk_hparams 2 16 1 0 4 8 0 2 8) 2 = Ret registry
  /\ registry !! h_name wte_header = Some (new_tensor 2 2 4)
  /\ ggml_nelements (new_tensor 2 2 4) = h_nelements wte_header
  /\ (t_ne0 (new_tensor 2 2 4), t_ne1 (new_tensor 2 2 4)) = h_ne wte_header
  /\ spec_record_bytes wte_header (new_tensor 2 2 4) = 5
  /\ ggml_nbytes (new_tensor 2 2 4) = 4
  /\ load_tensor_record registry (IStream.open file_record)
     = Ret (RecNext
              (<["transformer.wte.weight"%string :=
                   mk_tensor 2 2 4 [xaa; xbb; xcc; xdd]]> registry)
              4 (IStream.mk [] false))
  /\ match mpt_model_load (Some toy_file) model0 (mk_vocab ∅ ∅) with
     | Ret (None, model, _) =>
         tensors model !! "transformer.wte.weight"%string
         = Some (mk_tensor 2 2 4 [xaa; xbb; xcc; xdd])
     | _ => False
     end.
Proof. repeat split; now vm_compute. Qed.

(** C7 at three tokens and an estimate of 100 MB per token: the 256 MB
    buffer grows to 330 MB and the estimate stays. *)
Lemma buffer_sizing_witness :
  (exists sz,
     Double.mul_1_1 (100000000 * 3) = Ret sz
     /\ 100000000 * 3 <= sz
     /\ (100000000 * 3 < 2 ^ 49 ->
         11 * (100000000 * 3) / 10 - 1 <= sz <= 11 * (100000000 * 3) / 10 + 1)
     /\ grow_buffer eval_statics_init 100000000 3
        = Ret (mk_statics sz (negb (realloc_ok sz)), realloc_ok sz)
     /\ forall r,
          mpt_eval eval_statics_init toy_model 1 2 [5; 6; 7] [] true 100000000
          = Ret r ->
          buf_size (r_statics r) = sz /\ r_ok r = realloc_ok sz
          /\ r_ctx0 r = (if r_ok r then Some sz else None))
  /\ Double.mul_1_1 (100000000 * 3) = Ret 330000000.
Proof.
  pose proof (buffer_sizing eval_statics_init toy_model 1 2 [5; 6; 7] [] true
                100000000 ltac:(now vm_compute) ltac:(now vm_compute)
                ltac:(now vm_compute)) as (H1 & _).
  split; [|reflexivity].
  exact (H1 ltac:(now vm_compute) ltac:(now vm_compute)).
Defined.

(** C8 at three pending tokens and an estimate of 200 MB per token, with an
    allocator that has no 660 MB: the round ends the request and the state
    is the one before, but for the statics. *)
Lemma realloc_failure_keeps_state_witness :
  loop_body (toy_params 42 5 8 4 2) [] state_pending
  = Ret (IterEvalError
           (mk_decode [0; 0; 0; 0] [5; 6; 7] [] 200000000 0 0 0 EmptyString 0
                      (mk_vocab ∅ ∅) toy_model (mk_statics 660000000 true))).
Proof.
  exact (proj1 (proj2 (realloc_failure_keeps_state (toy_params 42 5 8 4 2) []
                         state_pending 660000000
                         ltac:(now vm_compute) ltac:(now vm_compute)
                         ltac:(now vm_compute) ltac:(now vm_compute)
                         eq_refl eq_refl))).
Defined.

(** C10 at the tokens 5, 6 with the flag off: the four logits of the
    second position. *)
Lemma logits_output_witness :
  mpt_eval eval_statics_init toy_model 1 0 [5; 6] [] false 0 = Ret eval_5_6
  /\ r_embd_w eval_5_6 = [96; 97; 1144; 1145]
  /\ exists model' data,
       forward toy_model 0 [5; 6] = Ret (model', data)
       /\ r_model eval_5_6 = model'
       /\ r_embd_w eval_5_6 = take 4 (drop 4 data)
       /\ Z.of_nat (length (r_embd_w eval_5_6)) = 4.
Proof.
  split; [reflexivity|]. split; [reflexivity|].
  exact (logits_output eval_statics_init toy_model 1 0 [5; 6] [] false 0
           eval_5_6 eq_refl eq_refl ltac:(now vm_compute)
           ltac:(now vm_compute) ltac:(now vm_compute)
           ltac:(now vm_compute)).
Defined.

(** C1 at the seed 42: with the header's default seed of -1 the generator
    is [mt19937(-1)], which the fixture represents by 4294967295, not
    [mt19937(42)]. *)
Lemma ctor_rng_ignores_seed_witness :
  Mpt_ctor (toy_params 42 5 8 4 2) = Ret mpt_seed_42
  /\ Params.seed (params mpt_seed_42) = 42
  /\ rng mpt_seed_42 = mt19937_seed (-1)
  /\ rng mpt_seed_42 <> mt19937_seed 42.
Proof.
  split; [reflexivity|]. split; [reflexivity|].
  split; [|now vm_compute].
  exact (ctor_rng_ignores_seed (toy_params 42 5 8 4 2) mpt_seed_42 eq_refl).
Defined.

(** C1 at two seeds: objects built from the seeds 42 and 43 hold the same
    generator. *)
Lemma ctor_same_rng_for_two_seeds :
  match Mpt_ctor (toy_params 42 5 8 4 2), Mpt_ctor (toy_params 43 5 8 4 2) with
  | Ret M1, Ret M2 =>
      Params.seed (params M1) <> Params.seed (params M2) /\ rng M1 = rng M2
  | _, _ => False
  end.
Proof. now vm_compute. Qed.

(** C3 on the prompt 7, 3 with a limit of 5: the loop is left within its
    fuel. *)
Lemma decode_loop_exit_witness :
  exists r,
    decode_loop (decode_fuel (params mpt_4_2) [7; 3]) (params mpt_4_2) [7; 3]
                state_0 = Some r
    /\ forall e, r = Ret e ->
       match e with
       | ExitLimit st =>
           n_sampled st = Z.max 0 (Params.n_predict (params mpt_4_2))
       | ExitEos st =>
           exists st_prev,
             n_sampled st_prev < Params.n_predict (params mpt_4_2)
             /\ round_batch [7; 3] st_prev st
             /\ last (embd st) = Some 0
       | ExitEvalError st =>
           exists st_prev,
             n_sampled st_prev < Params.n_predict (params mpt_4_2)
             /\ eval_failed (params mpt_4_2) st_prev st
       end.
Proof.
  exact (proj1 (decode_loop_exit mpt_4_2 eval_statics_init [7; 3] state_0
                  ltac:(now vm_compute) eq_refl)).
Defined.

(** C3, refuted as stated: on the prompt 7, 0 with a limit of 5 the loop
    is left by the end-of-text test in its first round; no token has been
    sampled, the limit is not reached, and the id 0 that ended it is the
    last token of the prompt. *)
Lemma prompt_eos_counterexample :
  match ProcessTokenizedMessage mpt_4_2 eval_statics_init [7; 0] with
  | Ret (_, ExitEos st) =>
      n_sampled st = 0
      /\ n_sampled st < Params.n_predict (params mpt_4_2)
      /\ embd st = [7; 0]
      /\ s_rng st = rng mpt_4_2
  | _ => False
  end.
Proof. now vm_compute. Qed.

(** C4 on the object with a context of 4 and a repeat window of 2. *)
Lemma window_length_n_ctx_witness :
  last_n_tokens state_0 = [0; 0; 0; 0]
  /\ Z.of_nat (length (last_n_tokens state_0)) = 4
  /\ forall fuel e,
       decode_loop fuel (params mpt_4_2) [7; 3] state_0 = Some (Ret e) ->
       Z.of_nat (length (last_n_tokens (exit_state e))) = 4.
Proof.
  pose proof (window_length_n_ctx mpt_4_2 eval_statics_init [7; 3] state_0
                eq_refl) as (H1 & H2 & _ & _ & _ & H3).
  split; [exact H1|]. split; [exact H2|]. exact H3.
Defined.

(** C4, refuted as stated: with n_ctx = 4 and repeat_last_n = 2 the window
    has four entries when decoding starts and when it ends, not two. *)
Lemma window_length_counterexample :
  decode_init mpt_4_2 eval_statics_init = Ret state_0
  /\ Params.repeat_last_n (params mpt_4_2) = 2
  /\ last_n_tokens state_0 = [0; 0; 0; 0]
  /\ Z.of_nat (length (last_n_tokens state_0))
     <> Params.repeat_last_n (params mpt_4_2)
  /\ match ProcessTokenizedMessage mpt_4_2 eval_statics_init [7; 3] with
     | Ret (_, e) =>
         last_n_tokens (exit_state e) = [0; 7; 3; 0]
         /\ Z.of_nat (length (last_n_tokens (exit_state e)))
            <> Params.repeat_last_n (params mpt_4_2)
     | _ => False
     end.
Proof.
  split; [reflexivity|]. split; [reflexivity|]. split; [reflexivity|].
  split; [now vm_compute|]. now vm_compute.
Qed.

End Examples.

(** ** More on the forward pass *)

Section EvalMore.
Context `{FL : Floats} `{GC : !GgmlCompute} `{HO : Host}.

(** The two ways through lines 432-451. *)
Lemma grow_buffer_cases (S S' : eval_statics) (mem_per_token N : Z)
    (ok : bool) :
  grow_buffer S mem_per_token N = Ret (S', ok) ->
  let need := Machine.size_t (mem_per_token * Machine.size_t N) in
  (~ (0 < mem_per_token /\ buf_size S < need) /\ S' = S /\ ok = true)
  \/ (0 < mem_per_token /\ buf_size S < need
      /\ exists sz,
           Double.mul_1_1 need = Ret sz
           /\ S' = mk_statics sz (negb (realloc_ok sz))
           /\ ok = realloc_ok sz).
Proof.
  unfold grow_buffer. cbv zeta.
  destruct (decide _) as [[Hm Hb]|Hno].
  - destruct (Double.mul_1_1 _) as [sz| |] eqn:Hsz;
      cbn [mbind outcome_bind]; [|done..].
    intros [= <- <-]. right. split; [done|]. split; [done|].
    exists sz. done.
  - intros [= <- <-]. left. done.
Qed.

(** What a call that returns has done. *)
Lemma mpt_eval_cases (S : eval_statics) (model : mpt_model)
    (n_threads n_past : Z) (embd_inp : list Z) (embd_w : list float)
    (logits_all : bool) (mem_per_token : Z) (r : eval_result) :
  mpt_eval S model n_threads n_past embd_inp embd_w logits_all mem_per_token
  = Ret r ->
  let N := Machine.int32 (Z.of_nat (length embd_inp)) in
  exists S' ok,
    grow_buffer S mem_per_token N = Ret (S', ok)
    /\ ((ok = false
         /\ r = mk_eval_result false S' model embd_w mem_per_token None)
        \/ (ok = true
            /\ exists model' data out,
                 forward model n_past embd_inp = Ret (model', data)
                 /\ copy_logits (n_vocab (hparams model)) N logits_all data
                                embd_w = Ret out
                 /\ r = mk_eval_result true S' model' out
                          (if decide (mem_per_token = 0)
                           then ggml_used_mem (hparams model) (buf_size S')
                                              n_past N / Machine.size_t N
                           else mem_per_token)
                          (Some (buf_size S'))
                 /\ (mem_per_token = 0 -> Machine.size_t N <> 0))).
Proof.
  unfold mpt_eval. cbv zeta.
  destruct (grow_buffer _ _ _) as [[S' ok]| |];
    cbn [mbind outcome_bind]; [|done..].
  intros Hr. exists S', ok. split; [done|].
  destruct ok; cbn [negb] in Hr.
  2:{ left. injection Hr as <-. done. }
  right. split; [done|].
  destruct (forward model n_past embd_inp) as [[model' data]| |] eqn:Hf;
    cbn [mbind outcome_bind] in Hr; [|done..].
  destruct (copy_logits _ _ logits_all data embd_w) as [out| |] eqn:Hc;
    cbn [mbind outcome_bind] in Hr; [|done..].
  exists model', data, out. split; [done|]. split; [done|].
  destruct (decide (mem_per_token = 0)).
  - destruct (decide (Machine.size_t _ = 0)); [done|].
    injection Hr as <-. done.
  - injection Hr as <-. done.
Qed.

(** X9.  The forward pass reports failure in one case only: the estimate is
    positive, the bytes needed exceed the buffer, and [realloc] gave no
    block; the caller's model, output vector and estimate are then as they
    were. *)
Theorem eval_false_only_realloc (S : eval_statics) (model : mpt_model)
    (n_threads n_past : Z) (embd_inp : list Z) (embd_w : list float)
    (logits_all : bool) (mem_per_token : Z) (r : eval_result) :
  mpt_eval S model n_threads n_past embd_inp embd_w logits_all mem_per_token
  = Ret r ->
  r_ok r = false ->
  let need :=
    Machine.size_t
      (mem_per_token
       * Machine.size_t (Machine.int32 (Z.of_nat (length embd_inp)))) in
  0 < mem_per_token /\ buf_size S < need
  /\ exists sz,
       Double.mul_1_1 need = Ret sz /\ realloc_ok sz = false
       /\ r = mk_eval_result false (mk_statics sz true) model embd_w
                             mem_per_token None.
Proof.
  intros Hr Hok need.
  apply mpt_eval_cases in Hr as (S' & ok & Hg & Hcase).
  destruct Hcase as [[-> ->]|[-> (m & d & o & _ & _ & -> & _)]]; [|done].
  apply grow_buffer_cases in Hg as [(_ & _ & [=])|(Hm & Hb & sz & Hsz & -> & Hf)].
  split; [done|]. split; [done|]. exists sz.
  split; [done|]. split; [done|]. now rewrite <- Hf.
Qed.

(** X10.  The main buffer never shrinks: whatever a call does, [buf_size] after it
    is at least [buf_size] before. *)
Theorem buffer_never_shrinks (S : eval_statics) (model : mpt_model)
    (n_threads n_past : Z) (embd_inp : list Z) (embd_w : list float)
    (logits_all : bool) (mem_per_token : Z) (r : eval_result) :
  mpt_eval S model n_threads n_past embd_inp embd_w logits_all mem_per_token
  = Ret r ->
  buf_size S <= buf_size (r_statics r).
Proof.
  intros Hr.
  apply mpt_eval_cases in Hr as (S' & ok & Hg & Hcase).
  assert (r_statics r = S') as ->.
  { destruct Hcase as [[_ ->]|[_ (m & d & o & _ & _ & -> & _)]]; done. }
  apply grow_buffer_cases in Hg as [(_ & -> & _)|(Hm & Hb & sz & Hsz & -> & _)];
    [lia|].
  apply mul_1_1_covers in Hsz; [simpl; lia|].
  apply size_t_range.
Qed.

(** With the [int] products of lines 661-667 in range, what [copy_logits]
    leaves in the output vector does not depend on what the vector held. *)
Lemma copy_logits_fresh (n_vocab N : Z) (logits_all : bool)
    (data w1 w2 : list float) :
  0 <= n_vocab -> 0 < N < 2 ^ 31 -> n_vocab * N < 2 ^ 31 ->
  copy_logits n_vocab N logits_all data w1
  = copy_logits n_vocab N logits_all data w2.
Proof.
  intros Hv HN Hlt. unfold copy_logits, sizeof_float.
  assert (0 <= n_vocab * (N - 1) <= n_vocab * N) by nia.
  assert (n_vocab <= n_vocab * N) by nia.
  rewrite (size_t_small n_vocab) by lia.
  rewrite (size_t_small (4 * n_vocab)) by lia.
  assert (forall n w off bytes,
            0 <= n -> bytes / 4 = n ->
            (v ← resize_floats n w; memcpy_floats v data off bytes)
            = (if decide (0 <= off /\ off + n <= Z.of_nat (length data))
               then Ret (take (Z.to_nat n) (drop (Z.to_nat off) data))
               else Undef)) as Hgen.
  { intros n w off bytes Hn Hb. unfold resize_floats.
    rewrite decide_False by lia. cbn [mbind outcome_bind].
    unfold memcpy_floats, sizeof_float. rewrite Hb.
    set (v := take (Z.to_nat n) w ++ _).
    assert (Z.of_nat (length v) = n) as Hlen.
    { subst v. rewrite length_app, length_take, length_replicate. lia. }
    destruct (decide (0 <= off /\ off + n <= Z.of_nat (length data)))
      as [[Ho0 Ho1]|Hno].
    - rewrite decide_True by lia.
      now rewrite (drop_ge v), app_nil_r by lia.
    - rewrite decide_False by (intros (? & ? & ?); apply Hno; lia). done. }
  destruct logits_all.
  - rewrite (int32_small (n_vocab * N)) by lia.
    rewrite (size_t_small N) by lia.
    rewrite (size_t_small (4 * n_vocab * N)) by nia.
    rewrite !Hgen; [done| nia | | nia |].
    all: replace (4 * n_vocab * N) with (n_vocab * N * 4) by lia;
      now rewrite Z.div_mul.
  - rewrite !Hgen; [done| lia | | lia |].
    all: replace (4 * n_vocab) with (n_vocab * 4) by lia;
      now rewrite Z.div_mul.
Qed.

(** X11.  A call that succeeds overwrites the whole output vector: calls that
    differ only in the vector passed in return the same result when they
    evaluate, old logits never show through. *)
Theorem eval_output_fresh (S : eval_statics) (model : mpt_model)
    (n_threads n_past : Z) (embd_inp : list Z) (w1 w2 : list float)
    (logits_all : bool) (mem_per_token : Z) (r : eval_result) :
  let N := Z.of_nat (length embd_inp) in
  0 < N < 2 ^ 31 -> 0 <= n_vocab (hparams model) ->
  n_vocab (hparams model) * N < 2 ^ 31 ->
  mpt_eval S model n_threads n_past embd_inp w1 logits_all mem_per_token
  = Ret r ->
  r_ok r = true ->
  mpt_eval S model n_threads n_past embd_inp w2 logits_all mem_per_token
  = Ret r.
Proof.
  intros N HN Hv Hlt Hr Hok.
  apply mpt_eval_cases in Hr as (S' & ok & Hg & Hcase).
  fold N in Hg, Hcase. rewrite (int32_small N) in Hg, Hcase by lia.
  destruct Hcase as [[_ ->]|[-> (m & d & o & Hf & Hc & -> & Hz)]]; [done|].
  rewrite (copy_logits_fresh _ _ _ _ w1 w2) in Hc by lia.
  unfold mpt_eval. cbv zeta. fold N. rewrite (int32_small N) by lia.
  rewrite Hg. cbn [mbind outcome_bind negb]. rewrite Hf.
  cbn [mbind outcome_bind]. rewrite Hc. cbn [mbind outcome_bind].
  destruct (decide (mem_per_token = 0)) as [E|E]; [|done].
  now rewrite decide_False by (apply Hz, E).
Qed.

(** X12.  The two modes agree: the logits a call returns without the all-logits
    flag are the last [n_vocab] of those it returns with the flag, and the
    model, the statics and the estimate come out the same. *)
Theorem last_logits_of_all (S : eval_statics) (model : mpt_model)
    (n_threads n_past : Z) (embd_inp : list Z) (w_all w_last : list float)
    (mem_per_token : Z) (r_all r_last : eval_result) :
  let N := Z.of_nat (length embd_inp) in
  let n_vocab := n_vocab (hparams model) in
  0 < N < 2 ^ 31 -> 0 <= n_vocab -> n_vocab * N < 2 ^ 31 ->
  mpt_eval S model n_threads n_past embd_inp w_all true mem_per_token
  = Ret r_all ->
  mpt_eval S model n_threads n_past embd_inp w_last false mem_per_token
  = Ret r_last ->
  r_ok r_all = r_ok r_last
  /\ (r_ok r_all = true ->
      r_embd_w r_last
      = drop (Z.to_nat (n_vocab * (N - 1))) (r_embd_w r_all)
      /\ r_model r_last = r_model r_all
      /\ r_statics r_last = r_statics r_all
      /\ r_mem_per_token r_last = r_mem_per_token r_all).
Proof.
  intros N n_vocab HN Hv Hlt Ha Hl.
  apply mpt_eval_cases in Ha as (Sa & oka & Hga & Ha).
  apply mpt_eval_cases in Hl as (Sl & okl & Hgl & Hl).
  rewrite Hga in Hgl. injection Hgl as <- <-.
  fold N in Ha, Hl. rewrite (int32_small N) in Ha, Hl by lia.
  destruct Ha as [[-> ->]|[-> (ma & da & oa & Hfa & Hca & -> & _)]].
  - destruct Hl as [[_ ->]|[[=] _]]. done.
  - destruct Hl as [[[=] _]|[_ (ml & dl & ol & Hfl & Hcl & -> & _)]].
    rewrite Hfa in Hfl. injection Hfl as <- <-.
    split; [done|]. intros _. cbn.
    apply copy_logits_ok in Hca as [-> _]; [|done..].
    apply copy_logits_ok in Hcl as [-> _]; [|done..].
    split; [|done].
    rewrite take_drop_commute. do 2 f_equal. fold n_vocab. nia.
Qed.

(** A copy into a view of a cache changes no element outside the view. *)
Lemma cpy_to_view_frame (src : list (list float)) (mem mem' : list half)
    (v : view_1d) (i : nat) :
  cpy_to_view src mem v = Ret mem' ->
  Z.of_nat i < v_offset v / kv_element_size
  \/ v_offset v / kv_element_size + v_ne0 v <= Z.of_nat i ->
  mem' !! i = mem !! i.
Proof.
  unfold cpy_to_view. cbv zeta.
  set (start := v_offset v / kv_element_size).
  set (vals := map f32_to_f16 (concat src)).
  destruct (decide _) as [(Hn & H0 & H1)|]; [|done].
  intros [= <-] [Hlt|Hge].
  - rewrite lookup_app_l by (rewrite length_take; lia).
    apply lookup_take_lt. lia.
  - rewrite lookup_app_r by (rewrite length_take; lia).
    rewrite lookup_app_r by (rewrite length_take; lia).
    rewrite lookup_drop. f_equal. rewrite length_take. lia.
Qed.

(** A round of the layer loop changes the caches inside the rows of its
    layer at the batch's positions only. *)
Lemma eval_layer_frame (n_past N il : Z) (model model' : mpt_model)
    (inpL inpL' : list float) (i : nat) :
  kv_cache_ok model ->
  0 <= il < n_layers (hparams model) -> 0 <= n_past -> 0 < N ->
  n_past + N <= n_ctx (hparams model) ->
  eval_layer n_past N (model, inpL) il = Ret (model', inpL') ->
  Z.of_nat i < spec_offset (hparams model) il n_past
  \/ spec_offset (hparams model) il n_past + N * d_model (hparams model)
     <= Z.of_nat i ->
  memory_k model' !! i = memory_k model !! i
  /\ memory_v model' !! i = memory_v model !! i.
Proof.
  intros Hok Hil Hp HN Hctx He Hi.
  pose proof (kv_store_view_eq model il n_past N Hok Hil Hp HN Hctx) as Hview.
  destruct Hok as (Hes & _).
  unfold eval_layer in He. cbv zeta in He. rewrite Hview in He.
  destruct (head_dim _) as [n_embd_head| |];
    cbn [mbind outcome_bind] in He; [|done..].
  destruct (cpy_to_view _ (memory_k model) _) as [mem_k| |] eqn:Hk;
    cbn [mbind outcome_bind] in He; [|done..].
  destruct (cpy_to_view _ (memory_v model) _) as [mem_v| |] eqn:Hv;
    cbn [mbind outcome_bind] in He; [|done..].
  injection He as <- _. cbn [memory_k memory_v].
  assert (kv_element_size * spec_offset (hparams model) il n_past
          / kv_element_size = spec_offset (hparams model) il n_past) as Hdiv.
  { rewrite Z.mul_comm. apply Z.div_mul. lia. }
  split; [eapply cpy_to_view_frame in Hk | eapply cpy_to_view_frame in Hv];
    try eassumption; cbn [v_offset v_ne0]; rewrite Hdiv; exact Hi.
Qed.

(** The same over the whole layer loop. *)
Lemma eval_layers_frame (n_past N : Z) (ils : list Z)
    (model model' : mpt_model) (inpL inpL' : list float) (i : nat) :
  kv_cache_ok model ->
  Forall (fun il => 0 <= il < n_layers (hparams model)) ils ->
  0 <= n_past -> 0 < N -> n_past + N <= n_ctx (hparams model) ->
  eval_layers n_past N (model, inpL) ils = Ret (model', inpL') ->
  (hparams model' = hparams model /\ tensors model' = tensors model
   /\ kv_cache_ok model')
  /\ (Forall (fun il =>
                Z.of_nat i < spec_offset (hparams model) il n_past
                \/ spec_offset (hparams model) il n_past
                   + N * d_model (hparams model) <= Z.of_nat i) ils ->
      memory_k model' !! i = memory_k model !! i
      /\ memory_v model' !! i = memory_v model !! i).
Proof.
  intros Hok Hils Hp HN Hctx.
  revert model inpL Hok Hils Hctx.
  induction ils as [|il ils IH]; intros model inpL Hok Hils Hctx.
  - intros [= <- _]. done.
  - cbn [eval_layers].
    destruct (eval_layer n_past N (model, inpL) il) as [[m1 x1]| |] eqn:H1;
      cbn [mbind outcome_bind]; [|done..].
    intros Hrest.
    apply Forall_cons in Hils as [Hil Hils].
    pose proof (eval_layer_keeps_ok _ _ _ _ _ _ _ H1) as (Hhp & Hts & Hok1).
    specialize (Hok1 Hok).
    apply IH in Hrest as [(Hhp' & Hts' & Hok') Hframe];
      [|done|now rewrite Hhp|now rewrite Hhp].
    split.
    { split; [congruence|]. split; [congruence|done]. }
    intros Hout. apply Forall_cons in Hout as [Hi Hout].
    rewrite Hhp in Hframe. destruct (Hframe Hout) as [-> ->].
    eapply eval_layer_frame; eassumption.
Qed.

(** X13.  A forward pass over a batch of N tokens at cache position n_past, with
    n_past + N <= n_ctx, leaves the hyperparameters, the registry and the
    size of the two caches as they are, and changes no cache row of a
    position outside [n_past, n_past + N), in any layer. *)
Theorem forward_cache_frame (model model' : mpt_model) (n_past : Z)
    (embd_inp : list Z) (data : list float) :
  let hp := hparams model in
  let N := Z.of_nat (length embd_inp) in
  kv_cache_ok model ->
  0 <= n_past -> 0 < N < 2 ^ 31 -> n_past + N <= n_ctx hp ->
  forward model n_past embd_inp = Ret (model', data) ->
  hparams model' = hp /\ tensors model' = tensors model
  /\ length (memory_k model') = length (memory_k model)
  /\ length (memory_v model') = length (memory_v model)
  /\ forall layer position e,
       0 <= layer < n_layers hp -> 0 <= position < n_ctx hp ->
       ~ (n_past <= position < n_past + N) -> 0 <= e < d_model hp ->
       let i := Z.to_nat (spec_offset hp layer position + e) in
       memory_k model' !! i = memory_k model !! i
       /\ memory_v model' !! i = memory_v model !! i.
Proof.
  intros hp N Hok Hp HN Hctx. unfold forward. cbv zeta.
  fold N. rewrite (int32_small N) by lia.
  destruct (eval_layers _ _ _ _) as [[m1 x1]| |] eqn:Hl;
    cbn [mbind outcome_bind]; [|done..].
  intros [= <- _].
  assert (Forall (fun il => 0 <= il < n_layers (hparams model))
                 (seqZ 0 (n_layers (hparams model)))) as Hils.
  { apply Forall_forall. intros il Hin. apply elem_of_seqZ in Hin. lia. }
  pose proof (fun i => eval_layers_frame _ _ _ _ _ _ _ i Hok Hils Hp
                         (proj1 HN) Hctx Hl) as Hall.
  destruct (Hall 0%nat) as [(Hhp & Hts & Hok1) _].
  split; [exact Hhp|]. split; [exact Hts|].
  destruct Hok as (_ & Hd & HL & Hk & Hv & _).
  destruct Hok1 as (_ & _ & _ & Hk1 & Hv1 & _).
  rewrite Hhp in Hk1, Hv1.
  split; [lia|]. split; [lia|].
  intros layer position e Hlayer Hpos Hout He.
  apply (Hall (Z.to_nat (spec_offset hp layer position + e))).
  apply Forall_forall. intros il Hin.
  apply elem_of_seqZ in Hin. fold hp in Hd, HL |- *.
  unfold spec_offset.
  set (d := d_model hp) in *. set (C := n_ctx hp) in *.
  assert (0 <= layer * C) by (apply Z.mul_nonneg_nonneg; lia).
  assert (0 <= (layer * C + position) * d)
    by (apply Z.mul_nonneg_nonneg; lia).
  rewrite Z2Nat.id by lia.
  set (r := layer * C + position) in *.
  set (r0 := il * C + n_past).
  replace (r0 * d + N * d) with ((r0 + N) * d) by lia.
  assert (r < r0 \/ r0 + N <= r) as [Hr|Hr].
  { subst r r0. destruct (decide (layer = il)) as [->|Hne]; [lia|].
    destruct (decide (layer < il)).
    - left. assert ((layer + 1) * C <= il * C)
        by (apply Z.mul_le_mono_nonneg_r; lia). lia.
    - right. assert ((il + 1) * C <= layer * C)
        by (apply Z.mul_le_mono_nonneg_r; lia). lia. }
  - left. assert ((r + 1) * d <= r0 * d)
      by (apply Z.mul_le_mono_nonneg_r; lia). lia.
  - right. assert ((r0 + N) * d <= r * d)
      by (apply Z.mul_le_mono_nonneg_r; lia). lia.
Qed.

End EvalMore.

(** ** More on the loader *)

Section LoaderMore.
Context `{FL : Floats} `{GL : !GgmlLoad}.

Lemma to_N_byte_of_Z (z : Z) :
  Z.of_N (Byte.to_N (IStream.byte_of_Z z)) = z mod 256.
Proof.
  unfold IStream.byte_of_Z.
  pose proof (Z.mod_pos_bound z 256 ltac:(lia)) as Hr.
  destruct (Byte.of_N (Z.to_N (z mod 256))) as [b|] eqn:Hb.
  - apply Byte.to_of_N in Hb. simpl. rewrite Hb. lia.
  - apply Byte.of_N_None_iff in Hb. lia.
Qed.

Lemma le_decode_encode (n : nat) (z : Z) :
  IStream.le_decode (IStream.le_encode n z) = z mod 256 ^ Z.of_nat n.
Proof.
  revert z. induction n as [|n IH]; intros z.
  - simpl. now rewrite Z.mod_1_r.
  - cbn [IStream.le_encode]. unfold IStream.le_decode in *.
    cbn [foldr]. rewrite IH, to_N_byte_of_Z.
    rewrite Nat2Z.inj_succ, Z.pow_succ_r by lia.
    rewrite (Z.rem_mul_r z 256 (256 ^ Z.of_nat n)) by lia. lia.
Qed.

(** A length word gives the length back. *)
Lemma le_decode_length (w : list byte) :
  Z.of_nat (length w) < 2 ^ 32 ->
  Z.to_nat (IStream.le_decode (IStream.le_encode 4 (Z.of_nat (length w))))
  = length w.
Proof.
  intros Hw. rewrite le_decode_encode.
  change (256 ^ Z.of_nat 4) with (2 ^ 32). rewrite Z.mod_small; lia.
Qed.

Lemma length_resize_bytes (len : nat) (buf : list byte) :
  length (resize_bytes len buf) = len.
Proof.
  unfold resize_bytes. rewrite length_app, length_take, length_replicate. lia.
Qed.

(** One round of the vocabulary loop on a well-formed entry. *)
Lemma load_word_entry (i : Z) (vocab : gpt_vocab) (buf w tl : list byte)
    (t : string) :
  Z.of_nat (length w) < 2 ^ 32 ->
  word_of w = Some t ->
  load_word i
    (vocab, buf,
     IStream.mk ((IStream.le_encode 4 (Z.of_nat (length w)) ++ w) ++ tl) false)
  = Ret (mk_vocab (<[t := i]> (token_to_id vocab))
                  (<[i := t]> (id_to_token vocab)),
         w, IStream.mk tl false).
Proof.
  intros Hw Ht. unfold load_word. rewrite <- app_assoc.
  rewrite read_uninit_app by apply length_le_encode.
  rewrite le_decode_length by done.
  rewrite (read_over_app (length w) _ w tl eq_refl).
  rewrite drop_ge by (rewrite length_resize_bytes; lia).
  rewrite app_nil_r, firstn_all.
  unfold word_of in Ht.
  destruct (convert_to_wstring w) as [wcs|]; [|done].
  cbn in Ht. now injection Ht as <-.
Qed.

(** The same on an entry whose word does not convert. *)
Lemma load_word_invalid (i : Z) (vocab : gpt_vocab) (buf w tl : list byte) :
  Z.of_nat (length w) < 2 ^ 32 ->
  convert_to_wstring w = None ->
  load_word i
    (vocab, buf,
     IStream.mk ((IStream.le_encode 4 (Z.of_nat (length w)) ++ w) ++ tl) false)
  = Throw.
Proof.
  intros Hw Hc. unfold load_word. rewrite <- app_assoc.
  rewrite read_uninit_app by apply length_le_encode.
  rewrite le_decode_length by done.
  rewrite (read_over_app (length w) _ w tl eq_refl).
  rewrite drop_ge by (rewrite length_resize_bytes; lia).
  now rewrite app_nil_r, firstn_all, Hc.
Qed.

Lemma word_of_is_Some (w : list byte) :
  is_Some (convert_to_wstring w) -> is_Some (word_of w).
Proof. intros [wcs Hw]. unfold word_of. rewrite Hw. by eexists. Qed.

Lemma load_vocab_from_block (ws : list (list byte)) :
  forall (i0 : Z) (vocab : gpt_vocab) (buf tl : list byte),
  Forall (fun w => Z.of_nat (length w) < 2 ^ 32) ws ->
  Forall (fun w => is_Some (convert_to_wstring w)) ws ->
  exists vocab' buf',
    load_vocab_from (length ws) i0
      (vocab, buf, IStream.mk (vocab_block ws ++ tl) false)
    = Ret (vocab', buf', IStream.mk tl false)
    /\ (forall (i : nat) w t, ws !! i = Some w -> word_of w = Some t ->
          id_to_token vocab' !! (i0 + Z.of_nat i) = Some t)
    /\ (forall (i : nat) w t, ws !! i = Some w -> word_of w = Some t ->
          (forall (j : nat) w', ws !! j = Some w' -> word_of w' = Some t ->
                                (j <= i)%nat) ->
          token_to_id vocab' !! t = Some (i0 + Z.of_nat i))
    /\ (forall z, ~ (i0 <= z < i0 + Z.of_nat (length ws)) ->
          id_to_token vocab' !! z = id_to_token vocab !! z)
    /\ (forall s, (forall w, w ∈ ws -> word_of w <> Some s) ->
          token_to_id vocab' !! s = token_to_id vocab !! s).
Proof.
  induction ws as [|w ws IH]; intros i0 vocab buf tl Hws Hcs.
  - exists vocab, buf. simpl. split; [done|].
    split; [intros i w t; now rewrite lookup_nil|].
    split; [intros i w t; now rewrite lookup_nil|]. done.
  - apply Forall_cons in Hws as [Hw Hws].
    apply Forall_cons in Hcs as [Hc Hcs].
    destruct (word_of_is_Some w Hc) as [t0 Ht0].
    unfold vocab_block. cbn [map concat length load_vocab_from].
    fold (vocab_block ws). rewrite <- app_assoc.
    rewrite (load_word_entry _ _ _ _ _ t0) by done.
    cbn [mbind outcome_bind].
    destruct (IH (i0 + 1)
                 (mk_vocab (<[t0 := i0]> (token_to_id vocab))
                           (<[i0 := t0]> (id_to_token vocab)))
                 w tl Hws Hcs)
      as (vocab' & buf' & -> & Hid & Htok & Hfid & Hftok).
    cbn [id_to_token token_to_id] in Hfid, Hftok.
    exists vocab', buf'. split; [done|].
    split; [|split; [|split]].
    + intros [|i] w' t Hl Ht; simpl in Hl.
      * injection Hl as <-. rewrite Ht0 in Ht. injection Ht as <-.
        rewrite Z.add_0_r, Hfid by lia. apply lookup_insert_eq.
      * replace (i0 + Z.of_nat (S i)) with (i0 + 1 + Z.of_nat i) by lia.
        now apply (Hid i w').
    + intros [|i] w' t Hl Ht Hlast; simpl in Hl.
      * injection Hl as <-. rewrite Ht0 in Ht. injection Ht as <-.
        rewrite Z.add_0_r, Hftok.
        { apply lookup_insert_eq. }
        intros w' Hin Heq. apply list_elem_of_lookup in Hin as [j Hj].
        specialize (Hlast (S j) w' Hj Heq). lia.
      * replace (i0 + Z.of_nat (S i)) with (i0 + 1 + Z.of_nat i) by lia.
        apply (Htok i w'); [done..|]. intros j w'' Hj Heq.
        specialize (Hlast (S j) w'' Hj Heq). lia.
    + intros z Hz. rewrite Hfid by (cbn [length] in Hz; lia).
      apply lookup_insert_ne. cbn [length] in Hz. lia.
    + intros s Hs. rewrite Hftok.
      * apply lookup_insert_ne. intros <-. apply (Hs w); [left|done].
      * intros w' Hin. apply Hs. now right.
Qed.

(** X2.  Round trip of the vocabulary block.  From a block that holds
    n_vocab words, each behind its 4-byte length and each one that the
    UTF-8 conversion accepts, the loader maps id i to the token of the i-th
    word and that token back to i (to the last such i, when words repeat),
    leaves every other entry of the two maps as it was, and stops at the
    byte after the block. *)
Theorem vocab_block_round_trip (hp : mpt_hparams) (vocab : gpt_vocab)
    (ws : list (list byte)) (tl : list byte) :
  n_vocab hp = Z.of_nat (length ws) ->
  Forall (fun w => Z.of_nat (length w) < 2 ^ 32) ws ->
  Forall (fun w => is_Some (convert_to_wstring w)) ws ->
  exists vocab',
    load_vocab hp vocab (IStream.mk (vocab_block ws ++ tl) false)
    = Ret (vocab', IStream.mk tl false)
    /\ (forall (i : nat) w, ws !! i = Some w ->
          exists t, word_of w = Some t
                    /\ id_to_token vocab' !! Z.of_nat i = Some t)
    /\ (forall (i : nat) w t, ws !! i = Some w -> word_of w = Some t ->
          (forall (j : nat) w', ws !! j = Some w' -> word_of w' = Some t ->
                                (j <= i)%nat) ->
          token_to_id vocab' !! t = Some (Z.of_nat i))
    /\ (forall z, ~ (0 <= z < n_vocab hp) ->
          id_to_token vocab' !! z = id_to_token vocab !! z)
    /\ (forall s, (forall w, w ∈ ws -> word_of w <> Some s) ->
          token_to_id vocab' !! s = token_to_id vocab !! s).
Proof.
  intros Hn Hws Hcs.
  destruct (load_vocab_from_block ws 0 vocab (replicate 128 x00) tl Hws Hcs)
    as (vocab' & buf' & Hl & Hid & Htok & Hfid & Hftok).
  exists vocab'. unfold load_vocab. rewrite Hn, Nat2Z.id, Hl.
  split; [done|]. split; [|split; [exact Htok|]].
  - intros i w Hi.
    assert (is_Some (word_of w)) as [t Ht].
    { apply word_of_is_Some.
      eapply (proj1 (Forall_lookup _ _) Hcs), Hi. }
    exists t. split; [exact Ht|]. exact (Hid i w t Hi Ht).
  - split; [|exact Hftok]. intros z Hz. apply Hfid. lia.
Qed.

(** X24.  A word that is not UTF-8 ends the load by an exception.  When
    the vocabulary block holds, after words that convert, a word the
    conversion refuses, and n_vocab reaches that word, the vocabulary loop
    throws there: the loader returns neither true nor false. *)
Theorem invalid_word_throws (hp : mpt_hparams) (vocab : gpt_vocab)
    (ws : list (list byte)) (w : list byte) (rest : list (list byte))
    (tl : list byte) :
  Forall (fun w => Z.of_nat (length w) < 2 ^ 32) ws ->
  Forall (fun w => is_Some (convert_to_wstring w)) ws ->
  Z.of_nat (length w) < 2 ^ 32 ->
  convert_to_wstring w = None ->
  Z.of_nat (length ws) < n_vocab hp ->
  load_vocab hp vocab
             (IStream.mk (vocab_block (ws ++ w :: rest) ++ tl) false)
  = Throw.
Proof.
  intros Hws Hcs Hw Hc Hn. unfold load_vocab.
  assert (exists k, Z.to_nat (n_vocab hp) = (length ws + Datatypes.S k)%nat)
    as [k ->] by (exists (Z.to_nat (n_vocab hp) - length ws - 1)%nat; lia).
  generalize (replicate 128 x00) as buf. generalize 0 as i0.
  clear Hn. revert vocab.
  induction ws as [|w0 ws IH]; intros vocab i0 buf.
  - unfold vocab_block. cbn [app map concat length Nat.add load_vocab_from].
    fold (vocab_block rest). rewrite <- app_assoc.
    now rewrite load_word_invalid.
  - apply Forall_cons in Hws as [Hw0 Hws].
    apply Forall_cons in Hcs as [Hc0 Hcs].
    destruct (word_of_is_Some w0 Hc0) as [t0 Ht0].
    unfold vocab_block.
    cbn [app map concat length Nat.add load_vocab_from].
    fold (vocab_block (ws ++ w :: rest)). rewrite <- app_assoc.
    rewrite (load_word_entry _ _ _ _ _ t0) by done.
    cbn [mbind outcome_bind]. now apply IH.
Qed.

(** X1.  A file whose first four bytes are not the magic is rejected before
    anything else is read: the caller's model and vocabulary come back as
    they were, whatever follows the four bytes. *)
Theorem bad_magic_rejected (magic tl : list byte) (model : mpt_model)
    (vocab : gpt_vocab) :
  length magic = 4%nat ->
  IStream.le_decode magic <> GGML_FILE_MAGIC ->
  mpt_model_load (Some (magic ++ tl)) model vocab
  = Ret (Some BadMagic, model, vocab).
Proof.
  intros Hm Hne. unfold mpt_model_load, verify_magic, IStream.open.
  rewrite (read_uninit_app magic tl Hm). cbn [mbind outcome_bind].
  now rewrite bool_decide_eq_false_2.
Qed.

Lemma load_hparams_n_ctx (hp0 : mpt_hparams) (fin : IStream.t) :
  n_ctx (load_hparams hp0 fin).1
  = Z.min (max_seq_len (load_hparams hp0 fin).1) (n_ctx hp0).
Proof.
  unfold load_hparams.
  repeat match goal with
         | |- context [read_i32 ?o ?f] => destruct (read_i32 o f)
         | |- context [read_f32 ?o ?f] => destruct (read_f32 o f)
         end.
  reflexivity.
Qed.

Lemma load_after_vocab_hparams (hp : mpt_hparams) (model model' : mpt_model)
    (vocab vocab' : gpt_vocab) (fin : IStream.t) (err : option load_error) :
  load_after_vocab hp model vocab fin = Ret (err, model', vocab') ->
  hparams model' = hparams model \/ hparams model' = hp.
Proof.
  unfold load_after_vocab. cbv zeta.
  destruct (decide _); [intros [= _ <- _]; now left|].
  destruct (negb _); [intros [= _ <- _]; now left|].
  destruct (prepare_weights _ _) as [reg| |];
    cbn [mbind outcome_bind]; [|done..].
  destruct (load_weights _ _ _ _ _) as [[[[[e reg'] nt] ts]| |]|];
    cbn [mbind outcome_bind]; [|done..].
  intros [= _ <- _]. now right.
Qed.

Lemma mpt_model_load_n_ctx (file : option (list byte))
    (model model' : mpt_model) (vocab vocab' : gpt_vocab)
    (err : option load_error) :
  mpt_model_load file model vocab = Ret (err, model', vocab') ->
  model' = model
  \/ n_ctx (hparams model')
     = Z.min (max_seq_len (hparams model')) (n_ctx (hparams model)).
Proof.
  unfold mpt_model_load. destruct file as [contents|].
  2:{ intros [= _ <- _]. now left. }
  destruct (verify_magic _) as [[ok fin]| |];
    cbn [mbind outcome_bind]; [|done..].
  destruct ok; cbn [negb].
  2:{ intros [= _ <- _]. now left. }
  pose proof (load_hparams_n_ctx (hparams model) fin) as Hn.
  destruct (load_hparams (hparams model) fin) as [hp fin1].
  cbn [fst] in Hn. unfold load_after_hparams. cbv zeta.
  destruct (load_vocab hp vocab fin1) as [[v1 fin2]| |];
    cbn [mbind outcome_bind]; [|done..].
  intros Hl. apply load_after_vocab_hparams in Hl.
  cbn [hparams] in Hl.
  assert (hparams model' = hp) as -> by (now destruct Hl).
  now right.
Qed.

(** X3.  Loading never raises the context length: whatever the file holds, the
    model the loader returns has an n_ctx no larger than the one it was
    given; and unless the model comes back untouched, its n_ctx is the
    smaller of the max_seq_len read and the n_ctx given. *)
Theorem load_bounds_n_ctx (file : option (list byte))
    (model model' : mpt_model) (vocab vocab' : gpt_vocab)
    (err : option load_error) :
  mpt_model_load file model vocab = Ret (err, model', vocab') ->
  n_ctx (hparams model') <= n_ctx (hparams model)
  /\ (model' = model
      \/ n_ctx (hparams model')
         = Z.min (max_seq_len (hparams model')) (n_ctx (hparams model))).
Proof.
  intros Hl. apply mpt_model_load_n_ctx in Hl as Hcase.
  split; [|exact Hcase]. destruct Hcase as [-> | ->]; lia.
Qed.

(** ** The weight loop *)

Lemma same_shape_refl (t : ggml_tensor) : same_shape t t.
Proof. done. Qed.

Lemma registry_same_shape_refl (reg : gmap string ggml_tensor) :
  registry_same_shape reg reg.
Proof.
  intros name. destruct (reg !! name); constructor. apply same_shape_refl.
Qed.

Lemma registry_same_shape_trans (r1 r2 r3 : gmap string ggml_tensor) :
  registry_same_shape r1 r2 -> registry_same_shape r2 r3 ->
  registry_same_shape r1 r3.
Proof.
  intros H12 H23 name. specialize (H12 name). specialize (H23 name).
  destruct H12 as [t1 t2 (Ha & Hb & Hc & Hd)|]; inversion H23 as [? t3 (Ha' & Hb' & Hc' & Hd')|];
    constructor.
  unfold same_shape. repeat split; congruence.
Qed.

Lemma length_read_over (n : nat) (old : list byte) (s : IStream.t) :
  (n <= length old)%nat ->
  length (IStream.read_over n old s).1 = length old.
Proof.
  intros Hn. unfold IStream.read_over, IStream.read.
  destruct (IStream.eofbit s); [simpl; now rewrite drop_0|].
  destruct (decide _) as [Hle|Hgt]; cbn [fst].
  - rewrite length_app, length_drop, length_take. lia.
  - rewrite length_app, length_drop. lia.
Qed.

(** The copy of a record changes the storage of one tensor, not its type,
    its shape or its size. *)
Lemma check_and_copy_shape (reg reg' : gmap string ggml_tensor)
    (h : record_header) (fin fin' : IStream.t) (nbytes : Z) :
  check_and_copy reg h fin = Ret (RecNext reg' nbytes fin') ->
  registry_same_shape reg reg'.
Proof.
  unfold check_and_copy.
  destruct (reg !! h_name h) as [tensor|] eqn:Hreg; [|done].
  repeat (destruct (decide _); [done|]).
  pose proof (length_read_over (Z.to_nat (ggml_nbytes tensor))
                (t_data tensor) fin ltac:(lia)) as Hlen.
  destruct (IStream.read_over _ _ fin) as [data fin1]. cbn [fst] in Hlen.
  intros [= <- _ _] name.
  destruct (decide (name = h_name h)) as [->|Hne].
  - rewrite lookup_insert_eq, Hreg. constructor. done.
  - rewrite lookup_insert_ne by done. apply registry_same_shape_refl.
Qed.

(** X4.  The weight loop fills storage, it never reshapes: however it ends, the
    registry it returns has the names it started with, each with a tensor
    of the same type, shape and storage size, and the tensor count has not
    gone down. *)
Theorem weights_keep_shape (fuel : nat) (reg reg' : gmap string ggml_tensor)
    (n_tensors total_size n_tensors' total_size' : Z) (fin : IStream.t)
    (err : option load_error) :
  load_weights fuel reg n_tensors total_size fin
  = Some (Ret (err, reg', n_tensors', total_size')) ->
  registry_same_shape reg reg' /\ n_tensors <= n_tensors'.
Proof.
  revert reg n_tensors total_size fin.
  induction fuel as [|fuel IH]; intros reg n_tensors total_size fin; [done|].
  cbn [load_weights].
  destruct (load_tensor_record reg fin) as [[|e|reg1 nbytes fin1]| |] eqn:Hr.
  - intros [= _ <- <- _]. split; [apply registry_same_shape_refl|lia].
  - intros [= _ <- <- _]. split; [apply registry_same_shape_refl|lia].
  - intros [H1 H2]%IH. split; [|lia].
    eapply registry_same_shape_trans; [|exact H1].
    unfold load_tensor_record in Hr.
    destruct (read_record_header fin) as [[[h fin0]|]| |];
      cbn [mbind outcome_bind] in Hr; [|done..].
    eapply check_and_copy_shape, Hr.
  - done.
  - done.
Qed.

(** With fewer than twelve bytes left there is no record header. *)
Lemma read_record_header_short (fin : IStream.t) :
  (length (IStream.rest fin) < 12)%nat ->
  read_record_header fin = Ret None.
Proof.
  destruct fin as [r e]. cbn [IStream.rest]. intros Hlen.
  unfold read_record_header, IStream.read_uninit, IStream.read, IStream.eof.
  destruct e; [reflexivity|]. cbn [IStream.eofbit IStream.rest].
  destruct (decide (4 <= length r)%nat); [|reflexivity].
  cbn [IStream.eofbit IStream.rest].
  destruct (decide (4 <= length (drop 4 r))%nat) as [H2|]; [|reflexivity].
  cbn [IStream.eofbit IStream.rest].
  destruct (decide (4 <= length (drop 4 (drop 4 r)))%nat) as [H3|];
    [|reflexivity].
  rewrite !length_drop in H3. lia.
Qed.

(** Nor is there one once [eofbit] is set. *)
Lemma read_record_header_eof (fin : IStream.t) :
  IStream.eofbit fin = true -> read_record_header fin = Ret None.
Proof.
  destruct fin as [r e]. cbn [IStream.eofbit]. intros ->. reflexivity.
Qed.

(** X5.  The weight loop ends in success as soon as fewer than twelve bytes are
    left: at the end of the file, and just as well in the middle of a
    record header that was cut off; the bytes left over are ignored. *)
Theorem short_tail_ends_load (fuel : nat) (reg : gmap string ggml_tensor)
    (n_tensors total_size : Z) (fin : IStream.t) :
  (length (IStream.rest fin) < 12)%nat ->
  load_weights (S fuel) reg n_tensors total_size fin
  = Some (Ret (None, reg, n_tensors, total_size)).
Proof.
  intros Hlen. cbn [load_weights]. unfold load_tensor_record.
  now rewrite read_record_header_short.
Qed.

(** X6.  A payload that the file cuts short is not noticed: the record passes
    its checks, the bytes that are there overwrite the front of the
    tensor's storage, the rest of the storage stays, the record is counted
    with its full size, and the load ends in success. *)
Theorem truncated_payload_accepted (reg : gmap string ggml_tensor)
    (fin0 fin : IStream.t) (h : record_header) (tensor : ggml_tensor) :
  read_record_header fin0 = Ret (Some (h, fin)) ->
  reg !! h_name h = Some tensor ->
  ggml_nelements tensor = h_nelements h ->
  (t_ne0 tensor, t_ne1 tensor) = h_ne h ->
  Machine.size_t (ggml_blck_size (t_type tensor)) <> 0 ->
  record_bytes h tensor = ggml_nbytes tensor ->
  ggml_nbytes tensor <= Z.of_nat (length (t_data tensor)) ->
  Z.of_nat (length (IStream.rest fin)) < ggml_nbytes tensor ->
  let got := if IStream.eofbit fin then [] else IStream.rest fin in
  forall fuel n_tensors total_size,
    load_weights (S (S fuel)) reg n_tensors total_size fin0
    = Some (Ret (None,
                 <[h_name h :=
                     mk_tensor (t_type tensor) (t_ne0 tensor) (t_ne1 tensor)
                       (got ++ drop (length got) (t_data tensor))]> reg,
                 n_tensors + 1,
                 Machine.size_t (total_size + ggml_nbytes tensor))).
Proof.
  intros Hh Hreg Hnel Hne Hblck Hbytes Hstore Hshort got fuel n_tensors
    total_size.
  assert (exists fin',
            check_and_copy reg h fin
            = Ret (RecNext
                     (<[h_name h :=
                          mk_tensor (t_type tensor) (t_ne0 tensor)
                            (t_ne1 tensor)
                            (got ++ drop (length got) (t_data tensor))]> reg)
                     (ggml_nbytes tensor) fin')
            /\ IStream.eofbit fin' = true) as (fin' & Hc & Heof).
  { unfold check_and_copy. rewrite Hreg.
    rewrite decide_False by (intros Hx; apply Hx, Hnel).
    rewrite decide_False
      by (rewrite <- Hne; cbn [fst snd]; intros [Hx|Hx]; now apply Hx).
    rewrite decide_False by exact Hblck.
    rewrite decide_False by (intros Hx; apply Hx, Hbytes).
    rewrite decide_False by lia.
    unfold IStream.read_over, IStream.read. subst got.
    destruct fin as [r e]. cbn [IStream.rest IStream.eofbit] in *.
    destruct e; [by eexists|].
    rewrite decide_False by lia. by eexists. }
  change (load_weights (S (S fuel)) reg n_tensors total_size fin0)
    with (match load_tensor_record reg fin0 with
          | Ret RecBreak => Some (Ret (None, reg, n_tensors, total_size))
          | Ret (RecFail e) => Some (Ret (Some e, reg, n_tensors, total_size))
          | Ret (RecNext reg' nbytes fin') =>
              load_weights (S fuel) reg' (n_tensors + 1)
                           (Machine.size_t (total_size + nbytes)) fin'
          | Undef => Some Undef
          | Throw => Some Throw
          end).
  unfold load_tensor_record at 1. rewrite Hh. cbn [mbind outcome_bind].
  rewrite Hc. cbn [load_weights]. unfold load_tensor_record.
  now rewrite read_record_header_eof.
Qed.

Lemma read_dims_three (k : nat) (ne : Z * Z) (nelements : Z)
    (fin : IStream.t) :
  (3 <= k)%nat -> read_dims k 0 ne nelements fin = Undef.
Proof.
  intros Hk. destruct k as [|[|[|k]]]; [lia..|].
  cbn [read_dims]. rewrite decide_True by done.
  destruct (read_i32 ne.1 fin) as [v1 fin1].
  rewrite decide_False, decide_True by done.
  destruct (read_i32 _ fin1) as [v2 fin2].
  now rewrite !decide_False by done.
Qed.

(** X7.  A record that declares three or more dimensions makes the loader store
    a dimension past the end of its two-element array: the load has no
    defined result, whatever the rest of the record holds. *)
Theorem three_dims_undefined (fuel : nat) (reg : gmap string ggml_tensor)
    (n_tensors total_size : Z) (n_dims len ttype tl : list byte) :
  length n_dims = 4%nat -> length len = 4%nat -> length ttype = 4%nat ->
  3 <= Machine.int32 (IStream.le_decode n_dims) ->
  load_weights (S fuel) reg n_tensors total_size
               (IStream.mk (n_dims ++ len ++ ttype ++ tl) false)
  = Some Undef.
Proof.
  intros H1 H2 H3 Hd. cbn [load_weights].
  unfold load_tensor_record, read_record_header.
  rewrite !read_uninit_app by done. cbn [IStream.eof IStream.eofbit].
  now rewrite read_dims_three by lia.
Qed.

(** X8.  A record whose name length is negative, after a header that declares
    no dimensions: the construction of the name throws, and so does the
    load. *)
Theorem negative_name_length_throws (fuel : nat)
    (reg : gmap string ggml_tensor) (n_tensors total_size : Z)
    (n_dims len ttype tl : list byte) :
  length n_dims = 4%nat -> length len = 4%nat -> length ttype = 4%nat ->
  Machine.int32 (IStream.le_decode n_dims) <= 0 ->
  Machine.int32 (IStream.le_decode len) < 0 ->
  load_weights (S fuel) reg n_tensors total_size
               (IStream.mk (n_dims ++ len ++ ttype ++ tl) false)
  = Some Throw.
Proof.
  intros H1 H2 H3 Hd Hl. cbn [load_weights].
  unfold load_tensor_record, read_record_header.
  rewrite !read_uninit_app by done. cbn [IStream.eof IStream.eofbit].
  replace (Z.to_nat (Machine.int32 (IStream.le_decode n_dims))) with 0%nat
    by lia.
  cbn [read_dims mbind outcome_bind].
  now rewrite decide_True by done.
Qed.

End LoaderMore.

(** ** More on the decoding loop *)

Section DecodeMore.
Context `{FL : Floats} `{GL : !GgmlLoad} `{GC : !GgmlCompute} `{HO : Host}
        `{SA : !Sampling} `{MH : !MptHeader}.

Lemma id_to_token_at_text (vocab : gpt_vocab) (id : Z) :
  (id_to_token_at vocab id).1 = token_text vocab id
  /\ forall id', token_text (id_to_token_at vocab id).2 id'
                 = token_text vocab id'.
Proof.
  unfold id_to_token_at, token_text.
  destruct (id_to_token vocab !! id) as [token|] eqn:Hid; cbn [fst snd].
  - done.
  - split; [done|]. intros id'. cbn [id_to_token].
    destruct (decide (id' = id)) as [->|Hne].
    + now rewrite lookup_insert_eq, Hid.
    + now rewrite lookup_insert_ne.
Qed.

Lemma append_tokens_ext (v1 v2 : gpt_vocab) (acc : string) (ids : list Z) :
  (forall id, token_text v1 id = token_text v2 id) ->
  append_tokens v1 acc ids = append_tokens v2 acc ids.
Proof.
  intros Hv. revert acc. unfold append_tokens.
  induction ids as [|id ids IH]; intros acc; [done|].
  cbn [foldl]. now rewrite Hv, IH.
Qed.

Lemma append_tokens_app (v : gpt_vocab) (acc : string) (l1 l2 : list Z) :
  append_tokens v acc (l1 ++ l2) = append_tokens v (append_tokens v acc l1) l2.
Proof. unfold append_tokens. apply foldl_app. Qed.

(** The display loop appends the text of the batch; the entries it may add
    to the vocabulary are empty strings under ids that had none. *)
Lemma display_text_spec (ids : list Z) (res : string) (vocab : gpt_vocab) :
  (display_text ids (res, vocab)).1 = append_tokens vocab res ids
  /\ forall id, token_text (display_text ids (res, vocab)).2 id
                = token_text vocab id.
Proof.
  revert res vocab. unfold display_text.
  induction ids as [|id ids IH]; intros res vocab; [done|].
  cbn [foldl].
  pose proof (id_to_token_at_text vocab id) as [Ht Hv].
  destruct (id_to_token_at vocab id) as [token vocab1]. cbn [fst snd] in *.
  destruct (IH (res +:+ token) vocab1) as [IH1 IH2].
  split.
  - rewrite IH1. unfold append_tokens at 2. cbn [foldl]. rewrite <- Ht.
    now apply append_tokens_ext.
  - intros id'. now rewrite IH2.
Qed.

(** The sampling branch, field by field. *)
Lemma sample_step_full (P : Params.t) (st st' : decode_state) :
  sample_step P st = Ret st' ->
  exists id rng w,
    window_push (last_n_tokens st) id = Ret w
    /\ st' = mk_decode w (embd st ++ [id]) (logits st) (mem_per_token st)
                       (n_past st) (n_consumed st) (n_sampled st + 1)
                       (result st) rng (s_vocab st) (s_model st)
                       (s_statics st).
Proof.
  unfold sample_step. cbv zeta.
  destruct (decide _); [|done].
  destruct (gpt_sample_top_k_top_p_repeat _ _ _ _ _ _ _ _ _) as [id rng].
  destruct (window_push (last_n_tokens st) id) as [w| |] eqn:Hw;
    cbn [mbind outcome_bind]; [|done..].
  intros [= <-]. by exists id, rng, w.
Qed.

(** The inner loop stops when the batch has n_batch tokens, and at one token
    when n_batch is not positive. *)
Lemma consume_prompt_batch (k : nat) (n_batch : Z) (embd_inp : list Z)
    (st st' : decode_state) :
  consume_prompt k n_batch embd_inp st = Ret st' ->
  Z.of_nat (length (embd st)) + Z.of_nat k < 2 ^ 31 ->
  Z.of_nat (length (embd st'))
  <= Z.max (Z.of_nat (length (embd st)) + 1) n_batch.
Proof.
  revert st. induction k as [|k IH]; intros st; cbn [consume_prompt].
  { intros [= <-]. lia. }
  destruct (decide (n_consumed st < _)); [|intros [= <-]; lia].
  destruct (embd_inp !! _) as [tok|]; [|done].
  destruct (decide (n_consumed st < 0)); [done|].
  destruct (window_push _ tok) as [w| |]; cbn [mbind outcome_bind]; [|done..].
  cbn [embd]. rewrite length_app. cbn [length].
  intros Hc Hlen.
  rewrite int32_small in Hc by lia.
  destruct (decide _) as [Hge|Hlt] in Hc.
  - injection Hc as <-. cbn [embd]. rewrite length_app. cbn [length]. lia.
  - apply IH in Hc; cbn [embd] in *; rewrite length_app in *;
      cbn [length] in *; lia.
Qed.

(** The prediction step, field by field. *)
Lemma predict_step_full (P : Params.t) (st st' : decode_state) (ok : bool) :
  predict_step P st = Ret (ok, st') ->
  (embd st = [] /\ ok = true /\ st' = st)
  \/ (embd st <> []
      /\ exists r,
           mpt_eval (s_statics st) (s_model st) (Params.n_threads P)
                    (n_past st) (embd st) (logits st) false
                    (mem_per_token st) = Ret r
           /\ ok = r_ok r
           /\ st' = mk_decode (last_n_tokens st)
                      (if r_ok r then [] else embd st) (r_embd_w r)
                      (r_mem_per_token r)
                      (if r_ok r
                       then Machine.int32
                              (n_past st + Z.of_nat (length (embd st)))
                       else n_past st)
                      (n_consumed st) (n_sampled st) (result st) (s_rng st)
                      (s_vocab st) (r_model r) (r_statics r)).
Proof.
  unfold predict_step. destruct (decide (embd st = [])) as [He|He].
  { intros [= <- <-]. now left. }
  destruct (mpt_eval _ _ _ _ _ _ _ _) as [r| |] eqn:Hr;
    cbn [mbind outcome_bind]; [|done..].
  intros H. right. split; [done|]. exists r. split; [done|].
  destruct (r_ok r); cbn [negb] in H; injection H as <- <-; done.
Qed.

(** Pushing a batch through a window that holds the end of a history gives
    the window of the longer history. *)
Lemma window_shift (zeros hist toks : list Z) :
  drop (length toks) (drop (length hist) (zeros ++ hist) ++ toks)
  = drop (length (hist ++ toks)) (zeros ++ hist ++ toks).
Proof.
  rewrite length_app, <- drop_drop, (app_assoc zeros hist toks).
  f_equal. symmetry. apply drop_app_le. rewrite length_app. lia.
Qed.

(** The second half of a round: the batch [toks] that was formed is
    displayed, and the round ends on its last token. *)
Lemma display_keeps_inv (M : Mpt) (embd_inp ids ids' : list Z)
    (st st2 : decode_state) (toks : list Z) :
  let hist := take (Z.to_nat (n_consumed st)) embd_inp ++ ids in
  let hist' := take (Z.to_nat (n_consumed st2)) embd_inp ++ ids' in
  decode_inv M embd_inp ids st ->
  hist' = hist ++ toks ->
  embd st2 = toks ->
  n_past st2 = n_consumed st + n_sampled st ->
  n_consumed st2 + n_sampled st2
  = n_consumed st + n_sampled st + Z.of_nat (length toks) ->
  Z.of_nat (length ids') = n_sampled st2 ->
  0 <= n_consumed st2 <= Z.of_nat (length embd_inp) ->
  n_sampled st2 <= Z.max 0 (Params.n_predict (params M)) ->
  (0 < n_sampled st2 -> n_consumed st2 = Z.of_nat (length embd_inp)) ->
  Z.of_nat (length toks) <= Z.max 1 (Params.n_batch (params M)) ->
  (0 < n_sampled st2 -> length toks = 1%nat) ->
  last_n_tokens st2 = drop (length toks) (last_n_tokens st ++ toks) ->
  result st2 = result st ->
  s_vocab st2 = s_vocab st ->
  decode_inv M embd_inp ids'
    (mk_decode (last_n_tokens st2) (embd st2) (logits st2)
       (mem_per_token st2) (n_past st2) (n_consumed st2) (n_sampled st2)
       (display_text (embd st2) (result st2, s_vocab st2)).1
       (s_rng st2)
       (display_text (embd st2) (result st2, s_vocab st2)).2
       (s_model st2) (s_statics st2)).
Proof.
  intros hist hist'
    (Hids & Hcons & Hsamp & Hfirst & Hpast0 & Hacc & Hembd & Hbatch & Hone
     & Hres & Hvoc & Hwin)
    Hhist He2 Hp2 Hsum Hids2 Hc2 Hs2 Hf2 Hb2 Ho2 Hw2 Hr2 Hv2.
  fold hist in Hembd, Hres, Hwin.
  assert (Z.of_nat (length hist) = n_consumed st + n_sampled st) as Hlh.
  { subst hist. rewrite length_app, length_take. lia. }
  pose proof (display_text_spec (embd st2) (result st2) (s_vocab st2))
    as [Hd1 Hd2].
  unfold decode_inv.
  cbn [n_consumed n_sampled n_past embd result s_vocab last_n_tokens].
  fold hist'.
  split; [exact Hids2|]. split; [exact Hc2|]. split; [exact Hs2|].
  split; [exact Hf2|]. split; [lia|]. split; [rewrite He2; lia|].
  split.
  { rewrite Hhist, Hp2, He2.
    replace (Z.to_nat (n_consumed st + n_sampled st)) with (length hist)
      by lia.
    now rewrite drop_app_length. }
  split; [now rewrite He2|]. split; [now rewrite He2|].
  split.
  { rewrite Hd1, Hhist, append_tokens_app, <- Hres, Hr2, Hv2, He2.
    now apply append_tokens_ext. }
  split.
  { intros id. now rewrite Hd2, Hv2. }
  rewrite Hw2, Hwin, Hhist. apply window_shift.
Qed.

(** A round of the loop keeps the invariant, however it ends. *)
Lemma decode_inv_step (M : Mpt) (embd_inp ids : list Z) (st : decode_state)
    (r : iter_result) :
  Z.of_nat (length embd_inp) + Z.max 0 (Params.n_predict (params M)) < 2 ^ 31 ->
  decode_inv M embd_inp ids st ->
  n_sampled st < Params.n_predict (params M) ->
  loop_body (params M) embd_inp st = Ret r ->
  exists ids', decode_inv M embd_inp ids' (iter_state r).
Proof.
  intros Hrange Hinv Hguard Hbody.
  pose proof Hinv as
    (Hids & Hcons & Hsamp & Hfirst & Hpast0 & Hacc & Hembd & Hbatch & Hone
     & Hres & Hvoc & Hwin).
  unfold loop_body in Hbody.
  destruct (predict_step (params M) st) as [[ok st1]| |] eqn:Hp;
    cbn [mbind outcome_bind] in Hbody; [|done..].
  apply predict_step_full in Hp.
  assert (ok = false -> decode_inv M embd_inp ids st1) as Hfail.
  { intros ->. destruct Hp as [(_ & [=] & _)|(_ & r0 & _ & Hok & ->)].
    rewrite <- Hok. exact Hinv. }
  assert (ok = true ->
          embd st1 = [] /\ n_past st1 = n_consumed st + n_sampled st
          /\ last_n_tokens st1 = last_n_tokens st
          /\ n_consumed st1 = n_consumed st /\ n_sampled st1 = n_sampled st
          /\ result st1 = result st /\ s_vocab st1 = s_vocab st) as Hgood.
  { intros ->. destruct Hp as [(He & _ & ->)|(_ & r0 & _ & Hok & ->)].
    - rewrite He in Hacc. cbn [length] in Hacc.
      repeat split; [exact He|lia].
    - rewrite <- Hok. cbn. rewrite int32_small by lia.
      repeat split; lia. }
  clear Hp. destruct ok; cbn [negb] in Hbody.
  2:{ injection Hbody as <-. exists ids. now apply Hfail. }
  destruct (Hgood eq_refl) as (He1 & Hp1 & Hw1 & Hc1 & Hs1 & Hr1 & Hv1).
  clear Hfail Hgood.
  rewrite int32_small in Hbody by lia.
  assert (length (take (Z.to_nat (n_consumed st)) embd_inp)
          = Z.to_nat (n_consumed st)) as Htake
    by (rewrite length_take; lia).
  destruct (decide (Z.of_nat (length embd_inp) <= n_consumed st1))
    as [Hdone|Hmore].
  - (* the prompt is used up: a token is sampled *)
    destruct (sample_step (params M) st1) as [st2| |] eqn:Hs;
      cbn [mbind outcome_bind] in Hbody; [|done..].
    apply sample_step_full in Hs as (id & rng' & w & Hw & ->).
    apply window_push_fifo in Hw as (Hw & _ & _).
    rewrite He1 in Hbody.
    cbn [app embd n_past n_consumed n_sampled last_n_tokens result s_vocab
         logits mem_per_token s_rng s_model s_statics] in Hbody.
    exists (ids ++ [id]).
    destruct (display_text _ _) as [text vocab'] eqn:Hd in Hbody.
    cbn [embd last] in Hbody.
    assert (iter_state r
            = mk_decode w [id] (logits st1) (mem_per_token st1) (n_past st1)
                        (n_consumed st1) (n_sampled st1 + 1) text rng'
                        vocab' (s_model st1) (s_statics st1)) as ->.
    { cbn in Hbody. destruct (decide (id = 0)); injection Hbody as <-; done. }
    pose proof (display_keeps_inv M embd_inp ids (ids ++ [id]) st
                  (mk_decode w [id] (logits st1) (mem_per_token st1)
                     (n_past st1) (n_consumed st1) (n_sampled st1 + 1)
                     (result st1) rng' (s_vocab st1) (s_model st1)
                     (s_statics st1)) [id] Hinv) as Hk.
    cbn [embd n_past n_consumed n_sampled last_n_tokens result s_vocab
         logits mem_per_token s_rng s_model s_statics] in Hk.
    rewrite Hd in Hk. cbn [fst snd] in Hk. apply Hk; clear Hk.
    + rewrite Hc1. now rewrite app_assoc.
    + done.
    + exact Hp1.
    + cbn [length]. lia.
    + rewrite length_app. cbn [length]. lia.
    + lia.
    + lia.
    + lia.
    + cbn [length]. lia.
    + done.
    + rewrite Hw, Hw1. done.
    + exact Hr1.
    + exact Hv1.
  - (* tokens of the prompt are consumed *)
    destruct (consume_prompt _ _ embd_inp st1) as [st2| |] eqn:Hc;
      cbn [mbind outcome_bind] in Hbody; [|done..].
    pose proof (consume_prompt_batch _ _ _ _ _ Hc
                  ltac:(rewrite He1; cbn [length]; lia)) as Hb.
    rewrite He1 in Hb. cbn [length] in Hb.
    apply consume_prompt_spec in Hc as (toks & Hcon & Hne); [|lia].
    destruct Hcon as (E1 & E2 & E3 & E4 & E5 & E6 & E7 & E8 & E9 & E10 & E11
                      & E12 & E13 & E14).
    rewrite He1 in E1. cbn [app] in E1.
    assert (n_sampled st = 0) as Hzero by lia.
    assert (ids = []) as -> by (destruct ids; [done|cbn [length] in Hids; lia]).
    assert (Z.of_nat (length toks)
            <= Z.of_nat (length embd_inp) - n_consumed st) as Hlt.
    { rewrite E2, length_take, length_drop. lia. }
    exists [].
    destruct (display_text _ _) as [text vocab'] eqn:Hd in Hbody.
    cbn [embd last] in Hbody.
    assert (iter_state r
            = mk_decode (last_n_tokens st2) (embd st2) (logits st2)
                        (mem_per_token st2) (n_past st2) (n_consumed st2)
                        (n_sampled st2) text (s_rng st2) vocab'
                        (s_model st2) (s_statics st2)) as ->.
    { destruct (last (embd st2)) as [id|]; [|done].
      destruct (decide (id = 0)); injection Hbody as <-; done. }
    pose proof (display_keeps_inv M embd_inp [] [] st st2 toks Hinv) as Hk.
    rewrite Hd in Hk. cbn [fst snd] in Hk. apply Hk; clear Hk.
    + rewrite !app_nil_r, E5, Hc1. rewrite Hc1 in E2.
      replace (Z.to_nat (n_consumed st + Z.of_nat (length toks)))
        with (Z.to_nat (n_consumed st) + length toks)%nat by lia.
      rewrite <- take_take_drop. f_equal. symmetry. exact E2.
    + exact E1.
    + now rewrite E7.
    + lia.
    + cbn [length]. lia.
    + lia.
    + lia.
    + lia.
    + rewrite <- E1. lia.
    + lia.
    + now rewrite E3, Hw1.
    + now rewrite E10.
    + now rewrite E12.
Qed.

Lemma decode_inv_init (M : Mpt) (S : eval_statics) (embd_inp : list Z)
    (st0 : decode_state) :
  decode_init M S = Ret st0 -> decode_inv M embd_inp [] st0.
Proof.
  unfold decode_init. destruct (decide _); [done|].
  destruct (mpt_eval _ _ _ _ _ _ _ _) as [r| |];
    cbn [mbind outcome_bind]; [|done..].
  intros [= <-]. unfold decode_inv.
  cbn [n_consumed n_sampled n_past embd result s_vocab last_n_tokens].
  change (Z.to_nat 0) with 0%nat. rewrite take_0. cbn [app length drop].
  rewrite app_nil_r. repeat split; try done; lia.
Qed.

Lemma decode_inv_head (M : Mpt) (S : eval_statics) (embd_inp : list Z)
    (st0 st : decode_state) :
  Z.of_nat (length embd_inp) + Z.max 0 (Params.n_predict (params M)) < 2 ^ 31 ->
  decode_init M S = Ret st0 ->
  loop_head (params M) embd_inp st0 st ->
  exists ids, decode_inv M embd_inp ids st.
Proof.
  intros Hrange Hinit Hhead. induction Hhead as [|st st' _ IH Hguard Hbody].
  - exists []. eapply decode_inv_init, Hinit.
  - destruct IH as (ids & Hinv).
    apply (decode_inv_step M embd_inp ids st (IterNext st') Hrange Hinv Hguard
             Hbody).
Qed.

(** The invariant holds in every state a run passes. *)
Lemma decode_inv_visits (M : Mpt) (S : eval_statics) (embd_inp : list Z)
    (st0 st : decode_state) :
  Z.of_nat (length embd_inp) + Z.max 0 (Params.n_predict (params M)) < 2 ^ 31 ->
  decode_init M S = Ret st0 ->
  loop_visits (params M) embd_inp st0 st ->
  exists ids, decode_inv M embd_inp ids st.
Proof.
  intros Hrange Hinit [Hhead|(st1 & r & Hhead & Hguard & Hbody & ->)].
  - eapply decode_inv_head; eassumption.
  - destruct (decode_inv_head M S embd_inp st0 st1 Hrange Hinit Hhead)
      as (ids & Hinv).
    eapply decode_inv_step; eassumption.
Qed.

(** The state the loop is left in is one the run has passed. *)
Lemma decode_loop_visits (fuel : nat) (P : Params.t) (embd_inp : list Z)
    (st0 st : decode_state) (e : exit_result) :
  loop_head P embd_inp st0 st ->
  decode_loop fuel P embd_inp st = Some (Ret e) ->
  loop_visits P embd_inp st0 (exit_state e).
Proof.
  revert st. induction fuel as [|fuel IH]; intros st Hhead; [done|].
  cbn [decode_loop]. destruct (decide _) as [Hguard|Hno].
  - destruct (loop_body P embd_inp st) as [[st'|st'|st']| |] eqn:Hbody;
      [| | |done..].
    + apply IH. eapply head_next; eassumption.
    + intros [= <-]. right. exists st, (IterBreak st'). done.
    + intros [= <-]. right. exists st, (IterEvalError st'). done.
  - intros [= <-]. now left.
Qed.

(** X15.  Token accounting.  In every state a run of the decoding loop passes,
    the tokens given to the model so far and those pending in the batch
    add up to the tokens consumed from the prompt and those sampled; the
    counters stay in range: 0 <= n_consumed <= the prompt's length and
    0 <= n_sampled <= max(0, n_predict). *)
Theorem token_accounting (M : Mpt) (S : eval_statics) (embd_inp : list Z)
    (st0 st : decode_state) :
  Z.of_nat (length embd_inp) + Z.max 0 (Params.n_predict (params M)) < 2 ^ 31 ->
  decode_init M S = Ret st0 ->
  loop_visits (params M) embd_inp st0 st ->
  n_past st + Z.of_nat (length (embd st)) = n_consumed st + n_sampled st
  /\ 0 <= n_past st
  /\ 0 <= n_consumed st <= Z.of_nat (length embd_inp)
  /\ 0 <= n_sampled st <= Z.max 0 (Params.n_predict (params M)).
Proof.
  intros Hrange Hinit Hvis.
  destruct (decode_inv_visits M S embd_inp st0 st Hrange Hinit Hvis)
    as (ids & Hids & Hcons & Hsamp & Hfirst & Hpast0 & Hacc & _).
  repeat split; lia.
Qed.

(** X16.  The prompt comes first.  No token is sampled before the whole prompt
    is consumed; a batch never has more than max(1, n_batch) tokens, and
    once sampling has begun every batch is the one token just sampled. *)
Theorem prompt_before_sampling (M : Mpt) (S : eval_statics)
    (embd_inp : list Z) (st0 st : decode_state) :
  Z.of_nat (length embd_inp) + Z.max 0 (Params.n_predict (params M)) < 2 ^ 31 ->
  decode_init M S = Ret st0 ->
  loop_visits (params M) embd_inp st0 st ->
  (0 < n_sampled st ->
   n_consumed st = Z.of_nat (length embd_inp) /\ length (embd st) = 1%nat)
  /\ Z.of_nat (length (embd st)) <= Z.max 1 (Params.n_batch (params M)).
Proof.
  intros Hrange Hinit Hvis.
  destruct (decode_inv_visits M S embd_inp st0 st Hrange Hinit Hvis)
    as (ids & _ & _ & _ & Hfirst & _ & _ & _ & Hbatch & Hone & _).
  split; [|exact Hbatch]. intros Hs. split; [now apply Hfirst|now apply Hone].
Qed.

(** X17.  The window and the pending batch are the end of one history.  In every
    state a run passes there are ids, as many as were sampled, such that
    with the history being the consumed part of the prompt followed by
    those ids, the window holds the last n_ctx entries of n_ctx zeros
    followed by the history, and the pending batch is the history from
    position n_past on. *)
Theorem window_recent_history (M : Mpt) (S : eval_statics)
    (embd_inp : list Z) (st0 st : decode_state) :
  Z.of_nat (length embd_inp) + Z.max 0 (Params.n_predict (params M)) < 2 ^ 31 ->
  decode_init M S = Ret st0 ->
  loop_visits (params M) embd_inp st0 st ->
  exists ids,
    Z.of_nat (length ids) = n_sampled st
    /\ let hist := take (Z.to_nat (n_consumed st)) embd_inp ++ ids in
       last_n_tokens st
       = drop (length hist)
              (replicate (Z.to_nat (Params.n_ctx (params M))) 0 ++ hist)
       /\ embd st = drop (Z.to_nat (n_past st)) hist.
Proof.
  intros Hrange Hinit Hvis.
  destruct (decode_inv_visits M S embd_inp st0 st Hrange Hinit Hvis)
    as (ids & Hids & _ & _ & _ & _ & _ & Hembd & _ & _ & _ & _ & Hwin).
  exists ids. split; [exact Hids|]. split; [exact Hwin|exact Hembd].
Qed.

(** X18.  The text returned.  A call that does not end in an evaluation error
    returns the text of the consumed prompt tokens followed by the text of
    the sampled ids, each id looked up in the vocabulary the object had
    when the call began (a missing id gives the empty string); when the
    loop is left at a positive limit the whole prompt was consumed and
    n_predict ids were sampled.  A call that ends in an evaluation error
    returns the fixed string. *)
Theorem output_text (M : Mpt) (S : eval_statics) (embd_inp : list Z)
    (text : string) (e : exit_result) :
  Z.of_nat (length embd_inp) + Z.max 0 (Params.n_predict (params M)) < 2 ^ 31 ->
  ProcessTokenizedMessage M S embd_inp = Ret (text, e) ->
  match e with
  | ExitEvalError _ => text = "mpt_eval error"%string
  | _ =>
      exists ids,
        Z.of_nat (length ids) = n_sampled (exit_state e)
        /\ text = append_tokens (vocab M) EmptyString
                    (take (Z.to_nat (n_consumed (exit_state e))) embd_inp
                     ++ ids)
        /\ match e with
           | ExitLimit st =>
               0 < Params.n_predict (params M) ->
               n_sampled st = Params.n_predict (params M)
               /\ n_consumed st = Z.of_nat (length embd_inp)
           | _ => True
           end
  end.
Proof.
  intros Hrange. unfold ProcessTokenizedMessage.
  destruct (decode_init M S) as [st0| |] eqn:Hinit;
    cbn [mbind outcome_bind]; [|done..].
  destruct (decode_loop _ _ _ st0) as [[e'| |]|] eqn:Hloop;
    cbn [mbind outcome_bind]; [|done..].
  intros Hret.
  assert (e' = e) as -> by (destruct e'; now injection Hret).
  pose proof (decode_loop_visits _ _ _ st0 st0 e (head_first _ _ _) Hloop)
    as Hvis.
  destruct (decode_inv_visits M S embd_inp st0 _ Hrange Hinit Hvis)
    as (ids & Hids & _ & _ & Hfirst & _ & _ & _ & _ & _ & Hres & _).
  pose proof (decode_init_spec M S st0 Hinit) as (_ & _ & _ & _ & Hc0 & Hs0).
  pose proof (decode_loop_leaves _ _ _ st0 e ltac:(lia) Hloop) as Hleave.
  destruct e as [st|st|st]; cbn [exit_state] in *.
  - injection Hret as <-. exists ids. split; [exact Hids|].
    split; [exact Hres|]. intros Hpos.
    destruct Hleave as (_ & Heq & _). specialize (Heq ltac:(lia)).
    split; [exact Heq|]. apply Hfirst. lia.
  - injection Hret as <-. exists ids. done.
  - now injection Hret as <-.
Qed.

(** X19.  With a limit of zero (or less) the call returns the empty string at
    once: no token of the prompt is consumed, the model is not evaluated
    beyond the warm-up call, and the locals are those of the start. *)
Theorem zero_predict_ignores_prompt (M : Mpt) (S : eval_statics)
    (embd_inp : list Z) (st0 : decode_state) :
  decode_init M S = Ret st0 ->
  Params.n_predict (params M) <= 0 ->
  ProcessTokenizedMessage M S embd_inp = Ret (EmptyString, ExitLimit st0)
  /\ n_consumed st0 = 0 /\ n_past st0 = 0.
Proof.
  intros Hinit Hp.
  pose proof (decode_init_spec M S st0 Hinit)
    as (_ & _ & _ & Hp0 & Hc0 & Hs0).
  split; [|done].
  unfold ProcessTokenizedMessage. rewrite Hinit. cbn [mbind outcome_bind].
  unfold decode_fuel. cbn [decode_loop].
  rewrite decide_False by lia. cbn [mbind outcome_bind exit_state].
  f_equal. f_equal.
  unfold decode_init in Hinit. destruct (decide _); [done|].
  destruct (mpt_eval _ _ _ _ _ _ _ _); cbn [mbind outcome_bind] in Hinit;
    [|done..].
  now injection Hinit as <-.
Qed.

(** X14.  What the constructor makes of the parameters: a negative n_predict
    becomes 0, n_ctx is kept, and the model's n_ctx, which the loader may
    lower to max_seq_len, never exceeds it, whether the load succeeded or
    not. *)
Theorem ctor_normalises (_params : Params.t) (M : Mpt) :
  Mpt_ctor _params = Ret M ->
  Params.n_predict (params M) = Z.max 0 (Params.n_predict _params)
  /\ Params.n_ctx (params M) = Params.n_ctx _params
  /\ n_ctx (hparams (model M)) <= Params.n_ctx (params M).
Proof.
  unfold Mpt_ctor. cbv zeta.
  destruct (mpt_model_load _ _ _) as [[[err m] v]| |] eqn:Hl;
    cbn [mbind outcome_bind]; [|done..].
  apply mpt_model_load_n_ctx in Hl.
  assert (n_ctx (hparams m) <= Params.n_ctx _params) as Hn.
  { destruct Hl as [-> | ->]; cbn [hparams n_ctx]; lia. }
  assert ((if decide (Params.n_predict _params < 0) then 0
           else Params.n_predict _params)
          = Z.max 0 (Params.n_predict _params)) as Hmax
    by (destruct (decide _); lia).
  destruct err; intros [= <-]; cbn [params model Params.n_predict Params.n_ctx];
    done.
Qed.

(** X20.  An empty prompt.  The first round evaluates nothing and samples at
    once: the token comes from the logits that the warm-up call on the
    tokens 0, 1, 2, 3 left for its last token, against a window of zeros,
    and the cache position is still 0. *)
Theorem empty_prompt_samples_warmup (M : Mpt) (S : eval_statics)
    (st0 : decode_state) (res : iter_result) :
  decode_init M S = Ret st0 ->
  loop_body (params M) [] st0 = Ret res ->
  exists r,
    mpt_eval S (model M) (Params.n_threads (params M)) 0 [0; 1; 2; 3] []
             false 0 = Ret r
    /\ embd (iter_state res)
       = [(gpt_sample_top_k_top_p_repeat
             (vocab M)
             (drop (length (r_embd_w r)
                    - Z.to_nat (n_vocab (hparams (r_model r))))
                   (r_embd_w r))
             (replicate (Z.to_nat (Params.n_ctx (params M))) 0)
             (Params.top_k (params M)) (Params.top_p (params M))
             (Params.temp (params M)) (Params.repeat_last_n (params M))
             (Params.repeat_penalty (params M)) (rng M)).1]
    /\ n_sampled (iter_state res) = 1
    /\ n_consumed (iter_state res) = 0
    /\ n_past (iter_state res) = 0.
Proof.
  unfold decode_init. destruct (decide _); [done|].
  destruct (mpt_eval _ _ _ _ _ _ _ _) as [r| |] eqn:Hr;
    cbn [mbind outcome_bind]; [|done..].
  intros [= <-] Hbody. exists r. split; [done|].
  unfold loop_body, predict_step in Hbody.
  cbn [embd] in Hbody. rewrite decide_True in Hbody by done.
  cbn [mbind outcome_bind negb n_consumed length] in Hbody.
  rewrite decide_True in Hbody by done.
  unfold sample_step in Hbody. cbv zeta in Hbody.
  cbn [s_model logits s_vocab last_n_tokens s_rng embd n_past n_consumed
       n_sampled mem_per_token result s_statics] in Hbody.
  destruct (decide _) in Hbody; [|done].
  destruct (gpt_sample_top_k_top_p_repeat _ _ _ _ _ _ _ _ _) as [id rng'].
  destruct (window_push _ id) as [w| |]; cbn [mbind outcome_bind] in Hbody;
    [|done..].
  cbn [s_model logits s_vocab last_n_tokens s_rng embd n_past n_consumed
       n_sampled mem_per_token result s_statics app] in Hbody.
  destruct (display_text _ _) as [text vocab'] in Hbody.
  cbn [embd last] in Hbody.
  destruct (decide (id = 0)); injection Hbody as <-; done.
Qed.

End DecodeMore.

(** ** The chunks of LogPerplexity *)

Section PerplexityFacts.
Context `{FL : Floats} `{GL : !GgmlLoad} `{GC : !GgmlCompute} `{HO : Host}
        `{SA : !Sampling} `{MH : !MptHeader}.

(** X21.  The number of chunks: the whole windows of n_ctx tokens the input
    holds, so that every chunk lies inside the input and the tokens after
    the last whole window are never evaluated; none at all when n_ctx is
    negative, and no defined result when it is zero. *)
Theorem chunk_count (embd_inp : list Z) (n_ctx : Z) :
  Z.of_nat (length embd_inp) < 2 ^ 31 ->
  - 2 ^ 31 <= n_ctx < 2 ^ 31 ->
  match n_chunk_of embd_inp n_ctx with
  | Ret n_chunk =>
      n_ctx <> 0
      /\ (n_ctx < 0 -> n_chunk = 0)
      /\ (0 < n_ctx ->
          n_chunk = Z.of_nat (length embd_inp) / n_ctx
          /\ forall i, 0 <= i < n_chunk ->
                       (i + 1) * n_ctx <= Z.of_nat (length embd_inp))
  | Undef => n_ctx = 0
  | Throw => False
  end.
Proof.
  intros Hlen Hctx. unfold n_chunk_of. cbv zeta.
  rewrite (size_t_small (Z.of_nat (length embd_inp))) by lia.
  destruct (decide (n_ctx = 0)) as [->|Hne].
  { now rewrite decide_True. }
  destruct (decide (0 < n_ctx)) as [Hpos|Hneg].
  - rewrite (size_t_small n_ctx) by lia. rewrite decide_False by lia.
    assert (0 <= Z.of_nat (length embd_inp) / n_ctx
            <= Z.of_nat (length embd_inp)) as Hq.
    { split; [apply Z.div_pos; lia|].
      apply Z.div_le_upper_bound; [lia|]. nia. }
    rewrite int32_small by lia.
    split; [done|]. split; [lia|]. intros _. split; [done|].
    intros i Hi.
    pose proof (Z.mul_div_le (Z.of_nat (length embd_inp)) n_ctx Hpos). nia.
  - assert (Machine.size_t n_ctx = 2 ^ 64 + n_ctx) as ->.
    { unfold Machine.size_t.
      rewrite <- (Z.mod_add n_ctx 1 (2 ^ 64)) by lia.
      rewrite Z.mod_small by lia. lia. }
    rewrite decide_False by lia.
    rewrite Z.div_small by lia.
    split; [done|]. split; [done|]. lia.
Qed.

Lemma gather_spec (k : nat) (p : Z) (embd_inp : list Z) (batch_start : Z)
    (embd : list Z) :
  0 <= batch_start + p ->
  batch_start + p + Z.of_nat k <= Z.of_nat (length embd_inp) ->
  Z.of_nat (length embd_inp) < 2 ^ 31 ->
  gather k p embd_inp batch_start embd
  = Ret (embd ++ take k (drop (Z.to_nat (batch_start + p)) embd_inp)).
Proof.
  revert p embd. induction k as [|k IH]; intros p embd H0 H1 Hlen.
  - cbn [gather take]. now rewrite app_nil_r.
  - cbn [gather]. rewrite int32_small by lia.
    rewrite decide_False by lia.
    destruct (lookup_lt_is_Some_2 embd_inp (Z.to_nat (batch_start + p))
                ltac:(lia)) as [tok Htok].
    rewrite Htok, IH by lia.
    rewrite (drop_S _ _ _ Htok). cbn [take]. rewrite <- app_assoc.
    cbn [app].
    replace (Z.to_nat (batch_start + (p + 1)))
      with (Datatypes.S (Z.to_nat (batch_start + p))) by lia.
    reflexivity.
Qed.

Lemma perplexity_batch_spec (P : Params.t) (embd_inp : list Z) (start j : Z) :
  let n_batch := Params.n_batch P in
  let n_ctx := Params.n_ctx P in
  let size := Z.min (n_ctx - j * n_batch) n_batch in
  0 < n_batch -> 0 < n_ctx ->
  0 <= start -> start + n_ctx <= Z.of_nat (length embd_inp) ->
  Z.of_nat (length embd_inp) < 2 ^ 31 ->
  0 <= j -> j * n_batch < n_ctx ->
  perplexity_batch P embd_inp start j
  = Ret (mk_batch size (j * size)
           (take (Z.to_nat size)
                 (drop (Z.to_nat (start + j * n_batch)) embd_inp)))
  /\ 1 <= size
  /\ Z.of_nat (length (take (Z.to_nat size)
                         (drop (Z.to_nat (start + j * n_batch)) embd_inp)))
     = size
  /\ (j * size = j * n_batch <-> j = 0 \/ (j + 1) * n_batch <= n_ctx).
Proof.
  intros n_batch n_ctx size Hb Hc Hs0 Hs1 Hlen Hj0 Hj1.
  assert (0 <= j * n_batch) by nia.
  assert (1 <= size <= n_batch) as Hsize by lia.
  assert (0 <= j * size <= j * n_batch) as Hjs by nia.
  split; [|split; [lia|split]].
  - unfold perplexity_batch. cbv zeta. fold n_batch n_ctx.
    rewrite (int32_small (j * n_batch)) by lia.
    rewrite (int32_small (start + n_ctx)) by lia.
    rewrite (int32_small (start + j * n_batch)) by lia.
    replace (start + n_ctx - (start + j * n_batch))
      with (n_ctx - j * n_batch) by lia.
    rewrite (int32_small (n_ctx - j * n_batch)) by lia.
    fold size. rewrite (int32_small (j * size)) by lia.
    rewrite gather_spec by lia. cbn [mbind outcome_bind app].
    now rewrite Z.add_0_r.
  - rewrite length_take, length_drop. lia.
  - split.
    + intros Heq. destruct (decide (j = 0)) as [->|Hne]; [now left|right].
      assert (size = n_batch) by nia. lia.
    + intros [->|Hfull]; [lia|].
      assert (size = n_batch) by lia. nia.
Qed.

(** X22.  The batches of a chunk.  The batch j of the chunk that begins at start
    holds the tokens from start + j * n_batch on, n_batch of them or as
    many as the chunk has left, and is evaluated at cache position
    j * (its own size): that is the number of chunk tokens evaluated before
    it, j * n_batch, only for the first batch and for full batches. *)
Theorem batch_plan (P : Params.t) (embd_inp : list Z) (start j : Z) :
  let n_batch := Params.n_batch P in
  let n_ctx := Params.n_ctx P in
  let size := Z.min (n_ctx - j * n_batch) n_batch in
  0 < n_batch -> 0 < n_ctx ->
  0 <= start -> start + n_ctx <= Z.of_nat (length embd_inp) ->
  Z.of_nat (length embd_inp) < 2 ^ 31 ->
  0 <= j -> j * n_batch < n_ctx ->
  perplexity_batch P embd_inp start j
  = Ret (mk_batch size (j * size)
           (take (Z.to_nat size)
                 (drop (Z.to_nat (start + j * n_batch)) embd_inp)))
  /\ 1 <= size
  /\ Z.of_nat (length (take (Z.to_nat size)
                         (drop (Z.to_nat (start + j * n_batch)) embd_inp)))
     = size
  /\ (j * size = j * n_batch <-> j = 0 \/ (j + 1) * n_batch <= n_ctx).
Proof.
  intros n_batch n_ctx size. apply perplexity_batch_spec.
Qed.

Lemma eval_layers_keeps (n_past N : Z) (ils : list Z)
    (model model' : mpt_model) (inpL inpL' : list float) :
  eval_layers n_past N (model, inpL) ils = Ret (model', inpL') ->
  hparams model' = hparams model.
Proof.
  revert model inpL. induction ils as [|il ils IH]; intros model inpL.
  - now intros [= <- _].
  - cbn [eval_layers].
    destruct (eval_layer n_past N (model, inpL) il) as [[m1 x1]| |] eqn:H1;
      cbn [mbind outcome_bind]; [|done..].
    intros Hrest%IH.
    apply eval_layer_keeps_ok in H1 as (Hhp & _). congruence.
Qed.

(** An evaluation leaves the hyperparameters of the model as they are. *)
Lemma mpt_eval_keeps_hparams (S : eval_statics) (model : mpt_model)
    (n_threads n_past : Z) (embd_inp : list Z) (embd_w : list float)
    (logits_all : bool) (mem_per_token : Z) (r : eval_result) :
  mpt_eval S model n_threads n_past embd_inp embd_w logits_all mem_per_token
  = Ret r ->
  hparams (r_model r) = hparams model.
Proof.
  intros Hr. apply mpt_eval_cases in Hr as (S' & ok & _ & Hcase).
  destruct Hcase as [[_ ->]|[_ (m & d & o & Hf & _ & -> & _)]]; [done|].
  cbn [r_model]. unfold forward in Hf. cbv zeta in Hf.
  destruct (eval_layers _ _ _ _) as [[m1 x1]| |] eqn:Hl;
    cbn [mbind outcome_bind] in Hf; [|done..].
  injection Hf as <- _. eapply eval_layers_keeps, Hl.
Qed.

Lemma eval_batches_count (P : Params.t) (nv : Z) (embd_inp : list Z)
    (start : Z) :
  let n_batch := Params.n_batch P in
  let n_ctx := Params.n_ctx P in
  0 < n_batch -> 0 < n_ctx ->
  0 <= start -> start + n_ctx <= Z.of_nat (length embd_inp) ->
  Z.of_nat (length embd_inp) < 2 ^ 31 ->
  0 <= nv -> nv * n_ctx < 2 ^ 31 ->
  forall (k : nat) (j : Z) (st st' : ppl_state) (logits out : list float),
    0 <= j ->
    n_ctx <= (j + Z.of_nat k) * n_batch ->
    (k <> 0%nat -> (j + Z.of_nat k - 1) * n_batch < n_ctx) ->
    nv = n_vocab (hparams (p_model st)) ->
    Z.of_nat (length logits) = nv * Z.min (j * n_batch) n_ctx ->
    eval_batches k j P nv embd_inp start st logits
    = Ret (Some out, st') ->
    Z.of_nat (length out) = nv * n_ctx
    /\ hparams (p_model st') = hparams (p_model st).
Proof.
  intros n_batch n_ctx Hb Hc Hs0 Hs1 Hlen Hv Hvc.
  induction k as [|k IH]; intros j st st' logits out Hj Hup Hlow Hnv Hlog.
  - cbn [eval_batches]. intros [= <- <-]. split; [|done].
    rewrite Hlog. f_equal. lia.
  - cbn [eval_batches]. specialize (Hlow ltac:(done)).
    assert (j * n_batch < n_ctx) as Hjn by nia.
    destruct (perplexity_batch_spec P embd_inp start j Hb Hc Hs0 Hs1 Hlen Hj Hjn)
      as (-> & Hsize & Hblen & _).
    fold n_batch n_ctx in Hsize, Hblen |- *.
    set (size := Z.min (n_ctx - j * n_batch) n_batch) in *.
    cbn [mbind outcome_bind b_n_past b_embd b_size].
    set (toks := take (Z.to_nat size) _) in *.
    destruct (mpt_eval _ _ _ _ toks _ _ _) as [r| |] eqn:Hr;
      cbn [mbind outcome_bind]; [|done..].
    pose proof (mpt_eval_keeps_hparams _ _ _ _ _ _ _ _ _ Hr) as Hhp.
    apply mpt_eval_cases in Hr as (S' & ok & _ & Hcase).
    destruct Hcase as [[_ ->]|[_ (m & d & o & _ & Hcopy & -> & _)]]; [done|].
    cbn [r_ok negb r_embd_w r_statics r_model r_mem_per_token] in *.
    rewrite Hblen, (int32_small size), <- Hnv in Hcopy by lia.
    assert (nv * size <= nv * n_ctx) by nia.
    apply copy_logits_ok in Hcopy as [_ Hout]; [|lia..].
    unfold insert_range.
    assert (0 <= nv * size) by (apply Z.mul_nonneg_nonneg; lia).
    replace (size * nv) with (nv * size) by ring.
    rewrite (int32_small (nv * size)) by lia.
    destruct (decide (0 <= nv * size <= Z.of_nat (length o))) as [_|Hno];
      [|lia].
    cbn [mbind outcome_bind].
    intros Hrest. apply IH in Hrest.
    + destruct Hrest as [H1 H2]. split; [exact H1|].
      cbn [p_model] in H2. congruence.
    + lia.
    + lia.
    + intros _. lia.
    + cbn [p_model]. congruence.
    + rewrite length_app, length_take. nia.
Qed.

(** X23.  The logits of a chunk.  When every batch of a chunk evaluates, the
    logits collected for the chunk are n_vocab for each of its n_ctx
    tokens, n_vocab * n_ctx in all, and the hyperparameters of the model
    are unchanged. *)
Theorem chunk_logits_count (P : Params.t) (embd_inp : list Z) (i : Z)
    (st st' : ppl_state) (out : list float) :
  let n_batch := Params.n_batch P in
  let n_ctx := Params.n_ctx P in
  let n_vocab := n_vocab (hparams (p_model st)) in
  0 < n_batch -> 0 < n_ctx -> n_ctx + n_batch < 2 ^ 31 ->
  0 <= i -> (i + 1) * n_ctx <= Z.of_nat (length embd_inp) ->
  Z.of_nat (length embd_inp) < 2 ^ 31 ->
  0 <= n_vocab -> n_vocab * n_ctx < 2 ^ 31 ->
  eval_chunk P n_vocab embd_inp i st = Ret (Some out, st') ->
  Z.of_nat (length out) = n_vocab * n_ctx
  /\ hparams (p_model st') = hparams (p_model st).
Proof.
  intros n_batch n_ctx n_vocab Hb Hc Hsum Hi Hin Hlen Hv Hvc.
  unfold eval_chunk, int_div. cbv zeta. fold n_batch n_ctx.
  assert (0 <= i * n_ctx) by nia.
  rewrite (int32_small (i * n_ctx)) by nia.
  rewrite (int32_small (n_ctx + n_batch)) by lia.
  rewrite (int32_small (n_ctx + n_batch - 1)) by lia.
  rewrite decide_False by lia. cbn [mbind outcome_bind].
  rewrite Z.quot_div_nonneg by lia.
  set (q := (n_ctx + n_batch - 1) / n_batch).
  pose proof (Z.mul_div_le (n_ctx + n_batch - 1) n_batch Hb) as Hq1.
  pose proof (Z.mul_succ_div_gt (n_ctx + n_batch - 1) n_batch Hb) as Hq2.
  fold q in Hq1, Hq2.
  assert (1 <= q <= n_ctx) as Hq by nia.
  rewrite (int32_small q) by lia.
  intros He.
  eapply (eval_batches_count P n_vocab embd_inp (i * n_ctx) Hb Hc
            ltac:(lia) ltac:(lia) Hlen Hv Hvc (Z.to_nat q) 0 st st' [] out);
    try done; try lia.
  cbn [length]. lia.
Qed.

End PerplexityFacts.

(** ** The cache after a forward pass *)

Section CacheWrites.
Context `{FL : Floats} `{GC : !GgmlCompute} `{HO : Host}.








End CacheWrites.

(** ** The clamp of the fused projection *)

Section ClampedLayer.
Context `{FL : Floats} `{GC : !GgmlCompute}.




End ClampedLayer.

(** ** The added theorems on the small configuration *)

Section ExamplesMore.
Import Fixture FixtureRuns.

(** The call on three tokens at 200 MB per token. *)
Lemma eval_5_6_7_fail_eq :
  mpt_eval eval_statics_init toy_model 1 0 [5; 6; 7] [] false 200000000
  = Ret eval_5_6_7_fail.
Proof.
  exact (mpt_eval_realloc_fails eval_statics_init toy_model 1 0 [5; 6; 7] []
           false 200000000 660000000 ltac:(now vm_compute)
           ltac:(now vm_compute) ltac:(now vm_compute) ltac:(now vm_compute)
           eq_refl eq_refl).
Qed.

(** The call that has no 660 MB fails for that reason alone. *)
Lemma eval_false_only_realloc_witness :
  0 < 200000000 /\ buf_size eval_statics_init < 600000000
  /\ exists sz,
       Double.mul_1_1 600000000 = Ret sz /\ realloc_ok sz = false
       /\ eval_5_6_7_fail
          = mk_eval_result false (mk_statics sz true) toy_model []
                           200000000 None.
Proof.
  exact (eval_false_only_realloc eval_statics_init toy_model 1 0 [5; 6; 7] []
           false 200000000 eval_5_6_7_fail eval_5_6_7_fail_eq eq_refl).
Defined.

(** The failed call leaves the larger size in [buf_size]. *)
Lemma buffer_never_shrinks_witness :
  buf_size eval_statics_init <= buf_size (r_statics eval_5_6_7_fail).
Proof.
  exact (buffer_never_shrinks eval_statics_init toy_model 1 0 [5; 6; 7] []
           false 200000000 eval_5_6_7_fail eval_5_6_7_fail_eq).
Defined.

(** The call on 5, 6 returns the same whether the output vector was empty
    or held three stale values. *)
Lemma eval_output_fresh_witness :
  mpt_eval eval_statics_init toy_model 1 0 [5; 6] [9; 9; 9] false 0
  = Ret eval_5_6.
Proof.
  exact (eval_output_fresh eval_statics_init toy_model 1 0 [5; 6] []
           [9; 9; 9] false 0 eval_5_6 ltac:(now vm_compute)
           ltac:(now vm_compute) ltac:(now vm_compute) eq_refl eq_refl).
Defined.

(** On 5, 6 the logits of the last token are the last four of the eight. *)
Lemma last_logits_of_all_witness :
  r_embd_w eval_5_6 = drop 4 (r_embd_w eval_5_6_all).
Proof.
  exact (proj1 (proj2 (last_logits_of_all eval_statics_init toy_model 1 0
                         [5; 6] [] [] 0 eval_5_6_all eval_5_6
                         ltac:(now vm_compute) ltac:(now vm_compute)
                         ltac:(now vm_compute) eq_refl eq_refl)
                      eq_refl)).
Defined.

(** The pass on the token 7 at position 2 leaves the row of position 1 in
    layer 1, which the pass on 5, 6 wrote, as it is. *)
Lemma forward_cache_frame_witness :
  memory_k forward_7.1 !! Z.to_nat (spec_offset toy_hp 1 1 + 0)
  = memory_k forward_5_6.1 !! Z.to_nat (spec_offset toy_hp 1 1 + 0)
  /\ memory_v forward_7.1 !! Z.to_nat (spec_offset toy_hp 1 1 + 0)
     = memory_v forward_5_6.1 !! Z.to_nat (spec_offset toy_hp 1 1 + 0).
Proof.
  exact (proj2 (proj2 (proj2 (proj2
           (forward_cache_frame forward_5_6.1 forward_7.1 2 [7] forward_7.2
              ltac:(repeat split; now vm_compute) ltac:(now vm_compute)
              ltac:(now vm_compute) ltac:(now vm_compute) eq_refl))))
           1 1 0 ltac:(now vm_compute) ltac:(now vm_compute)
           ltac:(vm_compute; intros [H _]; exact (H eq_refl))
           ltac:(now vm_compute)).
Defined.

(** The vocabulary block of the file: id 2 is "c" and "c" is id 2. *)
Lemma vocab_block_round_trip_witness :
  exists vocab',
    load_vocab file_hp (mk_vocab ∅ ∅)
               (IStream.mk (file_vocab ++ file_record) false)
    = Ret (vocab', IStream.mk file_record false)
    /\ id_to_token vocab' !! 2 = Some "c"%string
    /\ token_to_id vocab' !! "c"%string = Some 2.
Proof.
  destruct (vocab_block_round_trip file_hp
              (mk_vocab ∅ ∅) [[x61]; [x62]; [x63]; [x64]] file_record
              eq_refl ltac:(repeat constructor)
              ltac:(repeat (constructor; [by eexists|]); constructor))
    as (vocab' & H1 & H2 & H3 & _).
  exists vocab'. split; [exact H1|].
  split.
  - destruct (H2 2%nat [x63] eq_refl) as (t & Ht & Hid).
    vm_compute in Ht. injection Ht as <-. exact Hid.
  - apply (H3 2%nat [x63] "c"%string eq_refl eq_refl).
    intros [|[|[|[|j]]]] w' Hj Hw; [lia..| |now simpl in Hj].
    injection Hj as <-. now vm_compute in Hw.
Defined.

(** A block whose second word is the byte ff. *)
Lemma invalid_word_throws_witness :
  load_vocab file_hp (mk_vocab ∅ ∅)
             (IStream.mk (le32 1 ++ [x61] ++ le32 1 ++ [xff]) false)
  = Throw.
Proof.
  exact (invalid_word_throws file_hp (mk_vocab ∅ ∅) [[x61]] [xff] [] []
           ltac:(repeat constructor)
           ltac:(repeat (constructor; [by eexists|]); constructor)
           ltac:(now vm_compute) eq_refl ltac:(now vm_compute)).
Defined.

(** A file that begins with the word 7. *)
Lemma bad_magic_rejected_witness :
  mpt_model_load (Some (le32 7 ++ file_vocab)) model0 (mk_vocab ∅ ∅)
  = Ret (Some BadMagic, model0, mk_vocab ∅ ∅).
Proof.
  exact (bad_magic_rejected (le32 7) file_vocab model0 (mk_vocab ∅ ∅) eq_refl
           ltac:(now vm_compute)).
Defined.

(** Configured with a context of 32, the model the file gives has the 16
    of its max_seq_len. *)
Lemma load_bounds_n_ctx_witness :
  n_ctx (hparams loaded_32.1.2) <= 32
  /\ (loaded_32.1.2 = model_32
      \/ n_ctx (hparams loaded_32.1.2) = Z.min 16 32).
Proof.
  exact (load_bounds_n_ctx (Some toy_file) model_32 loaded_32.1.2
           (mk_vocab ∅ ∅) loaded_32.2 loaded_32.1.1 eq_refl).
Defined.

(** The record of the file fills the tensor and keeps its shape. *)
Lemma weights_keep_shape_witness :
  registry_same_shape registry weights_toy.1.1.2 /\ 0 <= weights_toy.1.2.
Proof.
  exact (weights_keep_shape 5 registry weights_toy.1.1.2 0 0 weights_toy.1.2
           weights_toy.2 (IStream.open file_record) weights_toy.1.1.1
           eq_refl).
Defined.

(** Five stray bytes end the load in success. *)
Lemma short_tail_ends_load_witness :
  load_weights 1 registry 3 40 (IStream.mk [x01; x02; x03; x04; x05] false)
  = Some (Ret (None, registry, 3, 40)).
Proof.
  exact (short_tail_ends_load 0 registry 3 40
           (IStream.mk [x01; x02; x03; x04; x05] false)
           ltac:(simpl; lia)).
Defined.

(** The record with two of its four payload bytes: the load succeeds with
    the two bytes in front of two that were there. *)
Lemma truncated_payload_accepted_witness :
  load_weights 2 registry 0 0 (IStream.open file_record_cut)
  = Some (Ret (None,
               <["transformer.wte.weight"%string :=
                   mk_tensor 2 2 4 [xaa; xbb; x00; x00]]> registry,
               1, 4)).
Proof.
  exact (truncated_payload_accepted registry (IStream.open file_record_cut)
           (IStream.mk [xaa; xbb] false) wte_header (new_tensor 2 2 4)
           eq_refl eq_refl eq_refl eq_refl ltac:(now vm_compute) eq_refl
           ltac:(now vm_compute) ltac:(now vm_compute) 0%nat 0 0).
Defined.

(** A record that declares three dimensions. *)
Lemma three_dims_undefined_witness :
  load_weights 1 registry 0 0
               (IStream.mk (le32 3 ++ le32 1 ++ le32 0 ++ [x61]) false)
  = Some Undef.
Proof.
  exact (three_dims_undefined 0 registry 0 0 (le32 3) (le32 1) (le32 0) [x61]
           eq_refl eq_refl eq_refl ltac:(now vm_compute)).
Defined.

(** The run on 7, 3 with a limit of three ends in a state the loop has
    passed. *)
Lemma exit_talk_visited :
  loop_visits (params mpt_talk) [7; 3] state_talk (exit_state exit_talk).
Proof.
  exact (decode_loop_visits (decode_fuel (params mpt_talk) [7; 3])
           (params mpt_talk) [7; 3] state_talk state_talk exit_talk
           (head_first _ _ _) eq_refl).
Qed.

(** In that state four tokens were evaluated and one is pending, two came
    from the prompt and three were sampled. *)
Lemma token_accounting_witness :
  n_past (exit_state exit_talk)
  + Z.of_nat (length (embd (exit_state exit_talk)))
  = n_consumed (exit_state exit_talk) + n_sampled (exit_state exit_talk)
  /\ 0 <= n_past (exit_state exit_talk)
  /\ 0 <= n_consumed (exit_state exit_talk) <= 2
  /\ 0 <= n_sampled (exit_state exit_talk) <= 3.
Proof.
  exact (token_accounting mpt_talk eval_statics_init [7; 3] state_talk
           (exit_state exit_talk) ltac:(now vm_compute) eq_refl
           exit_talk_visited).
Defined.

(** Three tokens were sampled there: the prompt is used up and the batch
    is the one token sampled last. *)
Lemma prompt_before_sampling_witness :
  (0 < n_sampled (exit_state exit_talk) ->
   n_consumed (exit_state exit_talk) = 2
   /\ length (embd (exit_state exit_talk)) = 1%nat)
  /\ Z.of_nat (length (embd (exit_state exit_talk))) <= 8.
Proof.
  exact (prompt_before_sampling mpt_talk eval_statics_init [7; 3] state_talk
           (exit_state exit_talk) ltac:(now vm_compute) eq_refl
           exit_talk_visited).
Defined.

(** The window 3, 1, 2, 3 is the end of 0, 0, 0, 0, 7, 3 and three sampled
    ids, the pending 3 the last of them. *)
Lemma window_recent_history_witness :
  exists ids,
    Z.of_nat (length ids) = n_sampled (exit_state exit_talk)
    /\ last_n_tokens (exit_state exit_talk)
       = drop (length ([7; 3] ++ ids)) ([0; 0; 0; 0] ++ [7; 3] ++ ids)
    /\ embd (exit_state exit_talk) = drop 4 ([7; 3] ++ ids).
Proof.
  exact (window_recent_history mpt_talk eval_statics_init [7; 3] state_talk
           (exit_state exit_talk) ltac:(now vm_compute) eq_refl
           exit_talk_visited).
Defined.

(** The text of that run: the prompt's "x", "d" and three sampled
    tokens. *)
Lemma output_text_witness :
  exists ids,
    Z.of_nat (length ids) = n_sampled (exit_state exit_talk)
    /\ "xdbcd"%string = append_tokens toy_vocab EmptyString ([7; 3] ++ ids)
    /\ (0 < Params.n_predict (params mpt_talk) ->
        n_sampled (exit_state exit_talk) = 3
        /\ n_consumed (exit_state exit_talk) = 2).
Proof.
  exact (output_text mpt_talk eval_statics_init [7; 3] "xdbcd"
           exit_talk ltac:(now vm_compute) eq_refl).
Defined.

(** With a limit of zero the prompt 7, 3 gives the empty string. *)
Lemma zero_predict_ignores_prompt_witness :
  ProcessTokenizedMessage mpt_mute eval_statics_init [7; 3]
  = Ret (EmptyString, ExitLimit state_talk)
  /\ n_consumed state_talk = 0 /\ n_past state_talk = 0.
Proof.
  exact (zero_predict_ignores_prompt mpt_mute eval_statics_init [7; 3]
           state_talk eq_refl ltac:(now vm_compute)).
Defined.

(** An n_predict of -3 becomes 0. *)
Lemma ctor_normalises_witness :
  Params.n_predict (params mpt_neg) = Z.max 0 (-3)
  /\ Params.n_ctx (params mpt_neg) = 4
  /\ n_ctx (hparams (model mpt_neg)) <= Params.n_ctx (params mpt_neg).
Proof.
  exact (ctor_normalises (toy_params 42 (-3) 8 4 2) mpt_neg eq_refl).
Defined.

(** Five tokens and a context of four: one chunk. *)
Lemma chunk_count_witness :
  match n_chunk_of [1; 2; 3; 1; 2] 4 with
  | Ret n_chunk =>
      4 <> 0
      /\ (4 < 0 -> n_chunk = 0)
      /\ (0 < 4 ->
          n_chunk = 5 / 4
          /\ forall i, 0 <= i < n_chunk -> (i + 1) * 4 <= 5)
  | Undef => 4 = 0
  | Throw => False
  end.
Proof.
  exact (chunk_count [1; 2; 3; 1; 2] 4 ltac:(now vm_compute)
           ltac:(now vm_compute)).
Defined.

(** With a context of 4 and batches of 3 the second batch is the one token
    left; it is evaluated at position 1, while three tokens of the chunk
    were evaluated before it. *)
Lemma batch_plan_witness :
  perplexity_batch params_4_3 [1; 2; 3; 1; 2] 0 1
  = Ret (mk_batch 1 1 [1])
  /\ ~ (1 = 0 \/ (1 + 1) * 3 <= 4).
Proof.
  pose proof (batch_plan params_4_3 [1; 2; 3; 1; 2] 0 1
                ltac:(now vm_compute) ltac:(now vm_compute)
                ltac:(now vm_compute) ltac:(now vm_compute)
                ltac:(now vm_compute) ltac:(now vm_compute)
                ltac:(now vm_compute)) as (H1 & _ & _ & H2).
  split; [exact H1|]. intros H. apply H2 in H. now vm_compute in H.
Defined.

(** The first chunk has 4 * 4 logits. *)
Lemma chunk_logits_count_witness :
  Z.of_nat (length (default [] chunk_0.1)) = 4 * 4
  /\ hparams (p_model chunk_0.2) = toy_hp.
Proof.
  exact (chunk_logits_count params_4_3 [1; 2; 3; 1; 2] 0
           (mk_ppl eval_statics_init toy_model 0) chunk_0.2
           (default [] chunk_0.1)
           ltac:(now vm_compute) ltac:(now vm_compute) ltac:(now vm_compute)
           ltac:(now vm_compute) ltac:(now vm_compute) ltac:(now vm_compute)
           ltac:(now vm_compute) ltac:(now vm_compute) eq_refl).
Defined.

(** The locals of that object before the loop, and its first round on the
    empty prompt. *)
Lemma state_talk_eq : decode_init mpt_talk eval_statics_init = Ret state_talk.
Proof. reflexivity. Qed.

Lemma round_empty_eq :
  loop_body (params mpt_talk) [] state_talk = Ret round_empty.
Proof. reflexivity. Qed.

(** On the empty prompt the first token is the one the sampler draws from
    the warm-up logits 48, 49, 772, 773. *)
Lemma empty_prompt_samples_warmup_witness :
  embd (iter_state round_empty) = [1]
  /\ n_sampled (iter_state round_empty) = 1
  /\ n_consumed (iter_state round_empty) = 0
  /\ n_past (iter_state round_empty) = 0.
Proof.
  destruct (empty_prompt_samples_warmup mpt_talk eval_statics_init state_talk
              round_empty state_talk_eq round_empty_eq) as (r & _ & _ & H).
  split; [reflexivity|exact H].
Defined.

(** A record with no dimensions and a name length of -1. *)
Lemma negative_name_length_throws_witness :
  load_weights 1 registry 0 0
               (IStream.mk (le32 0 ++ le32 (-1) ++ le32 0 ++ [x61]) false)
  = Some Throw.
Proof.
  exact (negative_name_length_throws 0 registry 0 0 (le32 0) (le32 (-1))
           (le32 0) [x61] eq_refl eq_refl eq_refl ltac:(now vm_compute)
           ltac:(now vm_compute)).
Defined.






End ExamplesMore.
